(** * Leader/standby log replication of the nameserver
      (src/nameserver/master_slave.cc)

    A shallow embedding of [MasterSlaveImpl]: the object's data members
    become the record [state], member functions become functions in a
    small state-and-abort monad.  The files the object works on
    (sync.log behind the descriptors [log_] and [read_log_]) are part of
    the state; calls of the registered callbacks, of the RPC stub, of the
    worker thread and of the condition variables are recorded in a trace.

    Threads are sequentialised in two ways.  In the first, a member
    function runs without interruption, except at the places where it
    waits for another thread (the wait of the blocking [Log], the RPC of
    the replicator); there the other thread's steps are supplied from
    outside.  In the second (the last part of the definitions) every
    thread advances one step at a time, a step ending wherever the code
    releases the mutex or touches a data member without holding it. *)

From Stdlib Require Import ZArith List Lia String.
From coqutil Require Import Byte Word.LittleEndianList.
From stdpp Require Import base gmap.
Import ListNotations.
Local Open Scope Z_scope.

(** ** Machine integers *)

Module Int.

Definition INT_MAX : Z := 2 ^ 31 - 1.
Definition INT_MIN : Z := - 2 ^ 31.

(** Conversion to [int]: the value modulo [2^32], read as two's
    complement.  Every [int] computation of the source goes through it. *)
Definition to_int (z : Z) : Z := (z + 2 ^ 31) mod 2 ^ 32 - 2 ^ 31.

(** Conversion to [int64_t]. *)
Definition to_int64 (z : Z) : Z := (z + 2 ^ 63) mod 2 ^ 64 - 2 ^ 63.

(** Modelled from the spec: the fields of [AppendLogRequest] are declared
    in a .proto file outside src/; the spec gives the request offset as a
    uint32 (and the response offset as an int32).  Storing an [int] into
    the request, and comparing the request's offset with an [int],
    converts the [int] to unsigned. *)
Definition to_uint32 (z : Z) : Z := z mod 2 ^ 32.

Definition in_int (z : Z) : Prop := INT_MIN <= z <= INT_MAX.

End Int.
Import Int.

(** ** Data *)

(** A [std::string] holding a log entry. *)
Abbreviation bytes := (list byte).

Definition str_length (b : bytes) : Z := Z.of_nat (length b).

(** A completion callback [boost::function<void (bool)>] handed to the
    asynchronous [Log]; the model keeps the closure's identity only. *)
Definition callback := nat.

(** The request and the response of the AppendLog RPC. *)
Record AppendLogRequest := { req_offset : Z; req_log_data : bytes }.
Record AppendLogResponse := { resp_success : bool; resp_offset : Z }.

(** What the object does to its surroundings, oldest first. *)
Inductive event :=
| EvApply (entry : bytes)                     (* log_callback_(entry) *)
| EvDone (offset : Z) (c : callback) (ok : bool)
                                              (* callback(ok), registered for [offset] *)
| EvSend (request : AppendLogRequest)         (* SendRequest(... AppendLog ...) answered *)
| EvGetStub (addr : string)                   (* rpc_client_->GetStub(addr, &slave_stub_) *)
| EvStartWorker                               (* worker_.Start(BackgroundLog) *)
| EvSignalCond                                (* cond_.Signal() *)
| EvSignalLogDone                             (* log_done_.Signal() *)
| EvTimeWait (wait_time : Z).                 (* log_done_.TimeWait(wait_time) *)

(** A job handed to [thread_pool_->DelayTask]: PorcessCallbck(offset, len, true). *)
Record task := { task_offset : Z; task_len : Z }.

Record state := {
  master_only : bool;
  is_leader : bool;
  master_addr : string;
  slave_addr : string;
  sync_log : bytes;            (* the file sync.log; [log_] writes at its end *)
  read_log : Z;                (* file position of the descriptor [read_log_] *)
  current_offset : Z;
  applied_offset : Z;
  sync_offset : Z;
  callbacks : gmap Z callback;
  delayed : list task;         (* the PorcessCallbck jobs waiting in [thread_pool_] *)
  trace : list event
}.

Definition set_master_only (v : bool) (s : state) : state :=
  {| master_only := v; is_leader := is_leader s; master_addr := master_addr s;
     slave_addr := slave_addr s; sync_log := sync_log s; read_log := read_log s;
     current_offset := current_offset s; applied_offset := applied_offset s;
     sync_offset := sync_offset s; callbacks := callbacks s;
     delayed := delayed s; trace := trace s |}.

Definition set_is_leader (v : bool) (s : state) : state :=
  {| master_only := master_only s; is_leader := v; master_addr := master_addr s;
     slave_addr := slave_addr s; sync_log := sync_log s; read_log := read_log s;
     current_offset := current_offset s; applied_offset := applied_offset s;
     sync_offset := sync_offset s; callbacks := callbacks s;
     delayed := delayed s; trace := trace s |}.

Definition set_addrs (m sl : string) (s : state) : state :=
  {| master_only := master_only s; is_leader := is_leader s; master_addr := m;
     slave_addr := sl; sync_log := sync_log s; read_log := read_log s;
     current_offset := current_offset s; applied_offset := applied_offset s;
     sync_offset := sync_offset s; callbacks := callbacks s;
     delayed := delayed s; trace := trace s |}.

Definition set_sync_log (v : bytes) (s : state) : state :=
  {| master_only := master_only s; is_leader := is_leader s; master_addr := master_addr s;
     slave_addr := slave_addr s; sync_log := v; read_log := read_log s;
     current_offset := current_offset s; applied_offset := applied_offset s;
     sync_offset := sync_offset s; callbacks := callbacks s;
     delayed := delayed s; trace := trace s |}.

Definition set_read_log (v : Z) (s : state) : state :=
  {| master_only := master_only s; is_leader := is_leader s; master_addr := master_addr s;
     slave_addr := slave_addr s; sync_log := sync_log s; read_log := v;
     current_offset := current_offset s; applied_offset := applied_offset s;
     sync_offset := sync_offset s; callbacks := callbacks s;
     delayed := delayed s; trace := trace s |}.

Definition set_current_offset (v : Z) (s : state) : state :=
  {| master_only := master_only s; is_leader := is_leader s; master_addr := master_addr s;
     slave_addr := slave_addr s; sync_log := sync_log s; read_log := read_log s;
     current_offset := v; applied_offset := applied_offset s;
     sync_offset := sync_offset s; callbacks := callbacks s;
     delayed := delayed s; trace := trace s |}.

Definition set_applied_offset (v : Z) (s : state) : state :=
  {| master_only := master_only s; is_leader := is_leader s; master_addr := master_addr s;
     slave_addr := slave_addr s; sync_log := sync_log s; read_log := read_log s;
     current_offset := current_offset s; applied_offset := v;
     sync_offset := sync_offset s; callbacks := callbacks s;
     delayed := delayed s; trace := trace s |}.

Definition set_sync_offset (v : Z) (s : state) : state :=
  {| master_only := master_only s; is_leader := is_leader s; master_addr := master_addr s;
     slave_addr := slave_addr s; sync_log := sync_log s; read_log := read_log s;
     current_offset := current_offset s; applied_offset := applied_offset s;
     sync_offset := v; callbacks := callbacks s;
     delayed := delayed s; trace := trace s |}.

Definition set_callbacks (v : gmap Z callback) (s : state) : state :=
  {| master_only := master_only s; is_leader := is_leader s; master_addr := master_addr s;
     slave_addr := slave_addr s; sync_log := sync_log s; read_log := read_log s;
     current_offset := current_offset s; applied_offset := applied_offset s;
     sync_offset := sync_offset s; callbacks := v;
     delayed := delayed s; trace := trace s |}.

Definition set_delayed (v : list task) (s : state) : state :=
  {| master_only := master_only s; is_leader := is_leader s; master_addr := master_addr s;
     slave_addr := slave_addr s; sync_log := sync_log s; read_log := read_log s;
     current_offset := current_offset s; applied_offset := applied_offset s;
     sync_offset := sync_offset s; callbacks := callbacks s;
     delayed := v; trace := trace s |}.

Definition emit (e : event) (s : state) : state :=
  {| master_only := master_only s; is_leader := is_leader s; master_addr := master_addr s;
     slave_addr := slave_addr s; sync_log := sync_log s; read_log := read_log s;
     current_offset := current_offset s; applied_offset := applied_offset s;
     sync_offset := sync_offset s; callbacks := callbacks s;
     delayed := delayed s; trace := trace s ++ [e] |}.

(** ** The monad: state, abort, and waiting for input that is not there *)

Inductive result (A : Type) : Type :=
| Ret (a : A)       (* the call returned *)
| Abort             (* the process died: failed assert, LOG(FATAL), uncaught exception *)
| Pending.          (* the thread still waits: the supplied schedule is used up *)
Arguments Ret {A} a.
Arguments Abort {A}.
Arguments Pending {A}.

Definition M (A : Type) : Type := state -> result (A * state).

Definition ret {A} (a : A) : M A := fun s => Ret (a, s).

Definition bind {A B} (m : M A) (k : A -> M B) : M B := fun s =>
  match m s with
  | Ret (a, s') => k a s'
  | Abort => Abort
  | Pending => Pending
  end.

Definition abort {A} : M A := fun _ => Abort.
Definition get {A} (f : state -> A) : M A := fun s => Ret (f s, s).
Definition modify (f : state -> state) : M unit := fun s => Ret (tt, f s).

(** [assert(c)] of <cassert>: the process aborts when [c] is false. *)
Definition assert (c : bool) : M unit := if c then ret tt else abort.

(** Modelled from the spec: LOG comes from common/logging.h, outside
    src/; LOG(FATAL, ...) is fatal ("process aborts", "fatal misuse"),
    every other level only prints. *)
Definition LOG_FATAL {A} : M A := abort.

Notation "'let!' x ':=' m 'in' k" := (bind m (fun x => k))
  (at level 10, x name, m at level 100, k at level 200).
Notation "m ;; k" := (bind m (fun _ => k))
  (at level 100, k at level 200, right associativity).

(** ** The log file *)

(** [read(read_log_, buf, n)]: the bytes from the read position on, at most
    [n] of them; the position moves behind what was read. *)
Definition read (n : Z) : M bytes := fun s =>
  let got := firstn (Z.to_nat n) (skipn (Z.to_nat (read_log s)) (sync_log s)) in
  Ret (got, set_read_log (read_log s + str_length got) s).

(** [lseek(read_log_, offset, SEEK_SET)]: fails with -1, leaving the
    position alone, when [offset] is negative. *)
Definition lseek_set (offset : Z) : M Z := fun s =>
  if offset <? 0 then Ret (-1, s) else Ret (offset, set_read_log offset s).

(** [write(log_, ...)]: [log_] is positioned at the end of the file by
    [Init] and is the only writer, so every write appends.  All bytes are
    written. *)
Definition write (b : bytes) : M Z := fun s =>
  Ret (str_length b, set_sync_log (sync_log s ++ b) s).

(** [memcpy(buf, &len, 4)] and back, on a little-endian machine. *)
Definition encode_int (v : Z) : bytes := le_split 4 v.
Definition decode_int (b : bytes) : Z := to_int (le_combine b).

(** bool MasterSlaveImpl::ReadEntry(std::string* entry): [Some entry] for
    true, [None] for false. *)
Definition ReadEntry : M (option bytes) :=
  let! buf := read 4 in
  assert (str_length buf =? 4) ;;
  let len := decode_int buf in
  (* new char[len] throws for a negative len *)
  if len <? 0 then abort else
  let! tmp := read len in
  if str_length tmp =? len then ret (Some tmp) else ret None.

(** int MasterSlaveImpl::LogLocal(const std::string& entry) *)
Definition LogLocal (entry : bytes) : M Z :=
  let! leader := get is_leader in
  if negb leader then LOG_FATAL else
  let len := to_int (str_length entry) in
  write (encode_int len) ;;
  let! written := write entry in
  let w := to_int written in
  assert (0 <=? w) ;;
  ret (to_int (w + 4)).

(** ** Standby side *)

(** void MasterSlaveImpl::AppendLog(controller, request, response, done):
    the response object comes in and goes out; fields the function does
    not set keep what they held. *)
Definition AppendLog (request : AppendLogRequest) (response : AppendLogResponse)
  : M AppendLogResponse :=
  let! cur := get current_offset in
  if req_offset request >? to_uint32 cur then
    ret {| resp_success := false; resp_offset := cur |}
  else if req_offset request <? to_uint32 cur then
    ret {| resp_success := false; resp_offset := -1 |}
  else
    let len := to_int (str_length (req_log_data request)) in
    write (encode_int len) ;;
    write (firstn (Z.to_nat len) (req_log_data request)) ;;
    modify (emit (EvApply (req_log_data request))) ;;
    modify (fun s => set_current_offset (to_int (current_offset s + to_int (len + 4))) s) ;;
    modify (fun s => set_applied_offset (current_offset s) s) ;;
    ret {| resp_success := true; resp_offset := resp_offset response |}.

(** ** Leader side *)

(** void MasterSlaveImpl::PorcessCallbck(int offset, int len, bool timeout_check) *)
Definition PorcessCallbck (offset len : Z) (timeout_check : bool) : M unit :=
  let leave : M unit :=
    let! s := get (fun s => s) in
    if master_only s && (to_int (offset + len) =? current_offset s) then
      (* LOG(INFO, "[Sync] leaves master-only mode") *)
      modify (set_master_only true)
    else ret tt in
  let! found := get (fun s => callbacks s !! offset) in
  match found with
  | Some c =>
      modify (fun s => set_callbacks (delete offset (callbacks s)) s) ;;
      modify (emit (EvDone offset c true)) ;;
      modify (fun s => if to_int (offset + len) >? applied_offset s
                       then set_applied_offset (to_int (offset + len)) s else s) ;;
      let! degraded := get master_only in
      if timeout_check && negb degraded then
        modify (set_master_only true)
      else leave
  | None => leave
  end.

(** The bool and the response that come back from SendRequest. *)
Inductive rpc_event :=
| TransportFailure                      (* SendRequest returned false *)
| Reply (response : AppendLogResponse). (* SendRequest returned true *)

(** while (!rpc_client_->SendRequest(...)) { sleep(5); } *)
Fixpoint SendRequest_retry (net : list rpc_event)
  : option (AppendLogResponse * list rpc_event) :=
  match net with
  | [] => None
  | TransportFailure :: rest => SendRequest_retry rest
  | Reply r :: rest => Some (r, rest)
  end.

(** How one round of the loop of ReplicateLog ends. *)
Inductive pass :=
| Continue      (* back to the loop condition *)
| Finished      (* the loop was left; applied_offset_ set, log_done_ signalled *)
| Incomplete.   (* return after "incomplete record" *)

(** ReplicateLog, from the loop condition to the request being ready:
    the entry to send, or how the function ended. *)
Definition ReplicateLog_head : M (pass + bytes) :=
  let! s := get (fun s => s) in
  if (sync_offset s <? current_offset s) && negb (sync_offset s =? current_offset s) then
    let! e := ReadEntry in
    match e with
    | None => ret (inl Incomplete)
    | Some entry => ret (inr entry)
    end
  else
    modify (fun s => set_applied_offset (current_offset s) s) ;;
    modify (emit EvSignalLogDone) ;;
    ret (inl Finished).

(** ReplicateLog, from the answered request to the end of the loop body. *)
Definition ReplicateLog_reply (entry : bytes) (response : AppendLogResponse) : M unit :=
  let! sync := get sync_offset in
  modify (emit (EvSend {| req_offset := to_uint32 sync; req_log_data := entry |})) ;;
  if negb (resp_success response) then
    if negb (resp_offset response =? -1) then
      modify (set_sync_offset (resp_offset response)) ;;
      let! offset := lseek_set (resp_offset response) in
      assert (offset =? resp_offset response)
    else ret tt
  else
    PorcessCallbck sync (to_int (str_length entry + 4)) false ;;
    modify (fun s => set_sync_offset (to_int (sync_offset s + (4 + str_length entry))) s) ;;
    let! s := get (fun s => s) in
    if master_only s && (sync_offset s =? current_offset s) then
      modify (set_master_only false)
    else ret tt.

(** One round of the loop of ReplicateLog, the peer answering [response]
    (after any number of failed sends). *)
Definition ReplicateLog_iter (response : AppendLogResponse) : M pass :=
  let! h := ReplicateLog_head in
  match h with
  | inl p => ret p
  | inr entry => ReplicateLog_reply entry response ;; ret Continue
  end.

(** void MasterSlaveImpl::ReplicateLog(), the network behaving as [net];
    returns what of [net] is left.  [Pending]: the peer has not answered
    yet. *)
Fixpoint ReplicateLog_loop (fuel : nat) (net : list rpc_event) : M (list rpc_event) :=
  match fuel with
  | O => fun _ => Pending
  | S fuel' =>
      let! h := ReplicateLog_head in
      match h with
      | inl _ => ret net
      | inr entry =>
          match SendRequest_retry net with
          | None => fun _ => Pending
          | Some (response, rest) =>
              ReplicateLog_reply entry response ;; ReplicateLog_loop fuel' rest
          end
      end
  end.

Definition ReplicateLog (net : list rpc_event) : M (list rpc_event) :=
  ReplicateLog_loop (S (length net)) net.

(** std::map::insert: an existing key keeps its value. *)
Definition map_insert (k : Z) (c : callback) (m : gmap Z callback) : gmap Z callback :=
  match m !! k with
  | Some _ => m
  | None => <[k := c]> m
  end.

(** void MasterSlaveImpl::Log(const std::string& entry,
                              boost::function<void (bool)> callback) *)
Definition Log_async (entry : bytes) (c : callback) : M unit :=
  let! len := LogLocal entry in
  let! s := get (fun s => s) in
  (if master_only s && (sync_offset s <? current_offset s) then
     modify (emit (EvDone (current_offset s) c true)) ;;
     modify (set_applied_offset (current_offset s))
   else
     modify (set_callbacks (map_insert (current_offset s) c (callbacks s))) ;;
     modify (set_delayed
               (delayed s ++ [{| task_offset := current_offset s;
                                 task_len := to_int (str_length entry + 4) |}])) ;;
     modify (emit EvSignalCond)) ;;
  modify (fun s => set_current_offset (to_int (current_offset s + len)) s).

(** What the other threads of a leader do while one thread waits. *)
Inductive action :=
| DoLogAsync (entry : bytes) (c : callback)   (* a caller of the asynchronous Log *)
| DoReplicate (response : AppendLogResponse)  (* the worker: one round of ReplicateLog *)
| DoDelayed (i : nat).                        (* the thread pool: the i-th waiting job *)

Definition run_action (a : action) : M unit :=
  match a with
  | DoLogAsync entry c => Log_async entry c
  | DoReplicate response => ReplicateLog_iter response ;; ret tt
  | DoDelayed i =>
      let! jobs := get delayed in
      match nth_error jobs i with
      | Some t =>
          modify (set_delayed (firstn i jobs ++ skipn (S i) jobs)) ;;
          PorcessCallbck (task_offset t) (task_len t) true
      | None => ret tt
      end
  end.

Fixpoint run_actions (l : list action) : M unit :=
  match l with
  | [] => ret tt
  | a :: rest => run_action a ;; run_actions rest
  end.

(** One turn of the wait loop of the blocking Log: the two clock readings,
    what TimeWait returned, and what the other threads did while TimeWait
    had released the mutex. *)
Record wait_round := {
  at_check : Z;              (* get_micros() in the loop condition *)
  at_wait : Z;               (* get_micros() when wait_time is computed *)
  signalled : bool;          (* log_done_.TimeWait(wait_time) *)
  meanwhile : list action
}.

(** What surrounds one call of the blocking Log. *)
Record schedule := {
  before_check : list action;  (* between mu_.Unlock() and the master-only test *)
  start_point : Z;             (* get_micros() *)
  rounds : list wait_round
}.

(** Blocking Log, after the loop: "log replicate time out". *)
Definition Log_timeout : M bool :=
  modify (set_master_only true) ;; ret true.

(** Blocking Log, the wait loop. *)
Fixpoint Log_wait (stop_point : Z) (rs : list wait_round) : M bool :=
  let! s := get (fun s => s) in
  if sync_offset s =? current_offset s then Log_timeout else
  match rs with
  | [] => fun _ => Pending
  | r :: rest =>
      if at_check r <? stop_point then
        let wait_time := to_int (Z.quot (stop_point - at_wait r) 1000) in
        modify (emit (EvTimeWait wait_time)) ;;
        run_actions (meanwhile r) ;;
        if signalled r then
          let! s := get (fun s => s) in
          if negb (sync_offset s =? current_offset s) then Log_wait stop_point rest
          else
            (if master_only s then modify (set_master_only false) else ret tt) ;;
            ret true
        else Log_timeout
      else Log_timeout
  end.

(** int64_t stop_point = start_point + timeout_ms * 1000; *)
Definition stop_point (timeout_ms : Z) (sch : schedule) : Z :=
  to_int64 (start_point sch + to_int (timeout_ms * 1000)).

(** A turn of the wait loop after which the blocking Log waits no longer:
    the deadline has passed when the loop condition reads the clock, or
    TimeWait runs into its timeout. *)
Definition gives_up (stop : Z) (r : wait_round) : Prop :=
  stop <= at_check r \/ signalled r = false.

(** Blocking Log, from mu_.Lock() to mu_.Unlock(): the entry is written
    and [current_offset_] moved; the result is [last_offset]. *)
Definition Log_append (entry : bytes) : M Z :=
  let! len := LogLocal entry in
  let! last_offset := get current_offset in
  modify (fun s => set_current_offset (to_int (current_offset s + len)) s) ;;
  modify (emit EvSignalCond) ;;
  ret last_offset.

(** bool MasterSlaveImpl::Log(const std::string& entry, int timeout_ms) *)
Definition Log (entry : bytes) (timeout_ms : Z) (sch : schedule) : M bool :=
  let! last_offset := Log_append entry in
  run_actions (before_check sch) ;;
  let! s := get (fun s => s) in
  if master_only s && (sync_offset s <? last_offset) then
    modify (fun s => set_applied_offset (current_offset s) s) ;;
    ret true
  else
    Log_wait (stop_point timeout_ms sch) (rounds sch).

(** void MasterSlaveImpl::SwitchToLeader() *)
Definition SwitchToLeader : M unit :=
  modify (set_is_leader true) ;;
  modify (set_sync_offset 0) ;;
  lseek_set 0 ;;
  let! old_master_addr := get master_addr in
  modify (fun s => set_addrs (slave_addr s) old_master_addr s) ;;
  let! peer := get slave_addr in
  modify (emit (EvGetStub peer)) ;;
  modify (emit EvStartWorker).

(** ** Start-up *)

(** What open() finds under a file name. *)
Inductive file :=
| Absent                 (* ENOENT *)
| Unreadable             (* any other error *)
| Content (b : bytes).

Record disk := { disk_sync_log : file; disk_applied_log : file }.

(** The gflags the constructor reads; [nameserver_nodes] is already split
    at the commas into nodes[0] and nodes[1]. *)
Record flags := {
  nameserver_node0 : string;
  nameserver_node1 : string;
  nameserver : string;
  master_slave_role : string
}.

(** MasterSlaveImpl::MasterSlaveImpl() *)
Definition MasterSlaveImpl (f : flags) : result state :=
  let build (another_server : string) :=
    let master := String.eqb (master_slave_role f) "master" in
    let slave := String.eqb (master_slave_role f) "slave" in
    Ret {| master_only := false;
           is_leader := master;
           master_addr := if master then nameserver f else another_server;
           slave_addr := if slave then nameserver f else another_server;
           sync_log := []; read_log := 0;
           current_offset := 0; applied_offset := 0; sync_offset := 0;
           callbacks := ∅; delayed := []; trace := [] |} in
  if String.eqb (nameserver f) (nameserver_node0 f) then build (nameserver_node1 f)
  else if String.eqb (nameserver f) (nameserver_node1 f) then build (nameserver_node0 f)
  else Abort.

(** The redo loop of Init:
    while (applied_offset_ < sync_offset_) { ReadEntry or assert(0); ... } *)
Fixpoint redo (fuel : nat) : M unit :=
  let! s := get (fun s => s) in
  if applied_offset s <? sync_offset s then
    match fuel with
    | O => fun _ => Pending
    | S fuel' =>
        let! e := ReadEntry in
        match e with
        | None => abort
        | Some entry =>
            modify (emit (EvApply entry)) ;;
            modify (fun s => set_applied_offset
                               (to_int (applied_offset s + (str_length entry + 4))) s) ;;
            redo fuel'
        end
    end
  else ret tt.

(** void MasterSlaveImpl::Init(), the two files being as [d] says, up to
    its closing call of LogStatus (line 87).  That call changes no data
    member: it rewrites applied.log, which nothing modelled here reads
    again, and puts itself into [thread_pool_] as a periodic job, which
    [delayed], the list of the PorcessCallbck jobs, does not hold.  What
    it writes is [LogStatus] below. *)
Definition Init (d : disk) : M unit :=
  match disk_sync_log d with
  | Unreadable => LOG_FATAL
  | found =>
      (* open(O_WRONLY | O_CREAT), lseek(log_, 0, SEEK_END) *)
      modify (set_sync_log (match found with Content b => b | _ => [] end)) ;;
      modify (fun s => set_current_offset (to_int (str_length (sync_log s))) s) ;;
      modify (fun s => set_sync_offset (current_offset s) s) ;;
      (* open(O_RDONLY) *)
      modify (set_read_log 0) ;;
      (match disk_applied_log d with
       | Unreadable => LOG_FATAL
       | Absent => ret tt
       | Content b =>
           let buf := firstn 4 b in
           if str_length buf =? 4 then
             modify (set_applied_offset (decode_int buf)) ;;
             let! s := get (fun s => s) in
             assert (applied_offset s <=? sync_offset s) ;;
             lseek_set (applied_offset s) ;;
             ret tt
           else ret tt
       end) ;;
      let! size := get (fun s => length (sync_log s)) in
      redo (S size) ;;
      let! s := get (fun s => s) in
      assert (applied_offset s =? sync_offset s) ;;
      modify (emit (EvGetStub (slave_addr s))) ;;
      if is_leader s then modify (emit EvStartWorker) else ret tt
  end.

(** A node from the constructor through Init. *)
Definition boot (f : flags) (d : disk) : result state :=
  match MasterSlaveImpl f with
  | Ret s => match Init d s with
             | Ret (_, s') => Ret s'
             | Abort => Abort
             | Pending => Pending
             end
  | Abort => Abort
  | Pending => Pending
  end.

(** ** Runs *)

(** What a node that was started as standby goes through: it is booted,
    then it serves AppendLog requests. *)
Inductive standby : state -> Prop :=
| standby_boot f d s :
    boot f d = Ret s -> is_leader s = false -> standby s
| standby_serve s request response response' s' :
    standby s -> AppendLog request response s = Ret (response', s') -> standby s'.

(** ** Records cut short *)

(** At the read position the file holds a length prefix [n] and then
    fewer than [n] bytes: a record whose writing was cut short. *)
Definition partial_record (s : state) : Prop :=
  0 <= read_log s /\
  exists n rest,
    skipn (Z.to_nat (read_log s)) (sync_log s) = encode_int n ++ rest /\
    0 <= n <= INT_MAX /\
    str_length rest < n.

(** ** Runs of a leader *)

(** The operations of a leader: a call of the blocking Log (with what the
    other threads do while it waits), or a step of another thread. *)
Inductive op :=
| OpLog (entry : bytes) (timeout_ms : Z) (sch : schedule)
| OpOther (a : action).

Definition run_op (o : op) : M unit :=
  match o with
  | OpLog entry timeout_ms sch => Log entry timeout_ms sch ;; ret tt
  | OpOther a => run_action a
  end.

(** Every action an operation contains. *)
Definition actions_of (o : op) : list action :=
  match o with
  | OpLog _ _ sch => before_check sch ++ flat_map meanwhile (rounds sch)
  | OpOther a => [a]
  end.

(** The state after a sequence of operations that all returned, every
    action in them being [allowed]. *)
Inductive run (allowed : action -> bool) : state -> state -> Prop :=
| run_refl s : run allowed s s
| run_step s s' s'' o :
    run allowed s s' ->
    forallb allowed (actions_of o) = true ->
    run_op o s' = Ret (tt, s'') ->
    run allowed s s''.

Definition any_action (a : action) : bool := true.

(** A node that came up as leader. *)
Definition leader_boot (s : state) : Prop :=
  exists f d, boot f d = Ret s /\ is_leader s = true.

(** The log fits the offsets: an [int] addresses 2^31 - 1 bytes. *)
Definition bounded (s : state) : Prop := str_length (sync_log s) <= INT_MAX.

(** How often the completion callback registered for [offset] was called. *)
Fixpoint fired (offset : Z) (tr : list event) : nat :=
  match tr with
  | [] => 0
  | EvDone o _ _ :: rest => if o =? offset then S (fired offset rest) else fired offset rest
  | _ :: rest => fired offset rest
  end.

(** Callbacks wait under offsets below [current_offset_] and have not been
    called; no callback was called twice, none for an offset not yet
    handed out. *)
Record callbacks_ok (s : state) : Prop := {
  cb_current : current_offset s = str_length (sync_log s);
  cb_pending : forall k c, callbacks s !! k = Some c ->
                 k < current_offset s /\ fired k (trace s) = 0%nat;
  cb_fresh : forall k, current_offset s <= k -> fired k (trace s) = 0%nat;
  cb_once : forall k, (fired k (trace s) <= 1)%nat
}.

(** The state PorcessCallbck leaves (the function always returns). *)
Definition after_PorcessCallbck (offset len : Z) (timeout_check : bool) (s : state)
  : state :=
  match PorcessCallbck offset len timeout_check s with
  | Ret (_, s') => s'
  | _ => s
  end.

(** The invariant as it is carried along a run: it holds for as long as
    the log fits an [int]. *)
Definition kept_callbacks (s : state) : Prop := bounded s -> callbacks_ok s.

(** Two states with the same log, the same [current_offset_], the same
    waiting callbacks and the same completion calls so far. *)
Definition same_callbacks (s s' : state) : Prop :=
  sync_log s' = sync_log s /\
  current_offset s' = current_offset s /\
  callbacks s' = callbacks s /\
  forall k, fired k (trace s') = fired k (trace s).

(** Every waiting callback has its timeout check among the jobs that
    wait in the thread pool. *)
Definition checks_scheduled (s : state) : Prop :=
  forall k c, callbacks s !! k = Some c ->
    exists t, In t (delayed s) /\ task_offset t = k.

(** The callback [c] registered under [offset] waits still, or it has
    been called. *)
Definition waits_or_called (offset : Z) (c : callback) (s : state) : Prop :=
  callbacks s !! offset = Some c \/ In (EvDone offset c true) (trace s).

(** A step that leaves the waiting callbacks and the jobs as they are and
    takes nothing back from the trace. *)
Definition quiet (s s' : state) : Prop :=
  callbacks s' = callbacks s /\ delayed s' = delayed s /\
  exists tr, trace s' = trace s ++ tr.

(** A node that became leader by promotion: SwitchToLeader ran on a
    standby whose [current_offset_] was the length of its log (as it is
    unless an entry of 2 GiB or more was sent to it). *)
Definition promoted (s : state) : Prop :=
  exists sb,
    standby sb /\ current_offset sb = str_length (sync_log sb) /\
    SwitchToLeader sb = Ret (tt, s).

(** A leader at the start of its term. *)
Definition leader_start (s : state) : Prop := leader_boot s \/ promoted s.

(** ** Sample data *)

Module Sample.

Definition node_a : string := "10.0.0.1:8828".
Definition node_b : string := "10.0.0.2:8828".

Definition flags_of (role : string) : flags :=
  {| nameserver_node0 := node_a; nameserver_node1 := node_b;
     nameserver := node_a; master_slave_role := role |}.

Definition empty_disk : disk :=
  {| disk_sync_log := Absent; disk_applied_log := Absent |}.

(** "hello" and "abc". *)
Definition hello : bytes := [Byte.x68; Byte.x65; Byte.x6c; Byte.x6c; Byte.x6f].
Definition abc : bytes := [Byte.x61; Byte.x62; Byte.x63].

(** One complete record, "abc", and a checkpoint behind it. *)
Definition disk_abc : disk :=
  {| disk_sync_log := Content (encode_int 3 ++ abc);
     disk_applied_log := Content (encode_int 7) |}.

(** A record announcing five bytes of which three were written. *)
Definition encode_torn : bytes := encode_int 5 ++ abc.
Definition disk_torn : disk :=
  {| disk_sync_log := Content encode_torn;
     disk_applied_log := Absent |}.

Definition accepted : AppendLogResponse := {| resp_success := true; resp_offset := 0 |}.
Definition resync_at (offset : Z) : AppendLogResponse :=
  {| resp_success := false; resp_offset := offset |}.

(** Nobody else runs; the clock reads 0 at the start and 200000 at the
    first test of the deadline. *)
Definition late : schedule :=
  {| before_check := []; start_point := 0;
     rounds := [{| at_check := 200000; at_wait := 200000;
                   signalled := false; meanwhile := [] |}] |}.

(** Between the append and the first test another caller logs "abc"
    asynchronously and the worker ships both entries. *)
Definition overtaken : schedule :=
  {| before_check := [DoLogAsync abc 1%nat; DoReplicate accepted; DoReplicate accepted];
     start_point := 0; rounds := [] |}.

(** The object before anything was configured, and the state a call
    leaves (the state given when it did not return). *)
Definition blank : state :=
  {| master_only := false; is_leader := false; master_addr := ""; slave_addr := "";
     sync_log := []; read_log := 0;
     current_offset := 0; applied_offset := 0; sync_offset := 0;
     callbacks := ∅; delayed := []; trace := [] |}.

Definition booted (r : result state) : state :=
  match r with Ret s => s | _ => blank end.

Definition after {A} (m : M A) (s : state) : state :=
  match m s with Ret (_, s') => s' | _ => s end.

(** A leader on an empty disk; the same after a blocking Log of "hello"
    that ran into its timeout; after an asynchronous Log of "hello". *)
Definition leader_empty : state :=
  Eval vm_compute in booted (boot (flags_of "master") empty_disk).
Definition leader_degraded : state :=
  Eval vm_compute in after (Log hello 100 late) leader_empty.
Definition leader_pending : state :=
  Eval vm_compute in after (Log_async hello 1%nat) leader_empty.

(** A leader and a standby that came up on the log holding "abc"; the
    leader after an asynchronous Log of "hello". *)
Definition leader_abc : state :=
  Eval vm_compute in booted (boot (flags_of "master") disk_abc).
Definition leader_abc_pending : state :=
  Eval vm_compute in after (Log_async hello 1%nat) leader_abc.
Definition standby_abc : state :=
  Eval vm_compute in booted (boot (flags_of "slave") disk_abc).

(** A checkpoint that points one byte behind the end of the log. *)
Definition disk_beyond : disk :=
  {| disk_sync_log := Content (encode_int 3 ++ abc);
     disk_applied_log := Content (encode_int 8) |}.

(** The log holding "abc" and then a record cut short, the checkpoint
    behind "abc". *)
Definition disk_abc_torn : disk :=
  {| disk_sync_log := Content ((encode_int 3 ++ abc) ++ encode_int 5 ++ abc);
     disk_applied_log := Content (encode_int (str_length (encode_int 3 ++ abc))) |}.

End Sample.

(** ** Records, the checkpoint, and the two nodes together *)

(** An entry as LogLocal and AppendLog put it into the file: four bytes of
    length, then the entry. *)
Definition record (entry : bytes) : bytes := encode_int (str_length entry) ++ entry.

Definition records (entries : list bytes) : bytes := flat_map record entries.

(** void MasterSlaveImpl::LogStatus(): what applied.log holds afterwards,
    given what was found under applied.tmp.  open() is without O_TRUNC and
    its result is not tested: the four bytes of [applied_offset_] go over
    the start of what the file held, nowhere if it could not be opened,
    and rename() moves the file over applied.log either way.  The LOG line
    and the DelayTask that runs LogStatus again after five seconds are
    left out. *)
Definition LogStatus (applied_tmp : file) (s : state) : file :=
  match applied_tmp with
  | Absent => Content (encode_int (applied_offset s))
  | Content old => Content (encode_int (applied_offset s) ++ skipn 4 old)
  | Unreadable => Unreadable
  end.

(** The requests a trace shows, oldest first. *)
Fixpoint sent (tr : list event) : list AppendLogRequest :=
  match tr with
  | [] => []
  | EvSend request :: rest => request :: sent rest
  | _ :: rest => sent rest
  end.

(** ReplicateLog on a leader whose requests reach the standby at once:
    SendRequest never fails, the stub hands each request to the standby's
    AppendLog and the response (which starts out as [fresh]) comes back.
    The result is both nodes when ReplicateLog returns. *)
Fixpoint replicate_to (fuel : nat) (fresh : AppendLogResponse)
    (leader standby : state) : result (state * state) :=
  match fuel with
  | O => Pending
  | S fuel' =>
      match ReplicateLog_head leader with
      | Ret (inl _, leader') => Ret (leader', standby)
      | Ret (inr entry, leader') =>
          let request := {| req_offset := to_uint32 (sync_offset leader');
                            req_log_data := entry |} in
          match AppendLog request fresh standby with
          | Ret (response, standby') =>
              match ReplicateLog_reply entry response leader' with
              | Ret (_, leader'') => replicate_to fuel' fresh leader'' standby'
              | Abort => Abort
              | Pending => Pending
              end
          | Abort => Abort
          | Pending => Pending
          end
      | Abort => Abort
      | Pending => Pending
      end
  end.

(** ** More sample data *)

Module Demo.

Definition entries : list bytes := [Sample.abc; Sample.hello].

(** The log holding "abc" and "hello", without a checkpoint. *)
Definition disk_two : disk :=
  {| disk_sync_log := Content (records entries); disk_applied_log := Absent |}.

(** The same log with the checkpoint LogStatus writes on the standby that
    has accepted "abc" only. *)
Definition disk_two_checkpointed : disk :=
  {| disk_sync_log := Content (record Sample.abc ++ records [Sample.hello]);
     disk_applied_log := LogStatus Absent Sample.standby_abc |}.

(** A cluster this node is not part of. *)
Definition stranger : flags :=
  {| nameserver_node0 := Sample.node_a; nameserver_node1 := Sample.node_b;
     nameserver := "10.0.0.3:8828"; master_slave_role := "master" |}.

End Demo.

(** The requests that ship [entries] one after the other, the first at
    [offset]. *)
Fixpoint requests_from (offset : Z) (entries : list bytes) : list AppendLogRequest :=
  match entries with
  | [] => []
  | entry :: rest =>
      {| req_offset := to_uint32 offset; req_log_data := entry |}
      :: requests_from (offset + (4 + str_length entry)) rest
  end.

(** A leader whose replicator stands in front of [entries]: the log is
    [prefix] and then their records, [sync_offset_] and the read position
    are at the end of [prefix], [current_offset_] at the end of the log. *)
Record ships_from (prefix : bytes) (entries : list bytes) (s : state) : Prop := {
  ships_log : sync_log s = prefix ++ records entries;
  ships_read : read_log s = str_length prefix;
  ships_sync : sync_offset s = str_length prefix;
  ships_current : current_offset s = str_length (sync_log s);
  ships_bounded : bounded s
}.

(** A leader with nothing to ship: the offsets of the replicator stand at
    the end of the log, no callback waits under the next offset, and the
    log has room for [need] more bytes. *)
Record level (need : Z) (s : state) : Prop := {
  level_leader : is_leader s = true;
  level_current : current_offset s = str_length (sync_log s);
  level_sync : sync_offset s = current_offset s;
  level_read : read_log s = current_offset s;
  level_applied : applied_offset s <= current_offset s;
  level_free : callbacks s !! current_offset s = None;
  level_room : current_offset s + need <= INT_MAX
}.

(** ** The threads of a leader, step by step *)

(** In the runs above a member function goes on without interruption up
    to the place where it waits.  The code gives up the mutex more often
    than that, and tests and assigns some data members without holding
    it.  Here the threads of a leader advance one step at a time, a step
    being what a thread does while it holds [mu_], or one statement
    outside it; between two steps of a thread any other thread may take
    steps of its own.

    LogLocal and the update of [current_offset_] that follows it happen
    with the mutex held, so they are one step, and ReadEntry, which holds
    no mutex, reads the file as it is between two such steps.  A failed
    SendRequest changes nothing and is no step.  Where the model is free
    it allows more than the code: a wait on a condition variable may end
    at any time, and the pool threads are not counted. *)

(** PorcessCallbck, lines 320-324: the closing test. *)
Definition PorcessCallbck_leave (offset len : Z) : M unit :=
  let! s := get (fun s => s) in
  if master_only s && (to_int (offset + len) =? current_offset s) then
    (* LOG(INFO, "[Sync] leaves master-only mode") *)
    modify (set_master_only true)
  else ret tt.

(** PorcessCallbck, lines 301-308, up to mu_.Unlock(): the callback is
    looked up and erased.  When none waits the function runs on to its
    end with the mutex held. *)
Definition PorcessCallbck_find (offset len : Z) : M (option callback) :=
  let! found := get (fun s => callbacks s !! offset) in
  match found with
  | Some c =>
      modify (fun s => set_callbacks (delete offset (callbacks s)) s) ;;
      ret (Some c)
  | None => PorcessCallbck_leave offset len ;; ret None
  end.

(** PorcessCallbck, lines 310-324: from mu_.Lock() behind the call of the
    callback to the end. *)
Definition PorcessCallbck_called (offset len : Z) (timeout_check : bool) : M unit :=
  modify (fun s => if to_int (offset + len) >? applied_offset s
                   then set_applied_offset (to_int (offset + len)) s else s) ;;
  let! degraded := get master_only in
  if timeout_check && negb degraded then
    modify (set_master_only true)
  else PorcessCallbck_leave offset len.

(** Where the worker thread stands in BackgroundLog and ReplicateLog. *)
Inductive worker :=
| Idle                              (* BackgroundLog, at its wait loop (line 222) *)
| AtLoop                            (* ReplicateLog, at the loop condition (line 237) *)
| AtLock                            (* at mu_.Lock() (line 238) *)
| AtRead                            (* at ReadEntry (line 247) *)
| InRequest (entry : bytes)         (* in SendRequest (lines 255-260) *)
| InCallback (entry : bytes) (offset len : Z)
                                    (* in PorcessCallbck, calling the callback (line 309) *)
| AtAdvance (entry : bytes)         (* at mu_.Lock() (line 273) *)
| AtExit.                           (* behind the loop (line 283) *)

(** The next step of the worker; [response] is what SendRequest brings
    back, should the worker be waiting for it.  [exiting_] is false: no
    line of the file sets it. *)
Definition worker_step (response : AppendLogResponse) (w : worker) : M worker :=
  match w with
  | Idle =>
      (* lines 221-231: cond_.Wait() while there is nothing to ship *)
      let! s := get (fun s => s) in
      if sync_offset s =? current_offset s then ret Idle else ret AtLoop
  | AtLoop =>
      (* line 237 *)
      let! s := get (fun s => s) in
      if sync_offset s <? current_offset s then ret AtLock else ret AtExit
  | AtLock =>
      (* lines 238-245 *)
      let! s := get (fun s => s) in
      if sync_offset s =? current_offset s then ret AtExit else ret AtRead
  | AtRead =>
      (* lines 246-254 *)
      let! e := ReadEntry in
      match e with
      | None => ret Idle
      | Some entry => ret (InRequest entry)
      end
  | InRequest entry =>
      (* SendRequest has returned true: lines 261-272, into PorcessCallbck *)
      let! sync := get sync_offset in
      modify (emit (EvSend {| req_offset := to_uint32 sync; req_log_data := entry |})) ;;
      if negb (resp_success response) then
        (if negb (resp_offset response =? -1) then
           modify (set_sync_offset (resp_offset response)) ;;
           let! offset := lseek_set (resp_offset response) in
           assert (offset =? resp_offset response)
         else ret tt) ;;
        ret AtLoop
      else
        let len := to_int (str_length entry + 4) in
        let! found := PorcessCallbck_find sync len in
        match found with
        | Some c =>
            modify (emit (EvDone sync c true)) ;;
            ret (InCallback entry sync len)
        | None => ret (AtAdvance entry)
        end
  | InCallback entry offset len =>
      PorcessCallbck_called offset len false ;;
      ret (AtAdvance entry)
  | AtAdvance entry =>
      (* lines 273-281 *)
      modify (fun s => set_sync_offset (to_int (sync_offset s + (4 + str_length entry))) s) ;;
      let! s := get (fun s => s) in
      (if master_only s && (sync_offset s =? current_offset s) then
         modify (set_master_only false)
       else ret tt) ;;
      ret AtLoop
  | AtExit =>
      (* lines 283-284 *)
      modify (fun s => set_applied_offset (current_offset s) s) ;;
      modify (emit EvSignalLogDone) ;;
      ret Idle
  end.

(** The worker's steps from [w] to the next test of the loop condition or
    to the return of ReplicateLog, no other thread taking a step in
    between. *)
Fixpoint worker_round (fuel : nat) (response : AppendLogResponse) (w : worker)
  : M worker :=
  match fuel with
  | O => ret w
  | S fuel' =>
      let! w' := worker_step response w in
      match w' with
      | AtLoop | Idle => ret w'
      | _ => worker_round fuel' response w'
      end
  end.

(** Where a caller of the blocking Log stands once it has released the
    mutex (line 101). *)
Inductive caller :=
| AtFastTest (last_offset timeout_ms : Z)   (* at the test of line 103 *)
| AtNoWait                                  (* at line 105 *)
| AtWhile (stop_point : Z)                  (* at the loop condition (line 111) *)
| AtWaitLock (stop_point : Z)               (* at MutexLock (line 112) *)
| InTimeWait (stop_point : Z)               (* in log_done_.TimeWait (line 114) *)
| AtTimeout.                                (* behind the loop (line 130) *)

(** The next step of a caller; [clock] is what get_micros() returns in
    this step, [signalled] what TimeWait returns.  [None]: Log has
    returned true. *)
Definition caller_step (clock : Z) (signalled : bool) (c : caller) : M (option caller) :=
  match c with
  | AtFastTest last_offset timeout_ms =>
      (* lines 103, 109-110 *)
      let! s := get (fun s => s) in
      if master_only s && (sync_offset s <? last_offset) then ret (Some AtNoWait)
      else ret (Some (AtWhile (to_int64 (clock + to_int (timeout_ms * 1000)))))
  | AtNoWait =>
      (* lines 105-106 *)
      modify (fun s => set_applied_offset (current_offset s) s) ;;
      ret None
  | AtWhile stop_point =>
      (* line 111 *)
      let! s := get (fun s => s) in
      if negb (sync_offset s =? current_offset s) && (clock <? stop_point)
      then ret (Some (AtWaitLock stop_point))
      else ret (Some AtTimeout)
  | AtWaitLock stop_point =>
      (* lines 112-114, into TimeWait, which releases the mutex *)
      modify (emit (EvTimeWait (to_int (Z.quot (stop_point - clock) 1000)))) ;;
      ret (Some (InTimeWait stop_point))
  | InTimeWait stop_point =>
      (* lines 114-126, TimeWait having taken the mutex again *)
      if signalled then
        let! s := get (fun s => s) in
        if negb (sync_offset s =? current_offset s) then ret (Some (AtWhile stop_point))
        else
          (if master_only s then modify (set_master_only false) else ret tt) ;;
          ret None
      else ret (Some AtTimeout)
  | AtTimeout =>
      (* lines 129-131 *)
      modify (set_master_only true) ;;
      ret None
  end.

(** The leader and its threads: the object, the worker, the pool threads
    that are calling the callback inside PorcessCallbck(offset, len,
    true), and the callers inside the blocking Log. *)
Record threads := {
  shared : state;
  worker_at : worker;
  in_pool : list task;
  in_log : list caller
}.

(** A leader whose worker has been started and nothing else runs. *)
Definition start (s : state) : threads :=
  {| shared := s; worker_at := Idle; in_pool := []; in_log := [] |}.

(** A step of one thread. *)
Inductive move :=
| CallLog (entry : bytes) (timeout_ms : Z)
    (* a thread calls the blocking Log and runs to mu_.Unlock() (lines 96-101) *)
| StepLog (i : nat) (clock : Z) (signalled : bool)
    (* the i-th caller inside the blocking Log takes its next step *)
| CallLogAsync (entry : bytes) (c : callback)
    (* a thread runs the asynchronous Log, which holds the mutex throughout *)
| StepWorker (response : AppendLogResponse)
    (* the worker takes its next step *)
| StartJob (i : nat)
    (* a pool thread takes the i-th waiting job and runs PorcessCallbck up
       to the call of the callback, or to its end when none waits *)
| ResumeJob (j : nat).
    (* the j-th pool thread comes back from the callback and ends
       PorcessCallbck *)

Definition remove_nth {A} (i : nat) (l : list A) : list A :=
  firstn i l ++ skipn (S i) l.

(** Run [m] on the object and go on with [k]. *)
Definition on_shared {A} (m : M A) (t : threads) (k : A -> state -> threads)
  : result threads :=
  match m (shared t) with
  | Ret (a, s) => Ret (k a s)
  | Abort => Abort
  | Pending => Pending
  end.

(** A move that names a thread or a job that is not there changes
    nothing. *)
Definition step (m : move) (t : threads) : result threads :=
  match m with
  | CallLog entry timeout_ms =>
      on_shared (Log_append entry) t (fun last_offset s =>
        {| shared := s; worker_at := worker_at t; in_pool := in_pool t;
           in_log := in_log t ++ [AtFastTest last_offset timeout_ms] |})
  | StepLog i clock signalled =>
      match nth_error (in_log t) i with
      | Some c =>
          on_shared (caller_step clock signalled c) t (fun next s =>
            {| shared := s; worker_at := worker_at t; in_pool := in_pool t;
               in_log := match next with
                         | Some c' => firstn i (in_log t) ++ c' :: skipn (S i) (in_log t)
                         | None => remove_nth i (in_log t)
                         end |})
      | None => Ret t
      end
  | CallLogAsync entry c =>
      on_shared (Log_async entry c) t (fun _ s =>
        {| shared := s; worker_at := worker_at t; in_pool := in_pool t;
           in_log := in_log t |})
  | StepWorker response =>
      on_shared (worker_step response (worker_at t)) t (fun w s =>
        {| shared := s; worker_at := w; in_pool := in_pool t; in_log := in_log t |})
  | StartJob i =>
      match nth_error (delayed (shared t)) i with
      | Some job =>
          on_shared
            (modify (fun s => set_delayed (remove_nth i (delayed s)) s) ;;
             let! found := PorcessCallbck_find (task_offset job) (task_len job) in
             match found with
             | Some c => modify (emit (EvDone (task_offset job) c true)) ;; ret true
             | None => ret false
             end) t
            (fun calling s =>
               {| shared := s; worker_at := worker_at t;
                  in_pool := if calling then in_pool t ++ [job] else in_pool t;
                  in_log := in_log t |})
      | None => Ret t
      end
  | ResumeJob j =>
      match nth_error (in_pool t) j with
      | Some job =>
          on_shared (PorcessCallbck_called (task_offset job) (task_len job) true) t
            (fun _ s =>
               {| shared := s; worker_at := worker_at t;
                  in_pool := remove_nth j (in_pool t); in_log := in_log t |})
      | None => Ret t
      end
  end.

(** The worker is given accepting replies only. *)
Definition accepting (t : threads) (m : move) : bool :=
  match m with
  | StepWorker response => resp_success response
  | _ => true
  end.

(** The worker is given no resync offset from outside its log: a reply
    accepts, or refuses with -1, or refuses with an offset between 0 and
    [current_offset_].  (The standby's AppendLog refuses with its own
    [current_offset_], which lies below the offset of the request.) *)
Definition resync_in_log (t : threads) (m : move) : bool :=
  match m with
  | StepWorker response =>
      resp_success response
      || (resp_offset response =? -1)
      || ((0 <=? resp_offset response)
          && (resp_offset response <=? current_offset (shared t)))
  | _ => true
  end.

(** The states the threads reach by steps that are [allowed]. *)
Inductive reaches (allowed : threads -> move -> bool) : threads -> threads -> Prop :=
| reaches_refl t : reaches allowed t t
| reaches_step t t' t'' m :
    reaches allowed t t' ->
    allowed t' m = true ->
    step m t' = Ret t'' ->
    reaches allowed t t''.

(** A job, or a call of PorcessCallbck, for an entry that lies in the log
    below [current_offset_]. *)
Definition job_in_log (s : state) (t : task) : Prop :=
  0 <= task_offset t /\ 0 <= task_len t /\
  task_offset t + task_len t <= current_offset s.

(** How the offsets and the read position relate to the log, whatever the
    flag says. *)
Record offsets_in_log (s : state) : Prop := {
  in_current : current_offset s = str_length (sync_log s);
  in_applied : 0 <= applied_offset s <= current_offset s;
  in_sync : 0 <= sync_offset s <= read_log s;
  in_read : read_log s <= str_length (sync_log s);
  in_jobs : Forall (job_in_log s) (delayed s)
}.

(** The entry the worker has read and not yet accounted for lies between
    [sync_offset_] and the read position. *)
Definition worker_in_log (s : state) (w : worker) : Prop :=
  match w with
  | InRequest entry | AtAdvance entry =>
      sync_offset s + (4 + str_length entry) <= read_log s
  | InCallback entry offset len =>
      sync_offset s + (4 + str_length entry) <= read_log s /\
      job_in_log s {| task_offset := offset; task_len := len |}
  | _ => True
  end.

Record threads_ok (t : threads) : Prop := {
  ok_shared : offsets_in_log (shared t);
  ok_pool : Forall (job_in_log (shared t)) (in_pool t);
  ok_worker : worker_in_log (shared t) (worker_at t)
}.

Definition kept_threads (t : threads) : Prop := bounded (shared t) -> threads_ok t.


(** The state a list of moves leads to; [None] when a move is not
    [allowed] or the process aborts. *)
Fixpoint play (allowed : threads -> move -> bool) (ms : list move) (t : threads)
  : option threads :=
  match ms with
  | [] => Some t
  | m :: rest =>
      if allowed t m then
        match step m t with
        | Ret t' => play allowed rest t'
        | _ => None
        end
      else None
  end.

Module Steps.

Definition played (ms : list move) (s : state) : threads :=
  match play accepting ms (start s) with
  | Some t => t
  | None => start Sample.blank
  end.

(** A leader on an empty disk whose standby does not answer.  A blocking
    Log of "hello" with 100 ms: the worker reads the entry and sends it;
    the caller finds the deadline passed at its first look at the clock
    in the loop condition and sets the flag.  A blocking Log of "abc"
    then finds the flag set and the standby behind, and does not wait. *)
Definition unanswered : list move :=
  [CallLog Sample.hello 100;
   StepWorker Sample.accepted; StepWorker Sample.accepted;
   StepWorker Sample.accepted; StepWorker Sample.accepted;
   StepLog 0 0 false; StepLog 0 200000 false; StepLog 0 200000 false;
   CallLog Sample.abc 100;
   StepLog 0 300000 false; StepLog 0 300000 false].

Definition degraded : threads :=
  Eval vm_compute in played unanswered Sample.leader_empty.

(** A leader on the log holding "abc".  "hello" is logged asynchronously
    and the worker ships it: seven steps from its wait to the loop
    condition, an eighth finds the condition false.  Before the worker
    goes on to line 283, "abc" is logged asynchronously.  Then the worker
    sets [applied_offset_] and returns. *)
Definition late_entry : list move :=
  [CallLogAsync Sample.hello 1%nat;
   StepWorker Sample.accepted; StepWorker Sample.accepted;
   StepWorker Sample.accepted; StepWorker Sample.accepted;
   StepWorker Sample.accepted; StepWorker Sample.accepted;
   StepWorker Sample.accepted; StepWorker Sample.accepted;
   CallLogAsync Sample.abc 2%nat;
   StepWorker Sample.accepted].

Definition raced : threads :=
  Eval vm_compute in played late_entry Sample.leader_abc.

End Steps.

(** ** Small facts about the machine integers *)

Lemma to_int_id z : in_int z -> to_int z = z.
Proof.
  unfold in_int, INT_MIN, INT_MAX, to_int. intros H.
  rewrite Z.mod_small; lia.
Qed.

Lemma to_uint32_id z : 0 <= z < 2 ^ 32 -> to_uint32 z = z.
Proof. intros H. unfold to_uint32. now rewrite Z.mod_small. Qed.

Lemma to_int_range z : in_int (to_int z).
Proof.
  unfold in_int, INT_MIN, INT_MAX, to_int.
  pose proof (Z.mod_pos_bound (z + 2 ^ 31) (2 ^ 32) ltac:(lia)). lia.
Qed.

Lemma str_length_nonneg b : 0 <= str_length b.
Proof. unfold str_length. lia. Qed.

Lemma str_length_app a b : str_length (a ++ b) = str_length a + str_length b.
Proof. unfold str_length. rewrite length_app. lia. Qed.

Lemma str_length_encode v : str_length (encode_int v) = 4.
Proof. unfold str_length, encode_int. now rewrite length_le_split. Qed.

Lemma decode_encode v : in_int v -> decode_int (encode_int v) = v.
Proof.
  intros H. unfold decode_int, encode_int. rewrite le_combine_split.
  change (Z.of_nat 4 * 8) with 32.
  unfold to_int. rewrite Zplus_mod_idemp_l. now apply to_int_id.
Qed.

Lemma Ret_inj {A} (a b : A) : Ret a = Ret b -> a = b.
Proof. intros H. congruence. Qed.

Lemma Ret_pair_inj {A} (a b : A) (s s' : state) :
  Ret (a, s) = Ret (b, s') -> a = b /\ s = s'.
Proof. intros H. apply Ret_inj in H. now apply pair_equal_spec in H. Qed.

(** ** Unfolding the monad *)

Ltac run :=
  cbv beta iota delta
    [bind ret get modify assert abort LOG_FATAL write read lseek_set] in *;
  cbn [fst snd] in *.

Ltac field_simpl_state :=
  cbn [master_only is_leader master_addr slave_addr sync_log read_log
       current_offset applied_offset sync_offset callbacks delayed trace
       set_master_only set_is_leader set_addrs set_sync_log set_read_log
       set_current_offset set_applied_offset set_sync_offset set_callbacks
       set_delayed emit] in *.

(** ** The redo loop and Init *)

(** ReadEntry touches the read position only. *)
Lemma ReadEntry_frame s e s' :
  ReadEntry s = Ret (e, s') ->
  exists p, s' = set_read_log p s.
Proof.
  unfold ReadEntry. run. field_simpl_state.
  destruct (str_length _ =? 4); [| discriminate].
  destruct (decode_int _ <? 0); [discriminate |].
  field_simpl_state.
  destruct (str_length _ =? decode_int _); intros H; inversion H; subst;
    eexists; unfold set_read_log; field_simpl_state; reflexivity.
Qed.

Lemma redo_frame fuel : forall s s',
  redo fuel s = Ret (tt, s') ->
  sync_offset s' = sync_offset s /\ current_offset s' = current_offset s /\
  is_leader s' = is_leader s /\ master_only s' = master_only s /\
  sync_log s' = sync_log s /\ callbacks s' = callbacks s /\
  delayed s' = delayed s /\
  sync_offset s <= applied_offset s'.
Proof.
  induction fuel as [| fuel IH]; intros s s'; cbn [redo]; run.
  - destruct (applied_offset s <? sync_offset s) eqn:E; [discriminate |].
    intros H; inversion H; subst. repeat split; try reflexivity. lia.
  - destruct (applied_offset s <? sync_offset s) eqn:E.
    + destruct (ReadEntry s) as [[[entry |] s1] | |] eqn:R; try discriminate.
      apply ReadEntry_frame in R as [p ->]. field_simpl_state.
      intros H. apply IH in H. field_simpl_state. exact H.
    + intros H; inversion H; subst. repeat split; try reflexivity. lia.
Qed.

(** After Init the three offsets agree, and [sync_log] is the file. *)
Lemma Init_post d s s' :
  Init d s = Ret (tt, s') ->
  applied_offset s' = current_offset s' /\
  sync_offset s' = current_offset s' /\
  current_offset s' = to_int (str_length (sync_log s')) /\
  sync_log s' = match disk_sync_log d with Content b => b | _ => [] end /\
  is_leader s' = is_leader s /\ master_only s' = master_only s /\
  callbacks s' = callbacks s /\ delayed s' = delayed s.
Proof.
  unfold Init.
  assert (forall s1 : state,
    sync_offset s1 = current_offset s1 ->
    current_offset s1 = to_int (str_length (sync_log s1)) ->
    (let! size := get (fun s => length (sync_log s)) in
     redo (S size) ;;
     let! s := get (fun s => s) in
     assert (applied_offset s =? sync_offset s) ;;
     modify (emit (EvGetStub (slave_addr s))) ;;
     if is_leader s then modify (emit EvStartWorker) else ret tt) s1 = Ret (tt, s') ->
    applied_offset s' = current_offset s' /\
    sync_offset s' = current_offset s' /\
    current_offset s' = to_int (str_length (sync_log s')) /\
    sync_log s' = sync_log s1 /\
    is_leader s' = is_leader s1 /\ master_only s' = master_only s1 /\
    callbacks s' = callbacks s1 /\ delayed s' = delayed s1) as tail.
  { intros s1 Hs Hc. run.
    destruct (redo _ s1) as [[[] s2] | |] eqn:R; try discriminate.
    apply redo_frame in R as (R1 & R2 & R3 & R4 & R5 & R6 & R7 & R8).
    destruct (applied_offset s2 =? sync_offset s2) eqn:E; [| discriminate].
    apply Z.eqb_eq in E.
    destruct (is_leader s2) eqn:L; intros H; inversion H; subst; field_simpl_state;
      repeat split; congruence. }
  destruct (disk_sync_log d) as [| | b]; [| intros H; discriminate H |].
  all: destruct (disk_applied_log d) as [| | c]; run; field_simpl_state;
    try (intros H; discriminate H).
  all: try (destruct (str_length (firstn 4 c) =? 4); run; field_simpl_state;
            [ destruct (decode_int (firstn 4 c) <=? _); run; field_simpl_state;
              [ destruct (decode_int (firstn 4 c) <? 0); field_simpl_state |
                intros H; discriminate H ] | ]).
  all: intros H; apply tail in H; field_simpl_state; try reflexivity;
    destruct H as (H1 & H2 & H3 & H4 & H5 & H6 & H7 & H8); repeat split; assumption.
Qed.

(** ** C1: the standby's AppendLog *)

Lemma AppendLog_applied request response s response' s' :
  applied_offset s = current_offset s ->
  AppendLog request response s = Ret (response', s') ->
  applied_offset s' = current_offset s'.
Proof.
  unfold AppendLog. run.
  destruct (req_offset request >? _); [intros E H; inversion H; subst; exact E |].
  destruct (req_offset request <? _); intros E H; inversion H; subst;
    [exact E | reflexivity].
Qed.

Lemma standby_applied s : standby s -> applied_offset s = current_offset s.
Proof.
  induction 1 as [f d s B L | s request response response' s' S IH A].
  - unfold boot in B. destruct (MasterSlaveImpl f) as [s0 | |]; try discriminate.
    destruct (Init d s0) as [[[] s1] | |] eqn:I; try discriminate.
    inversion B; subst. now apply Init_post in I.
  - eapply AppendLog_applied; eassumption.
Qed.

Lemma standby_in_int s : standby s -> in_int (current_offset s).
Proof.
  induction 1 as [f d s B L | s request response response' s' S IH A].
  - unfold boot in B. destruct (MasterSlaveImpl f) as [s0 | |]; try discriminate.
    destruct (Init d s0) as [[[] s1] | |] eqn:I; try discriminate.
    inversion B; subst. apply Init_post in I as (_ & _ & -> & _). apply to_int_range.
  - revert A. unfold AppendLog. run.
    destruct (req_offset request >? _); [intros H; inversion H; subst; exact IH |].
    destruct (req_offset request <? _); intros H; inversion H; subst;
      [exact IH | field_simpl_state; apply to_int_range].
Qed.

(** C1. The standby's AppendLog, on a node started as standby whose log is
    below the 2^31 bytes an [int] offset can address: a request beyond
    [current_offset_] is refused with [current_offset_] as the response
    offset, a request below it is refused with offset -1, and neither
    changes the state; a request at [current_offset_] appends the length
    prefix and the payload to the log, hands the payload to the apply
    callback, moves [current_offset_] and [applied_offset_] forward by
    4 + len(payload), and answers success. *)
Theorem AppendLog_standby s request response :
  standby s ->
  0 <= current_offset s ->
  0 <= req_offset request < 2 ^ 32 ->
  let payload := req_log_data request in
  (current_offset s < req_offset request ->
     AppendLog request response s
     = Ret ({| resp_success := false; resp_offset := current_offset s |}, s)) /\
  (req_offset request < current_offset s ->
     AppendLog request response s
     = Ret ({| resp_success := false; resp_offset := -1 |}, s)) /\
  (req_offset request = current_offset s ->
   current_offset s + (4 + str_length payload) <= INT_MAX ->
     exists s',
       AppendLog request response s
       = Ret ({| resp_success := true; resp_offset := resp_offset response |}, s') /\
       sync_log s' = sync_log s ++ encode_int (str_length payload) ++ payload /\
       trace s' = trace s ++ [EvApply payload] /\
       current_offset s' = current_offset s + (4 + str_length payload) /\
       applied_offset s' = applied_offset s + (4 + str_length payload) /\
       sync_offset s' = sync_offset s /\ read_log s' = read_log s /\
       master_only s' = master_only s /\ is_leader s' = is_leader s /\
       callbacks s' = callbacks s /\ delayed s' = delayed s).
Proof.
  intros S Hcur Hreq payload.
  pose proof (standby_applied s S) as Happ.
  pose proof (standby_in_int s S) as Hint.
  assert (to_uint32 (current_offset s) = current_offset s) as U.
  { apply to_uint32_id. unfold in_int, INT_MAX in Hint. lia. }
  unfold AppendLog. run. rewrite U.
  split; [| split].
  - intros H. apply Z.gtb_lt in H. now rewrite H.
  - intros H.
    destruct (req_offset request >? current_offset s) eqn:G;
      [apply Z.gtb_lt in G; lia |].
    apply Z.ltb_lt in H. now rewrite H.
  - intros H Hmax.
    destruct (req_offset request >? current_offset s) eqn:G;
      [apply Z.gtb_lt in G; lia |].
    destruct (req_offset request <? current_offset s) eqn:L;
      [apply Z.ltb_lt in L; lia |].
    pose proof (str_length_nonneg payload) as Hlen.
    assert (to_int (str_length payload) = str_length payload) as T1
      by (apply to_int_id; unfold in_int, INT_MIN, INT_MAX in *; lia).
    fold payload. rewrite T1.
    eexists. split; [reflexivity |]. field_simpl_state.
    assert (Z.to_nat (str_length payload) = length payload) as N
      by (unfold str_length; lia).
    rewrite N, firstn_all.
    rewrite (to_int_id (str_length payload + 4))
      by (unfold in_int, INT_MIN, INT_MAX in *; lia).
    rewrite (to_int_id (current_offset s + _))
      by (unfold in_int, INT_MIN, INT_MAX in *; lia).
    rewrite Happ, <- app_assoc.
    repeat split; try reflexivity; lia.
Qed.

(** ** C9: promotion *)

(** C9. SwitchToLeader makes the node leader, sets [sync_offset_] to 0,
    puts the read position at the start of the log, exchanges
    [master_addr_] and [slave_addr_], fetches the stub of the new peer and
    starts the worker running BackgroundLog; [current_offset_] and
    [applied_offset_] (and the log, the degraded flag, the pending
    callbacks) stay as they were. *)
Theorem SwitchToLeader_promotes s :
  exists s',
    SwitchToLeader s = Ret (tt, s') /\
    is_leader s' = true /\
    sync_offset s' = 0 /\
    read_log s' = 0 /\
    master_addr s' = slave_addr s /\
    slave_addr s' = master_addr s /\
    trace s' = trace s ++ [EvGetStub (master_addr s); EvStartWorker] /\
    current_offset s' = current_offset s /\
    applied_offset s' = applied_offset s /\
    sync_log s' = sync_log s /\
    master_only s' = master_only s /\
    callbacks s' = callbacks s /\
    delayed s' = delayed s.
Proof.
  eexists. split; [reflexivity |]. field_simpl_state.
  rewrite <- app_assoc. repeat split; reflexivity.
Qed.

(** ** C10: a checkpoint beyond the end of the log *)

(** C10. When applied.log holds at least four bytes and the offset stored
    in them is greater than the end-of-log offset Init computes for
    sync.log, Init aborts (assert(applied_offset_ <= sync_offset_)): the
    stored offset is neither clamped nor ignored. *)
Theorem Init_checkpoint_beyond_log d s b :
  disk_applied_log d = Content b ->
  (4 <= length b)%nat ->
  to_int (str_length (match disk_sync_log d with Content l => l | _ => [] end))
    < decode_int (firstn 4 b) ->
  Init d s = Abort.
Proof.
  intros Hb Hlen Hgt. unfold Init. rewrite Hb.
  assert ((str_length (firstn 4 b) =? 4) = true) as L.
  { apply Z.eqb_eq. unfold str_length. rewrite length_firstn. lia. }
  destruct (disk_sync_log d) as [| | l]; [| reflexivity |];
    run; field_simpl_state; rewrite L; run; field_simpl_state;
    (destruct (decode_int (firstn 4 b) <=? _) eqn:E;
      [apply Z.leb_le in E; lia | reflexivity]).
Qed.

(** ** The turns given to ReplicateLog *)

Lemma SendRequest_retry_shorter net r rest :
  SendRequest_retry net = Some (r, rest) -> (length rest < length net)%nat.
Proof.
  induction net as [| e net IH]; cbn [SendRequest_retry length]; [discriminate |].
  destruct e as [| r'].
  - intros H. apply IH in H. lia.
  - intros H. inversion H; subst. lia.
Qed.

(** Every round that goes on uses up an answer of the network, so the
    turns [ReplicateLog] hands to its loop never run out: more of them
    change nothing. *)
Lemma ReplicateLog_loop_fuel fuel : forall net s,
  (length net < fuel)%nat ->
  ReplicateLog_loop (S fuel) net s = ReplicateLog_loop fuel net s.
Proof.
  induction fuel as [| fuel IH]; intros net s Hlen; [lia |].
  cbn [ReplicateLog_loop]. unfold bind.
  destruct (ReplicateLog_head s) as [[[p | entry] s1] | |]; try reflexivity.
  destruct (SendRequest_retry net) as [[r rest] |] eqn:Q; [| reflexivity].
  apply SendRequest_retry_shorter in Q.
  destruct (ReplicateLog_reply entry r s1) as [[[] s2] | |]; try reflexivity.
  apply (IH rest s2). lia.
Qed.

(** ** C8: the rewind of the replicator *)

(** What this program's AppendLog puts into a refusal: -1, or the
    standby's own [current_offset_]. *)
Lemma AppendLog_refusal_offset request response s response' s' :
  AppendLog request response s = Ret (response', s') ->
  resp_success response' = false ->
  s' = s /\
  (resp_offset response' = -1 \/ resp_offset response' = current_offset s).
Proof.
  unfold AppendLog. run.
  destruct (req_offset request >? _).
  - intros H. apply Ret_pair_inj in H as [<- <-]. auto.
  - destruct (req_offset request <? _).
    + intros H. apply Ret_pair_inj in H as [<- <-]. auto.
    + intros H. apply Ret_pair_inj in H as [<- _]. discriminate.
Qed.

(** C8. A round of ReplicateLog that has read [entry] and is answered
    success=false with an offset other than -1 (a file offset, so not
    negative) sets [sync_offset_] to the response offset, puts the read
    position there, and goes back to the loop condition: ReplicateLog
    carries on from the changed state with the rest of the network's
    answers.  Nothing else moves. *)
Theorem ReplicateLog_rewind s entry s1 response :
  sync_offset s < current_offset s ->
  ReadEntry s = Ret (Some entry, s1) ->
  resp_success response = false ->
  resp_offset response <> -1 ->
  0 <= resp_offset response ->
  exists s',
    ReplicateLog_iter response s = Ret (Continue, s') /\
    sync_offset s' = resp_offset response /\
    read_log s' = resp_offset response /\
    current_offset s' = current_offset s /\
    applied_offset s' = applied_offset s /\
    master_only s' = master_only s /\
    callbacks s' = callbacks s /\
    sync_log s' = sync_log s /\
    (forall net, ReplicateLog (Reply response :: net) s = ReplicateLog net s').
Proof.
  intros Hlt Hread Hfail Hne Hpos.
  destruct (ReadEntry_frame _ _ _ Hread) as [p ->].
  assert (ReplicateLog_head s = Ret (inr entry, set_read_log p s)) as Hhead.
  { unfold ReplicateLog_head. run.
    replace (sync_offset s <? current_offset s) with true
      by (symmetry; apply Z.ltb_lt; lia).
    replace (sync_offset s =? current_offset s) with false
      by (symmetry; apply Z.eqb_neq; lia).
    cbn [andb negb]. now rewrite Hread. }
  assert (ReplicateLog_reply entry response (set_read_log p s)
          = Ret (tt, set_read_log (resp_offset response)
                       (set_sync_offset (resp_offset response)
                          (emit (EvSend {| req_offset := to_uint32 (sync_offset s);
                                           req_log_data := entry |})
                             (set_read_log p s))))) as Hreply.
  { unfold ReplicateLog_reply. run. field_simpl_state. rewrite Hfail. cbn [negb].
    replace (resp_offset response =? -1) with false
      by (symmetry; apply Z.eqb_neq; lia).
    cbn [negb]. run. field_simpl_state.
    replace (resp_offset response <? 0) with false
      by (symmetry; apply Z.ltb_ge; lia).
    now rewrite Z.eqb_refl. }
  eexists. split; [| split; [| split; [| split; [| split; [| split; [| split; [| split]]]]]]].
  - unfold ReplicateLog_iter. run. rewrite Hhead, Hreply. reflexivity.
  - reflexivity.
  - reflexivity.
  - reflexivity.
  - reflexivity.
  - reflexivity.
  - reflexivity.
  - reflexivity.
  - intros net. unfold ReplicateLog. cbn [length ReplicateLog_loop SendRequest_retry].
    run. rewrite Hhead, Hreply. reflexivity.
Qed.

(** ** C7: the blocking Log in degraded mode *)

(** C7. When the blocking Log, having appended its entry, finds the
    degraded flag set and [sync_offset_] below the offset at which the
    entry starts, it returns true at once: [applied_offset_] becomes
    [current_offset_], nothing else changes, and no TimeWait takes place
    (the outcome does not depend on the clock or on the rounds of the
    schedule).  With no other thread running in between, flag and
    [sync_offset_] are those of the moment of the call. *)
Theorem Log_master_only_no_wait s entry timeout_ms sch last_offset s0 s1 :
  Log_append entry s = Ret (last_offset, s0) ->
  run_actions (before_check sch) s0 = Ret (tt, s1) ->
  master_only s1 = true ->
  sync_offset s1 < last_offset ->
  last_offset = current_offset s /\
  Log entry timeout_ms sch s
  = Ret (true, set_applied_offset (current_offset s1) s1) /\
  trace (set_applied_offset (current_offset s1) s1) = trace s1.
Proof.
  intros Happ Hact Hflag Hlt. split; [| split].
  - revert Happ. unfold Log_append, LogLocal. run.
    destruct (is_leader s); [| discriminate]. cbn [negb]. field_simpl_state.
    destruct (0 <=? _); [| discriminate]. intros H. now inversion H.
  - unfold Log, bind. rewrite Happ, Hact. unfold get.
    rewrite Hflag. apply Z.ltb_lt in Hlt. rewrite Hlt. reflexivity.
  - reflexivity.
Qed.

(** ** Which calls can abort, which can be left waiting *)

Ltac split_match :=
  repeat (match goal with
          | |- context [if ?x then _ else _] => destruct x eqn:?
          | |- context [match ?x with _ => _ end] => destruct x eqn:?
          end; cbn beta iota).

Lemma PorcessCallbck_returns offset len timeout_check s :
  exists s', PorcessCallbck offset len timeout_check s = Ret (tt, s').
Proof.
  unfold PorcessCallbck. run.
  destruct (callbacks s !! offset); field_simpl_state; split_match; eauto.
Qed.

Lemma LogLocal_not_pending entry s : LogLocal entry s <> Pending.
Proof. unfold LogLocal. run. split_match; discriminate. Qed.

Lemma ReadEntry_not_pending s : ReadEntry s <> Pending.
Proof. unfold ReadEntry. run. split_match; discriminate. Qed.

Lemma Log_async_not_pending entry c s : Log_async entry c s <> Pending.
Proof.
  unfold Log_async. unfold bind at 1.
  pose proof (LogLocal_not_pending entry s).
  destruct (LogLocal entry s) as [[len s1] | |]; try easy.
  run. split_match; discriminate.
Qed.

Lemma ReplicateLog_head_not_pending s : ReplicateLog_head s <> Pending.
Proof.
  unfold ReplicateLog_head. run.
  destruct (_ && _); [| discriminate].
  pose proof (ReadEntry_not_pending s).
  destruct (ReadEntry s) as [[[e |] s1] | |]; easy.
Qed.

Lemma ReplicateLog_reply_not_pending entry response s :
  ReplicateLog_reply entry response s <> Pending.
Proof.
  unfold ReplicateLog_reply. run. field_simpl_state.
  destruct (negb (resp_success response)).
  - split_match; discriminate.
  - destruct (PorcessCallbck_returns (sync_offset s)
                (to_int (str_length entry + 4)) false
                (emit (EvSend {| req_offset := to_uint32 (sync_offset s);
                                 req_log_data := entry |}) s)) as [s1 ->].
    split_match; discriminate.
Qed.

Lemma ReplicateLog_iter_not_pending response s :
  ReplicateLog_iter response s <> Pending.
Proof.
  unfold ReplicateLog_iter. unfold bind at 1.
  pose proof (ReplicateLog_head_not_pending s).
  destruct (ReplicateLog_head s) as [[[p | entry] s1] | |]; try easy.
  unfold bind.
  pose proof (ReplicateLog_reply_not_pending entry response s1).
  destruct (ReplicateLog_reply entry response s1) as [[[] s2] | |]; easy.
Qed.

Lemma run_action_not_pending a s : run_action a s <> Pending.
Proof.
  destruct a as [entry c | response | i]; cbn [run_action].
  - apply Log_async_not_pending.
  - unfold bind. pose proof (ReplicateLog_iter_not_pending response s).
    destruct (ReplicateLog_iter response s) as [[p s1] | |]; easy.
  - run. destruct (nth_error (delayed s) i) as [t |]; [| discriminate].
    destruct (PorcessCallbck_returns (task_offset t) (task_len t) true
                (set_delayed (firstn i (delayed s) ++ skipn (S i) (delayed s)) s))
      as [s1 ->].
    discriminate.
Qed.

Lemma run_actions_not_pending l : forall s, run_actions l s <> Pending.
Proof.
  induction l as [| a l IH]; intros s; cbn [run_actions]; [discriminate |].
  unfold bind. pose proof (run_action_not_pending a s).
  destruct (run_action a s) as [[[] s1] | |]; [apply IH | easy | easy].
Qed.

Lemma Log_append_not_pending entry s : Log_append entry s <> Pending.
Proof.
  unfold Log_append. unfold bind at 1.
  pose proof (LogLocal_not_pending entry s).
  destruct (LogLocal entry s) as [[len s1] | |]; easy.
Qed.

(** ** C4: what the blocking Log returns *)

Lemma Log_wait_true stop rs : forall s b s',
  Log_wait stop rs s = Ret (b, s') ->
  b = true /\ (master_only s' = true \/ sync_offset s' = current_offset s').
Proof.
  induction rs as [| r rest IH]; intros s b s'; cbn [Log_wait]; run.
  - destruct (sync_offset s =? current_offset s); [| discriminate].
    intros H; inversion H; subst. split; [reflexivity | now left].
  - destruct (sync_offset s =? current_offset s).
    { intros H; inversion H; subst. split; [reflexivity | now left]. }
    destruct (at_check r <? stop).
    2:{ intros H; inversion H; subst. split; [reflexivity | now left]. }
    destruct (run_actions (meanwhile r) _) as [[[] s1] | |]; try discriminate.
    destruct (signalled r).
    2:{ intros H; inversion H; subst. split; [reflexivity | now left]. }
    destruct (sync_offset s1 =? current_offset s1) eqn:E; cbn [negb].
    + apply Z.eqb_eq in E.
      destruct (master_only s1); intros H; inversion H; subst;
        (split; [reflexivity | now right]).
    + apply IH.
Qed.

Lemma Log_wait_returns stop rs : forall s,
  Log_wait stop rs s <> Abort ->
  Exists (gives_up stop) rs ->
  exists s', Log_wait stop rs s = Ret (true, s').
Proof.
  induction rs as [| r rest IH]; intros s Hab Hex; [inversion Hex |].
  revert Hab. cbn [Log_wait]. run.
  destruct (sync_offset s =? current_offset s); [eauto |].
  destruct (at_check r <? stop) eqn:C; [| eauto].
  pose proof (run_actions_not_pending (meanwhile r)
                (emit (EvTimeWait (to_int ((stop - at_wait r) ÷ 1000))) s)) as NP.
  destruct (run_actions (meanwhile r) _) as [[[] s1] | |]; try easy.
  destruct (signalled r) eqn:Sg; [| eauto].
  destruct (sync_offset s1 =? current_offset s1); cbn [negb].
  - destruct (master_only s1); eauto.
  - intros Hab. apply IH; [exact Hab |].
    inversion Hex as [? ? [G | G] | ? ? G]; subst.
    + apply Z.ltb_lt in C. lia.
    + congruence.
    + exact G.
Qed.

Lemma Log_unfold entry timeout_ms sch s :
  Log entry timeout_ms sch s =
  match Log_append entry s with
  | Ret (last_offset, s0) =>
      match run_actions (before_check sch) s0 with
      | Ret (_, s1) =>
          if master_only s1 && (sync_offset s1 <? last_offset)
          then Ret (true, set_applied_offset (current_offset s1) s1)
          else Log_wait (stop_point timeout_ms sch) (rounds sch) s1
      | Abort => Abort
      | Pending => Pending
      end
  | Abort => Abort
  | Pending => Pending
  end.
Proof.
  unfold Log, bind.
  destruct (Log_append entry s) as [[last s0] | |]; try reflexivity.
  destruct (run_actions (before_check sch) s0) as [[[] s1] | |]; try reflexivity.
  unfold get. destruct (master_only s1 && _); reflexivity.
Qed.

(** C4. The blocking Log never hands false to its caller: whenever it
    returns, it returns true, and then either the degraded flag is set
    (fast path and timeout path) or [sync_offset_] has reached
    [current_offset_] (acknowledged in time).  And it does return: unless
    the process aborts (Log called on a standby, an entry too long for an
    [int], or a failed assertion in another thread), a schedule in which
    the deadline passes or a TimeWait times out makes the call return
    true, whatever the entry and the timeout. *)
Theorem Log_returns_true entry timeout_ms sch s :
  (forall b s', Log entry timeout_ms sch s = Ret (b, s') ->
     b = true /\ (master_only s' = true \/ sync_offset s' = current_offset s')) /\
  (Log entry timeout_ms sch s <> Abort ->
   Exists (gives_up (stop_point timeout_ms sch)) (rounds sch) ->
   exists s', Log entry timeout_ms sch s = Ret (true, s')).
Proof.
  rewrite Log_unfold.
  pose proof (Log_append_not_pending entry s) as NP.
  destruct (Log_append entry s) as [[last s0] | |]; try easy.
  pose proof (run_actions_not_pending (before_check sch) s0) as NP'.
  destruct (run_actions (before_check sch) s0) as [[[] s1] | |]; try easy.
  destruct (master_only s1 && (sync_offset s1 <? last)) eqn:F.
  - split.
    + intros b s' H; inversion H; subst. field_simpl_state.
      apply andb_prop in F as [F _]. split; [reflexivity | now left].
    + eauto.
  - split.
    + intros b s'. apply Log_wait_true.
    + apply Log_wait_returns.
Qed.

(** ** C5: a record cut short *)

Lemma ReadEntry_partial s :
  partial_record s ->
  exists p, ReadEntry s = Ret (None, set_read_log p s).
Proof.
  intros (Hpos & n & rest & Hskip & Hn & Hshort).
  unfold ReadEntry. run. field_simpl_state.
  rewrite Hskip.
  assert (firstn (Z.to_nat 4) (encode_int n ++ rest) = encode_int n) as F.
  { change (Z.to_nat 4) with (length (encode_int n) + 0)%nat.
    rewrite firstn_app_2. cbn [firstn]. apply app_nil_r. }
  rewrite F, str_length_encode. cbn [Z.eqb Pos.eqb].
  rewrite decode_encode by (unfold in_int, INT_MIN; lia).
  replace (n <? 0) with false by (symmetry; apply Z.ltb_ge; lia).
  field_simpl_state.
  assert (skipn (Z.to_nat (read_log s + 4)) (sync_log s) = rest) as K.
  { replace (Z.to_nat (read_log s + 4)) with (4 + Z.to_nat (read_log s))%nat by lia.
    rewrite <- skipn_skipn, Hskip.
    change 4%nat with (length (encode_int n)). rewrite skipn_app.
    rewrite skipn_all, Nat.sub_diag. reflexivity. }
  rewrite K.
  rewrite firstn_all2 by (unfold str_length in Hshort; lia).
  replace (str_length rest =? n) with false by (symmetry; apply Z.eqb_neq; lia).
  eexists. unfold set_read_log. field_simpl_state. reflexivity.
Qed.

(** C5, as the code has it.  In ReplicateLog a record cut short ends the
    pass: the function returns with only the read position moved
    ([sync_offset_], [applied_offset_], the flag and the callbacks as they
    were, no request sent) and the process lives on.  In the redo loop of
    Init the same read fails assert(0): the process aborts, and Init
    aborts when the record its replay starts at is cut short. *)
Theorem partial_record_replicator_and_init :
  (forall s, partial_record s -> sync_offset s < current_offset s ->
     exists p,
       (forall net, ReplicateLog net s = Ret (net, set_read_log p s)) /\
       (forall r, ReplicateLog_iter r s = Ret (Incomplete, set_read_log p s))) /\
  (forall s fuel, partial_record s -> applied_offset s < sync_offset s ->
     redo (S fuel) s = Abort) /\
  (forall d s prefix n rest,
     disk_sync_log d = Content (prefix ++ encode_int n ++ rest) ->
     disk_applied_log d = Content (encode_int (str_length prefix)) ->
     0 <= n <= INT_MAX ->
     str_length rest < n ->
     str_length (prefix ++ encode_int n ++ rest) <= INT_MAX ->
     Init d s = Abort).
Proof.
  split; [| split].
  - intros s P Hlt. destruct (ReadEntry_partial s P) as [p R].
    exists p.
    assert (ReplicateLog_head s = Ret (inl Incomplete, set_read_log p s)) as H.
    { unfold ReplicateLog_head. run.
      replace (sync_offset s <? current_offset s) with true
        by (symmetry; apply Z.ltb_lt; lia).
      replace (sync_offset s =? current_offset s) with false
        by (symmetry; apply Z.eqb_neq; lia).
      cbn [andb negb]. now rewrite R. }
    split.
    + intros net. unfold ReplicateLog. cbn [ReplicateLog_loop]. unfold bind.
      now rewrite H.
    + intros r. unfold ReplicateLog_iter, bind. now rewrite H.
  - intros s fuel P Hlt. destruct (ReadEntry_partial s P) as [p R].
    cbn [redo]. run.
    replace (applied_offset s <? sync_offset s) with true
      by (symmetry; apply Z.ltb_lt; lia).
    now rewrite R.
  - intros d s prefix n rest Hlog Hck Hn Hshort Hmax.
    pose proof (str_length_nonneg prefix) as Hp.
    pose proof (str_length_nonneg rest) as Hr.
    rewrite !str_length_app, str_length_encode in Hmax.
    unfold Init. rewrite Hlog, Hck.
    assert (firstn 4 (encode_int (str_length prefix)) = encode_int (str_length prefix)) as F
      by (apply firstn_all2; unfold encode_int; rewrite length_le_split; lia).
    rewrite F. run. field_simpl_state.
    rewrite str_length_encode. cbn [Z.eqb Pos.eqb]. run. field_simpl_state.
    rewrite decode_encode by (unfold in_int, INT_MIN, INT_MAX in *; lia).
    rewrite !str_length_app, str_length_encode.
    rewrite to_int_id by (unfold in_int, INT_MIN, INT_MAX in *; lia).
    replace (str_length prefix <=? _) with true by (symmetry; apply Z.leb_le; lia).
    replace (str_length prefix <? 0) with false by (symmetry; apply Z.ltb_ge; lia).
    field_simpl_state.
    match goal with
    | |- match redo ?f ?st with _ => _ end = _ =>
        assert (redo f st = Abort) as ->; [| reflexivity]
    end.
    cbn [redo]. run. field_simpl_state.
    replace (str_length prefix <? _) with true by (symmetry; apply Z.ltb_lt; lia).
    match goal with
    | |- match ReadEntry ?st with _ => _ end = _ =>
        destruct (ReadEntry_partial st) as [p ->]; [| reflexivity]
    end.
    split; field_simpl_state; [lia |].
    exists n, rest. split; [| split; assumption].
    unfold str_length. rewrite Nat2Z.id.
    rewrite skipn_app, skipn_all, Nat.sub_diag. reflexivity.
Qed.

(** ** What the pieces do to the state *)

Lemma set_master_only_same s : master_only s = true -> set_master_only true s = s.
Proof. destruct s. cbn. intros ->. reflexivity. Qed.

(** PorcessCallbck in closed form.  A waiting callback is taken out of the
    table, called, and [applied_offset_] raised to the end of its entry;
    the flag is set when this was the timeout check.  The closing test
    ("leaves master-only mode") assigns true to a flag that is true: it
    changes nothing. *)
Lemma PorcessCallbck_eq offset len timeout_check s :
  PorcessCallbck offset len timeout_check s =
  Ret (tt,
       match callbacks s !! offset with
       | Some c =>
           let s1 := emit (EvDone offset c true)
                       (set_callbacks (delete offset (callbacks s)) s) in
           let s2 := if to_int (offset + len) >? applied_offset s
                     then set_applied_offset (to_int (offset + len)) s1 else s1 in
           if timeout_check && negb (master_only s) then set_master_only true s2 else s2
       | None => s
       end).
Proof.
  unfold PorcessCallbck. run.
  destruct (callbacks s !! offset) as [c |]; field_simpl_state.
  - destruct (to_int (offset + len) >? applied_offset s); field_simpl_state;
      destruct timeout_check, (master_only s) eqn:F; cbn [andb negb]; run;
      field_simpl_state; try rewrite F; cbn [andb]; try reflexivity;
      destruct (to_int (offset + len) =? current_offset s); try reflexivity;
      rewrite set_master_only_same by exact F; reflexivity.
  - destruct (master_only s) eqn:F; cbn [andb]; [| reflexivity].
    destruct (to_int (offset + len) =? current_offset s); [| reflexivity].
    now rewrite set_master_only_same.
Qed.

Lemma Log_append_eq entry s :
  Log_append entry s =
  if negb (is_leader s) then Abort
  else if 0 <=? to_int (str_length entry) then
    Ret (current_offset s,
         emit EvSignalCond
           (set_current_offset
              (to_int (current_offset s + to_int (to_int (str_length entry) + 4)))
              (set_sync_log
                 (sync_log s ++ encode_int (to_int (str_length entry)) ++ entry) s)))
  else Abort.
Proof.
  unfold Log_append, LogLocal. run.
  destruct (negb (is_leader s)); [reflexivity |]. field_simpl_state.
  destruct (0 <=? _); [| reflexivity]. field_simpl_state.
  now rewrite <- app_assoc.
Qed.

Lemma Log_async_eq entry c s :
  Log_async entry c s =
  if negb (is_leader s) then Abort
  else if 0 <=? to_int (str_length entry) then
    let s1 := set_sync_log
                (sync_log s ++ encode_int (to_int (str_length entry)) ++ entry) s in
    let s2 :=
      if master_only s && (sync_offset s <? current_offset s) then
        set_applied_offset (current_offset s)
          (emit (EvDone (current_offset s) c true) s1)
      else
        emit EvSignalCond
          (set_delayed
             (delayed s ++ [{| task_offset := current_offset s;
                               task_len := to_int (str_length entry + 4) |}])
             (set_callbacks (map_insert (current_offset s) c (callbacks s)) s1)) in
    Ret (tt, set_current_offset
               (to_int (current_offset s + to_int (to_int (str_length entry) + 4))) s2)
  else Abort.
Proof.
  unfold Log_async, LogLocal. run.
  destruct (negb (is_leader s)); [reflexivity |]. field_simpl_state.
  destruct (0 <=? _); [| reflexivity]. field_simpl_state.
  rewrite <- app_assoc.
  destruct (master_only s && _); reflexivity.
Qed.

(** A successful ReadEntry: the entry lies in the file, behind its length. *)
Lemma ReadEntry_some s entry s' :
  0 <= read_log s ->
  ReadEntry s = Ret (Some entry, s') ->
  s' = set_read_log (read_log s + 4 + str_length entry) s /\
  read_log s + 4 + str_length entry <= str_length (sync_log s).
Proof.
  intros Hpos. unfold ReadEntry. run. field_simpl_state.
  set (rest := skipn (Z.to_nat (read_log s)) (sync_log s)).
  destruct (str_length (firstn (Z.to_nat 4) rest) =? 4) eqn:E4; [| discriminate].
  apply Z.eqb_eq in E4. rewrite E4.
  destruct (decode_int _ <? 0) eqn:En; [discriminate |].
  field_simpl_state.
  set (n := decode_int (firstn (Z.to_nat 4) rest)) in *.
  set (rest' := skipn (Z.to_nat (read_log s + 4)) (sync_log s)).
  destruct (str_length (firstn (Z.to_nat n) rest') =? n) eqn:El; [| discriminate].
  intros H. inversion H; subst entry s'. clear H.
  split; [reflexivity |].
  pose proof (length_firstn (Z.to_nat n) rest') as L.
  pose proof (length_firstn (Z.to_nat 4) rest) as L'.
  assert (length rest' = (length (sync_log s) - Z.to_nat (read_log s + 4))%nat) as K
    by (subst rest'; apply length_skipn).
  assert (length rest = (length (sync_log s) - Z.to_nat (read_log s))%nat) as K'
    by (subst rest; apply length_skipn).
  unfold str_length in *. lia.
Qed.

(** An unsuccessful one moves the read position forward, inside the file. *)
Lemma ReadEntry_none s s' :
  0 <= read_log s <= str_length (sync_log s) ->
  ReadEntry s = Ret (None, s') ->
  exists p, s' = set_read_log p s /\ read_log s <= p <= str_length (sync_log s).
Proof.
  intros Hpos. unfold ReadEntry. run. field_simpl_state.
  set (rest := skipn (Z.to_nat (read_log s)) (sync_log s)).
  destruct (str_length (firstn (Z.to_nat 4) rest) =? 4) eqn:E4; [| discriminate].
  apply Z.eqb_eq in E4. rewrite E4.
  destruct (decode_int _ <? 0) eqn:En; [discriminate |].
  field_simpl_state.
  set (n := decode_int (firstn (Z.to_nat 4) rest)) in *.
  set (rest' := skipn (Z.to_nat (read_log s + 4)) (sync_log s)).
  destruct (str_length (firstn (Z.to_nat n) rest') =? n) eqn:El; [discriminate |].
  intros H. inversion H; subst s'. clear H.
  eexists. split; [unfold set_read_log; field_simpl_state; reflexivity |].
  pose proof (str_length_nonneg (firstn (Z.to_nat n) rest')) as N.
  pose proof (length_firstn (Z.to_nat n) rest') as L.
  assert (length rest' = (length (sync_log s) - Z.to_nat (read_log s + 4))%nat) as K
    by (subst rest'; apply length_skipn).
  assert (length rest = (length (sync_log s) - Z.to_nat (read_log s))%nat) as K'
    by (subst rest; apply length_skipn).
  pose proof (length_firstn (Z.to_nat 4) rest) as L'.
  unfold str_length in *. lia.
Qed.

Lemma after_PorcessCallbck_eq offset len timeout_check s :
  after_PorcessCallbck offset len timeout_check s =
  match callbacks s !! offset with
  | Some c =>
      let s1 := emit (EvDone offset c true)
                  (set_callbacks (delete offset (callbacks s)) s) in
      let s2 := if to_int (offset + len) >? applied_offset s
                then set_applied_offset (to_int (offset + len)) s1 else s1 in
      if timeout_check && negb (master_only s) then set_master_only true s2 else s2
  | None => s
  end.
Proof. unfold after_PorcessCallbck. now rewrite PorcessCallbck_eq. Qed.

Lemma PorcessCallbck_after offset len timeout_check s :
  PorcessCallbck offset len timeout_check s
  = Ret (tt, after_PorcessCallbck offset len timeout_check s).
Proof. rewrite PorcessCallbck_eq, after_PorcessCallbck_eq. reflexivity. Qed.

(** The ways a round of ReplicateLog can end. *)
Lemma ReplicateLog_iter_cases r s p s' :
  0 <= read_log s <= str_length (sync_log s) ->
  ReplicateLog_iter r s = Ret (p, s') ->
  (current_offset s <= sync_offset s /\ p = Finished /\
   s' = emit EvSignalLogDone (set_applied_offset (current_offset s) s)) \/
  (sync_offset s < current_offset s /\ p = Incomplete /\
   exists q, s' = set_read_log q s /\ read_log s <= q <= str_length (sync_log s)) \/
  (sync_offset s < current_offset s /\ p = Continue /\
   exists entry,
     read_log s + 4 + str_length entry <= str_length (sync_log s) /\
     let s1 := emit (EvSend {| req_offset := to_uint32 (sync_offset s);
                               req_log_data := entry |})
                 (set_read_log (read_log s + 4 + str_length entry) s) in
     ((resp_success r = false /\ resp_offset r = -1 /\ s' = s1) \/
      (resp_success r = false /\ resp_offset r <> -1 /\ 0 <= resp_offset r /\
       s' = set_read_log (resp_offset r) (set_sync_offset (resp_offset r) s1)) \/
      (resp_success r = true /\
       let s2 := after_PorcessCallbck (sync_offset s)
                   (to_int (str_length entry + 4)) false s1 in
       let s3 := set_sync_offset (to_int (sync_offset s2 + (4 + str_length entry))) s2 in
       s' = if master_only s3 && (sync_offset s3 =? current_offset s3)
            then set_master_only false s3 else s3))).
Proof.
  intros Hpos. unfold ReplicateLog_iter, ReplicateLog_head. run.
  destruct (sync_offset s <? current_offset s) eqn:Lt; cbn [andb].
  2:{ intros H; inversion H; subst. left. apply Z.ltb_ge in Lt. auto. }
  apply Z.ltb_lt in Lt.
  replace (sync_offset s =? current_offset s) with false
    by (symmetry; apply Z.eqb_neq; lia).
  cbn [negb].
  destruct (ReadEntry s) as [[[entry |] s1] | |] eqn:R; try discriminate.
  2:{ intros H; inversion H; subst. right; left.
      apply ReadEntry_none in R as (q & -> & Hq); [| exact Hpos]. eauto. }
  apply ReadEntry_some in R as [-> Hlen]; [| lia].
  unfold ReplicateLog_reply. run. field_simpl_state.
  destruct (resp_success r) eqn:Sc; cbn [negb].
  - rewrite PorcessCallbck_after. field_simpl_state.
    intros H. right; right.
    split; [exact Lt |].
    match type of H with
    | context [if ?c then _ else _] => destruct c eqn:C
    end; inversion H; subst; (split; [reflexivity |]);
      exists entry; (split; [exact Hlen |]); right; right; (split; [reflexivity |]);
      cbv zeta; field_simpl_state; rewrite C; reflexivity.
  - destruct (resp_offset r =? -1) eqn:M; cbn [negb]; run; field_simpl_state.
    + intros H; inversion H; subst. right; right.
      split; [exact Lt | split; [reflexivity |]].
      exists entry. split; [exact Hlen |]. left. apply Z.eqb_eq in M. auto.
    + destruct (resp_offset r <? 0) eqn:Neg.
      * apply Z.eqb_neq in M.
        replace (-1 =? resp_offset r) with false
          by (symmetry; apply Z.eqb_neq; lia).
        discriminate.
      * rewrite Z.eqb_refl. intros H; inversion H; subst. right; right.
        split; [exact Lt | split; [reflexivity |]].
        exists entry. split; [exact Hlen |]. right; left.
        apply Z.eqb_neq in M. apply Z.ltb_ge in Neg. auto.
Qed.

(** ** Properties kept by every run *)

Section Preservation.
Variable allowed : action -> bool.
Variable P : state -> Prop.

Hypothesis P_append : forall entry s last s',
  P s -> Log_append entry s = Ret (last, s') -> P s'.
Hypothesis P_action : forall a s s',
  allowed a = true -> P s -> run_action a s = Ret (tt, s') -> P s'.
Hypothesis P_fast : forall s,
  P s -> master_only s = true -> P (set_applied_offset (current_offset s) s).
Hypothesis P_wait : forall s w, P s -> P (emit (EvTimeWait w) s).
Hypothesis P_done : forall s,
  P s -> sync_offset s = current_offset s -> P (set_master_only false s).
Hypothesis P_timeout : forall s, P s -> P (set_master_only true s).

Lemma run_actions_preserves l : forall s s',
  forallb allowed l = true -> P s -> run_actions l s = Ret (tt, s') -> P s'.
Proof.
  induction l as [| a l IH]; intros s s' Hall Hs; cbn [run_actions]; run.
  - intros H; inversion H; subst. exact Hs.
  - cbn [forallb] in Hall. apply andb_prop in Hall as [Ha Hl].
    destruct (run_action a s) as [[[] s1] | |] eqn:R; try discriminate.
    apply IH; [exact Hl |]. eapply P_action; eassumption.
Qed.

Lemma Log_wait_preserves stop rs : forall s b s',
  forallb allowed (flat_map meanwhile rs) = true ->
  P s -> Log_wait stop rs s = Ret (b, s') -> P s'.
Proof.
  induction rs as [| r rest IH]; intros s b s' Hall Hs; cbn [Log_wait]; run.
  - destruct (sync_offset s =? current_offset s); [| discriminate].
    intros H; inversion H; subst. now apply P_timeout.
  - cbn [flat_map] in Hall. rewrite forallb_app in Hall.
    apply andb_prop in Hall as [Hr Hrest].
    destruct (sync_offset s =? current_offset s).
    { intros H; inversion H; subst. now apply P_timeout. }
    destruct (at_check r <? stop).
    2:{ intros H; inversion H; subst. now apply P_timeout. }
    destruct (run_actions (meanwhile r) _) as [[[] s1] | |] eqn:R; try discriminate.
    apply run_actions_preserves in R; [| exact Hr | now apply P_wait].
    destruct (signalled r).
    2:{ intros H; inversion H; subst. now apply P_timeout. }
    destruct (sync_offset s1 =? current_offset s1) eqn:E; cbn [negb].
    + apply Z.eqb_eq in E.
      destruct (master_only s1); intros H; inversion H; subst;
        [now apply P_done | exact R].
    + now apply IH.
Qed.

Lemma Log_preserves entry timeout_ms sch s b s' :
  forallb allowed (actions_of (OpLog entry timeout_ms sch)) = true ->
  P s -> Log entry timeout_ms sch s = Ret (b, s') -> P s'.
Proof.
  cbn [actions_of]. rewrite forallb_app. intros Hall Hs.
  apply andb_prop in Hall as [Hb Hr].
  rewrite Log_unfold.
  destruct (Log_append entry s) as [[last s0] | |] eqn:A; try discriminate.
  apply P_append in A; [| exact Hs].
  destruct (run_actions (before_check sch) s0) as [[[] s1] | |] eqn:R;
    try discriminate.
  apply run_actions_preserves in R; [| exact Hb | exact A].
  destruct (master_only s1 && _) eqn:F.
  - apply andb_prop in F as [F _]. intros H; inversion H; subst.
    now apply P_fast.
  - now apply Log_wait_preserves.
Qed.

Lemma run_preserves s s' : P s -> run allowed s s' -> P s'.
Proof.
  intros Hs R. induction R as [s | s s1 s2 o R IH Hall Hop]; [exact Hs |].
  specialize (IH Hs). destruct o as [entry timeout_ms sch | a]; cbn [run_op] in Hop.
  - revert Hop. unfold bind.
    destruct (Log entry timeout_ms sch s1) as [[b s3] | |] eqn:L; try discriminate.
    unfold ret. intros H; inversion H; subst.
    eapply Log_preserves; eassumption.
  - cbn [actions_of forallb] in Hall. rewrite andb_true_r in Hall.
    eapply P_action; eassumption.
Qed.
End Preservation.

(** ** Frames *)

Lemma after_PorcessCallbck_frame offset len timeout_check s :
  let s' := after_PorcessCallbck offset len timeout_check s in
  sync_log s' = sync_log s /\ read_log s' = read_log s /\
  current_offset s' = current_offset s /\ sync_offset s' = sync_offset s /\
  delayed s' = delayed s /\ is_leader s' = is_leader s /\
  (applied_offset s' = applied_offset s \/
   applied_offset s' = to_int (offset + len) /\ applied_offset s < applied_offset s') /\
  (master_only s' = master_only s \/ timeout_check = true /\ master_only s' = true) /\
  (master_only s' = false ->
   master_only s = false /\
   (timeout_check = true -> applied_offset s' = applied_offset s)).
Proof.
  cbv zeta. rewrite after_PorcessCallbck_eq.
  destruct (callbacks s !! offset) as [c |]; [| tauto].
  cbv zeta.
  destruct (to_int (offset + len) >? applied_offset s) eqn:G;
    destruct timeout_check, (master_only s) eqn:F; cbn [andb negb]; field_simpl_state;
    repeat split; try reflexivity; try tauto; try discriminate;
    try (apply Z.gtb_lt in G; right; split; [reflexivity | lia]);
    try congruence.
Qed.

Lemma bounded_app s extra :
  str_length (sync_log s ++ extra) <= INT_MAX -> bounded s.
Proof.
  unfold bounded. rewrite str_length_app.
  pose proof (str_length_nonneg extra). lia.
Qed.

Lemma Forall_remove_nth {A} (Q : A -> Prop) (l : list A) i :
  Forall Q l -> Forall Q (firstn i l ++ skipn (S i) l).
Proof.
  intros H. apply Forall_app. split.
  - now apply Forall_take.
  - now apply Forall_drop.
Qed.

(** The redo loop keeps the read position at or beyond [applied_offset_]. *)
Lemma redo_read fuel : forall s s',
  redo fuel s = Ret (tt, s') ->
  bounded s ->
  in_int (applied_offset s) ->
  0 <= read_log s <= str_length (sync_log s) ->
  applied_offset s <= read_log s ->
  applied_offset s' <= read_log s' <= str_length (sync_log s').
Proof.
  induction fuel as [| fuel IH]; intros s s'; cbn [redo]; run.
  - destruct (applied_offset s <? sync_offset s); [discriminate |].
    intros H; apply Ret_pair_inj in H as [_ <-]. lia.
  - destruct (applied_offset s <? sync_offset s).
    2:{ intros H; apply Ret_pair_inj in H as [_ <-]. lia. }
    destruct (ReadEntry s) as [[[entry |] s1] | |] eqn:R; try discriminate.
    intros H B I Hr Ha.
    apply ReadEntry_some in R as [-> Hlen]; [| lia].
    pose proof (str_length_nonneg entry) as Ne.
    unfold bounded, in_int, INT_MIN, INT_MAX in *.
    apply IH in H; field_simpl_state; try exact H.
    + exact B.
    + apply to_int_range.
    + lia.
    + rewrite to_int_id by (unfold in_int, INT_MIN, INT_MAX; lia). lia.
Qed.

Lemma Init_read d s s' :
  Init d s = Ret (tt, s') ->
  applied_offset s = 0 ->
  bounded s' ->
  applied_offset s' <= read_log s' <= str_length (sync_log s').
Proof.
  intros H A0 B.
  pose proof (Init_post _ _ _ H) as (_ & _ & _ & Hlog & _).
  unfold bounded in B. rewrite Hlog in B. fold (bounded s') in *.
  unfold Init in H.
  assert (forall s1 : state,
    (let! size := get (fun s => length (sync_log s)) in
     redo (S size) ;;
     let! s := get (fun s => s) in
     assert (applied_offset s =? sync_offset s) ;;
     modify (emit (EvGetStub (slave_addr s))) ;;
     if is_leader s then modify (emit EvStartWorker) else ret tt) s1 = Ret (tt, s') ->
    in_int (applied_offset s1) ->
    0 <= read_log s1 <= str_length (sync_log s1) ->
    applied_offset s1 <= read_log s1 ->
    applied_offset s' <= read_log s' <= str_length (sync_log s')) as tail.
  { intros s1. run.
    destruct (redo _ s1) as [[[] s2] | |] eqn:R; try discriminate.
    destruct (applied_offset s2 =? sync_offset s2); [| discriminate].
    intros K I Hr Ha.
    pose proof (redo_frame _ _ _ R) as (_ & _ & _ & _ & L & _).
    assert (sync_log s' = sync_log s2) as L'
      by (destruct (is_leader s2); apply Ret_pair_inj in K as [_ <-]; reflexivity).
    apply redo_read in R; try assumption.
    - destruct (is_leader s2); apply Ret_pair_inj in K as [_ <-];
        field_simpl_state; exact R.
    - unfold bounded. rewrite <- L, <- L', Hlog. exact B. }
  revert H.
  destruct (disk_sync_log d) as [| | b]; [| intros H; discriminate H |].
  all: destruct (disk_applied_log d) as [| | c]; run; field_simpl_state;
    try (intros H; discriminate H).
  all: try (destruct (str_length (firstn 4 c) =? 4); run; field_simpl_state;
            [ destruct (decode_int (firstn 4 c) <=? _) eqn:Le; run; field_simpl_state;
              [ destruct (decode_int (firstn 4 c) <? 0) eqn:Neg; field_simpl_state |
                intros H; discriminate H ] | ]).
  all: intros H; apply tail in H; field_simpl_state; try exact H;
    rewrite ?A0; try (unfold in_int, INT_MIN, INT_MAX; lia);
    try apply to_int_range; try (unfold str_length; cbn [length]; lia).
  all: apply Z.ltb_ge in Neg; apply Z.leb_le in Le.
  - change (to_int (str_length [])) with 0 in Le. change (str_length []) with 0. lia.
  - rewrite to_int_id in Le
      by (pose proof (str_length_nonneg b); unfold in_int, INT_MIN, INT_MAX in *; lia).
    lia.
Qed.

(** The redo loop is given enough turns: every turn that does not abort
    moves the read position forward by at least four bytes. *)
Lemma redo_not_pending fuel : forall s,
  0 <= read_log s <= str_length (sync_log s) ->
  str_length (sync_log s) - read_log s < Z.of_nat fuel ->
  redo fuel s <> Pending.
Proof.
  induction fuel as [| fuel IH]; intros s Hr Hf; [lia |].
  cbn [redo]. run.
  destruct (applied_offset s <? sync_offset s); [| discriminate].
  pose proof (ReadEntry_not_pending s) as NP.
  destruct (ReadEntry s) as [[[entry |] s1] | |] eqn:R; try easy.
  apply ReadEntry_some in R as [-> Hlen]; [| lia].
  pose proof (str_length_nonneg entry) as Ne.
  apply IH; field_simpl_state; lia.
Qed.

Lemma to_int_le z : 0 <= z -> to_int z <= z.
Proof.
  intros H. unfold to_int.
  pose proof (Z.mod_le (z + 2 ^ 31) (2 ^ 32) ltac:(lia) ltac:(lia)). lia.
Qed.

(** Init returns or aborts; it is never left waiting. *)
Lemma Init_not_pending d s : Init d s <> Pending.
Proof.
  unfold Init.
  assert (forall s1 : state,
    0 <= read_log s1 <= str_length (sync_log s1) ->
    (let! size := get (fun s => length (sync_log s)) in
     redo (S size) ;;
     let! s := get (fun s => s) in
     assert (applied_offset s =? sync_offset s) ;;
     modify (emit (EvGetStub (slave_addr s))) ;;
     if is_leader s then modify (emit EvStartWorker) else ret tt) s1 <> Pending) as tail.
  { intros s1 Hr. run.
    pose proof (redo_not_pending (S (length (sync_log s1))) s1 Hr) as NP.
    destruct (redo _ s1) as [[[] s2] | |]; [| easy |].
    - destruct (applied_offset s2 =? sync_offset s2); [| easy].
      destruct (is_leader s2); easy.
    - exfalso. apply NP; [| reflexivity]. unfold str_length. lia. }
  destruct (disk_sync_log d) as [| | b]; [| easy |].
  all: destruct (disk_applied_log d) as [| | c]; run; field_simpl_state; try easy.
  all: try (destruct (str_length (firstn 4 c) =? 4); run; field_simpl_state;
            [ destruct (decode_int (firstn 4 c) <=? _) eqn:Le; run; field_simpl_state;
              [ destruct (decode_int (firstn 4 c) <? 0) eqn:Neg; field_simpl_state |
                easy ] | ]).
  all: apply tail; field_simpl_state;
    try (pose proof (str_length_nonneg b)); try (unfold str_length; cbn [length]; lia);
    try lia.
  all: apply Z.ltb_ge in Neg; apply Z.leb_le in Le.
  - change (to_int (str_length [])) with 0 in Le. change (str_length []) with 0. lia.
  - pose proof (to_int_le (str_length b) ltac:(assumption)). lia.
Qed.

Lemma MasterSlaveImpl_fresh f s :
  MasterSlaveImpl f = Ret s ->
  applied_offset s = 0 /\ delayed s = [] /\ callbacks s = ∅ /\ trace s = [] /\
  master_only s = false.
Proof.
  unfold MasterSlaveImpl.
  destruct (String.eqb (nameserver f) (nameserver_node0 f));
    [| destruct (String.eqb (nameserver f) (nameserver_node1 f)); [| discriminate]];
    intros H; apply Ret_inj in H; subst s; cbn; auto.
Qed.

Lemma boot_Init f d s :
  boot f d = Ret s ->
  exists s0, MasterSlaveImpl f = Ret s0 /\ Init d s0 = Ret (tt, s).
Proof.
  unfold boot. destruct (MasterSlaveImpl f) as [s0 | |]; try discriminate.
  destruct (Init d s0) as [[[] s1] | |] eqn:I; try discriminate.
  intros H; apply Ret_inj in H; subst. eauto.
Qed.

Lemma boot_in_log f d s : boot f d = Ret s -> bounded s -> offsets_in_log s.
Proof.
  intros H B. apply boot_Init in H as (s0 & M & I).
  apply MasterSlaveImpl_fresh in M as (A0 & D0 & _ & _ & F0).
  pose proof (Init_read _ _ _ I A0 B) as Hr.
  apply Init_post in I as (Ha & Hs & Hc & _ & _ & Hf & _ & Hd).
  pose proof (str_length_nonneg (sync_log s)) as N.
  unfold bounded in B.
  rewrite to_int_id in Hc by (unfold in_int, INT_MIN, INT_MAX in *; lia).
  constructor; try lia.
  rewrite Hd, D0. constructor.
Qed.

(** ** C2: leaving degraded mode *)

(** PorcessCallbck never turns the flag off: its "leaves master-only
    mode" branch assigns true. *)
Lemma PorcessCallbck_never_clears offset len timeout_check s :
  master_only s = true ->
  master_only (after_PorcessCallbck offset len timeout_check s) = true.
Proof.
  intros F.
  pose proof (after_PorcessCallbck_frame offset len timeout_check s) as H.
  cbv zeta in H. destruct H as (_ & _ & _ & _ & _ & _ & _ & [H | [_ H]] & _);
    congruence.
Qed.

(** C2 fails on the code.  A leader starts on an empty log.  A blocking
    Log of "hello" is overtaken: before it first looks at the offsets,
    another caller logs "abc" asynchronously and the worker ships both
    entries, so [sync_offset_] = [current_offset_] = 16.  The blocking Log
    finds its loop condition false, takes that for a timeout and sets the
    flag.  Ten seconds later the delayed check PorcessCallbck(9, 7, true)
    of "abc" runs with the flag set and 9 + 7 = [current_offset_]: it
    reaches "leaves master-only mode" and assigns true.  The flag stays
    set although the standby has everything. *)
Theorem flag_left_set_when_caught_up :
  exists s0 s1 s2,
    boot (Sample.flags_of "master") Sample.empty_disk = Ret s0 /\
    Log Sample.hello 100 Sample.overtaken s0 = Ret (true, s1) /\
    master_only s1 = true /\
    sync_offset s1 = 16 /\ current_offset s1 = 16 /\
    delayed s1 = [{| task_offset := 9; task_len := 7 |}] /\
    PorcessCallbck 9 7 true s1 = Ret (tt, s2) /\
    master_only s2 = true /\
    sync_offset s2 = current_offset s2.
Proof.
  do 3 eexists.
  split; [vm_compute; reflexivity |].
  split; [vm_compute; reflexivity |].
  split; [reflexivity |].
  split; [reflexivity |].
  split; [reflexivity |].
  split; [reflexivity |].
  split; [vm_compute; reflexivity |].
  split; reflexivity.
Qed.

(** ** C5 as the spec states it *)

(** A leader whose log ends in a record cut short ("abc" where five bytes
    were announced) does not finish Init: the redo loop reads the record,
    ReadEntry reports it as incomplete, and assert(0) aborts. *)
Lemma Init_aborts_on_partial_record :
  exists s0,
    MasterSlaveImpl (Sample.flags_of "master") = Ret s0 /\
    partial_record
      (set_sync_log (Sample.encode_torn) s0) /\
    Init Sample.disk_torn s0 = Abort /\
    boot (Sample.flags_of "master") Sample.disk_torn = Abort.
Proof.
  eexists.
  split; [vm_compute; reflexivity |].
  split; [| split; vm_compute; reflexivity].
  split; [vm_compute; congruence |].
  exists 5, Sample.abc.
  split; [vm_compute; reflexivity |].
  split; [unfold INT_MAX; lia | vm_compute; reflexivity].
Qed.

(** ** C6: completion callbacks *)

Lemma fired_app offset tr tr' :
  fired offset (tr ++ tr') = (fired offset tr + fired offset tr')%nat.
Proof.
  induction tr as [| e tr IH]; [reflexivity |].
  cbn [app fired]. destruct e; try exact IH.
  destruct (offset0 =? offset); [| exact IH]. rewrite IH. reflexivity.
Qed.

Lemma same_callbacks_refl s : same_callbacks s s.
Proof. repeat split. Qed.

Lemma same_callbacks_kept s s' :
  same_callbacks s s' -> kept_callbacks s -> kept_callbacks s'.
Proof.
  intros (L & C & M & F) K B.
  unfold bounded in B. rewrite L in B. destruct (K B) as [Kc Kp Kf Ko].
  constructor.
  - now rewrite C, L.
  - intros k c. rewrite M, C, F. apply Kp.
  - intros k. rewrite C, F. apply Kf.
  - intros k. rewrite F. apply Ko.
Qed.

(** PorcessCallbck calls a waiting callback, which had not been called
    before, and forgets it. *)
Lemma kept_callbacks_PorcessCallbck offset len timeout_check s :
  kept_callbacks s ->
  kept_callbacks (after_PorcessCallbck offset len timeout_check s).
Proof.
  intros K. rewrite after_PorcessCallbck_eq.
  destruct (callbacks s !! offset) as [c |] eqn:Look; [| exact K].
  cbv zeta.
  set (s1 := emit _ (set_callbacks _ s)).
  assert (kept_callbacks s1) as K1.
  { intros B. destruct (K B) as [Kc Kp Kf Ko].
    destruct (Kp _ _ Look) as [Hlt Hzero].
    constructor; subst s1; field_simpl_state.
    - exact Kc.
    - intros k c'. rewrite fired_app. cbn [fired].
      destruct (decide (k = offset)) as [-> | Ne].
      + rewrite lookup_delete_eq. discriminate.
      + rewrite lookup_delete_ne by congruence. intros Hk.
        destruct (Kp _ _ Hk) as [Hk1 Hk2].
        replace (offset =? k) with false by (symmetry; apply Z.eqb_neq; congruence).
        split; [exact Hk1 | lia].
    - intros k Hk. rewrite fired_app. cbn [fired].
      replace (offset =? k) with false by (symmetry; apply Z.eqb_neq; lia).
      rewrite (Kf k Hk). reflexivity.
    - intros k. rewrite fired_app. cbn [fired].
      destruct (offset =? k) eqn:E.
      + apply Z.eqb_eq in E. subst k. rewrite Hzero. cbn. lia.
      + pose proof (Ko k). lia. }
  assert (forall s2, same_callbacks s1 s2 -> kept_callbacks s2) as Same
    by (intros s2 H; eapply same_callbacks_kept; eassumption).
  destruct (to_int (offset + len) >? applied_offset s);
    destruct (timeout_check && negb (master_only s));
    apply Same; repeat split.
Qed.

Lemma kept_callbacks_append entry s last s' :
  kept_callbacks s -> Log_append entry s = Ret (last, s') -> kept_callbacks s'.
Proof.
  intros Hs. rewrite Log_append_eq.
  destruct (negb (is_leader s)); [discriminate |].
  destruct (0 <=? to_int (str_length entry)) eqn:W; [| discriminate].
  intros H. apply Ret_pair_inj in H as [<- <-].
  intros B. unfold bounded in B. field_simpl_state.
  pose proof (bounded_app s _ B) as Bs. destruct (Hs Bs) as [Kc Kp Kf Ko].
  rewrite !str_length_app, str_length_encode in B.
  pose proof (str_length_nonneg entry) as Ne.
  pose proof (str_length_nonneg (sync_log s)) as Nl.
  assert (to_int (str_length entry) = str_length entry) as T1
    by (apply to_int_id; unfold in_int, INT_MIN, INT_MAX in *; lia).
  constructor; field_simpl_state; rewrite ?T1;
    rewrite ?(to_int_id (str_length entry + 4))
      by (unfold in_int, INT_MIN, INT_MAX in *; lia);
    rewrite ?(to_int_id (current_offset s + _))
      by (unfold in_int, INT_MIN, INT_MAX in *; lia);
    rewrite ?str_length_app, ?str_length_encode; try lia.
  - intros k c Hk. rewrite fired_app. cbn [fired].
    destruct (Kp _ _ Hk). split; lia.
  - intros k Hk. rewrite fired_app. cbn [fired]. rewrite Kf by lia. reflexivity.
  - intros k. rewrite fired_app. cbn [fired]. pose proof (Ko k). lia.
Qed.

Lemma kept_callbacks_async entry c s s' :
  kept_callbacks s -> Log_async entry c s = Ret (tt, s') -> kept_callbacks s'.
Proof.
  intros Hs. rewrite Log_async_eq.
  destruct (negb (is_leader s)); [discriminate |].
  destruct (0 <=? to_int (str_length entry)) eqn:W; [| discriminate].
  cbv zeta. intros H. apply Ret_pair_inj in H as [_ <-].
  intros B. unfold bounded in B.
  assert (forall x y : state,
            sync_log x = sync_log y ->
            sync_log (set_current_offset
                        (to_int (current_offset s + to_int (to_int (str_length entry) + 4)))
                        (if master_only s && (sync_offset s <? current_offset s)
                         then x else y)) = sync_log y) as L
    by (intros x y E; destruct (master_only s && _); [exact E | reflexivity]).
  rewrite L in B by reflexivity. field_simpl_state.
  pose proof (bounded_app s _ B) as Bs. destruct (Hs Bs) as [Kc Kp Kf Ko].
  rewrite !str_length_app, str_length_encode in B.
  pose proof (str_length_nonneg entry) as Ne.
  pose proof (str_length_nonneg (sync_log s)) as Nl.
  assert (to_int (str_length entry) = str_length entry) as T1
    by (apply to_int_id; unfold in_int, INT_MIN, INT_MAX in *; lia).
  rewrite !T1 in *.
  rewrite !(to_int_id (str_length entry + 4)) in *
    by (unfold in_int, INT_MIN, INT_MAX in *; lia).
  rewrite !(to_int_id (current_offset s + _)) in *
    by (unfold in_int, INT_MIN, INT_MAX in *; lia).
  destruct (master_only s && (sync_offset s <? current_offset s)) eqn:F.
  - constructor; field_simpl_state;
      rewrite ?str_length_app, ?str_length_encode; try lia.
    + intros k c' Hk. rewrite fired_app. cbn [fired].
      destruct (Kp _ _ Hk) as [Hk1 Hk2].
      replace (current_offset s =? k) with false by (symmetry; apply Z.eqb_neq; lia).
      split; lia.
    + intros k Hk. rewrite fired_app. cbn [fired].
      replace (current_offset s =? k) with false by (symmetry; apply Z.eqb_neq; lia).
      rewrite Kf by lia. reflexivity.
    + intros k. rewrite fired_app. cbn [fired].
      destruct (current_offset s =? k) eqn:E.
      * apply Z.eqb_eq in E. subst k. rewrite Kf by lia. cbn. lia.
      * pose proof (Ko k). lia.
  - assert (callbacks s !! current_offset s = None) as Free.
    { destruct (callbacks s !! current_offset s) as [c' |] eqn:Look; [| reflexivity].
      destruct (Kp _ _ Look). lia. }
    constructor; field_simpl_state;
      rewrite ?str_length_app, ?str_length_encode; try lia.
    + intros k c'. unfold map_insert. rewrite Free.
      rewrite fired_app. cbn [fired].
      destruct (decide (k = current_offset s)) as [-> | Ne'].
      * intros _. rewrite Kf by lia. split; lia.
      * rewrite lookup_insert_ne by congruence. intros Hk.
        destruct (Kp _ _ Hk). split; lia.
    + intros k Hk. rewrite fired_app. cbn [fired]. rewrite Kf by lia. reflexivity.
    + intros k. rewrite fired_app. cbn [fired]. pose proof (Ko k). lia.
Qed.

Lemma kept_callbacks_replicate r s p s' :
  kept_callbacks s -> ReplicateLog_iter r s = Ret (p, s') -> kept_callbacks s'.
Proof.
  intros K.
  assert (forall s1 s2, same_callbacks s1 s2 -> kept_callbacks s1 -> kept_callbacks s2)
    as Same by (intros s1 s2 H; now apply same_callbacks_kept).
  unfold ReplicateLog_iter, ReplicateLog_head. run.
  destruct (_ && _).
  - destruct (ReadEntry s) as [[[entry |] s1] | |] eqn:R; try discriminate.
    + apply ReadEntry_frame in R as [q ->].
      assert (kept_callbacks
                (emit (EvSend {| req_offset := to_uint32 (sync_offset s);
                                 req_log_data := entry |}) (set_read_log q s))) as K1.
      { apply (Same s); [| exact K]. repeat split. field_simpl_state.
        intros k. rewrite fired_app. cbn [fired]. lia. }
      unfold ReplicateLog_reply. run. field_simpl_state.
      destruct (negb (resp_success r)).
      * destruct (negb (resp_offset r =? -1)); run; field_simpl_state.
        -- destruct (resp_offset r <? 0); field_simpl_state;
             destruct (_ =? _); try discriminate;
             intros H; apply Ret_pair_inj in H as [_ <-];
             (eapply Same; [| exact K1]); repeat split.
        -- intros H; apply Ret_pair_inj in H as [_ <-]. exact K1.
      * rewrite PorcessCallbck_after. field_simpl_state.
        apply (kept_callbacks_PorcessCallbck (sync_offset s)
                 (to_int (str_length entry + 4)) false) in K1.
        destruct (_ && _); intros H; apply Ret_pair_inj in H as [_ <-];
          (eapply Same; [| exact K1]); repeat split.
    + apply ReadEntry_frame in R as [q ->].
      intros H; apply Ret_pair_inj in H as [_ <-].
      apply (Same s); [| exact K]. repeat split.
  - intros H; apply Ret_pair_inj in H as [_ <-].
    apply (Same s); [| exact K]. repeat split. field_simpl_state.
    intros k. rewrite fired_app. cbn [fired]. lia.
Qed.

Lemma kept_callbacks_action a s s' :
  any_action a = true ->
  kept_callbacks s -> run_action a s = Ret (tt, s') -> kept_callbacks s'.
Proof.
  intros _ Hs. destruct a as [entry c | r | i]; cbn [run_action].
  - now apply kept_callbacks_async.
  - unfold bind.
    destruct (ReplicateLog_iter r s) as [[p s1] | |] eqn:It; try discriminate.
    unfold ret. intros H; apply Ret_pair_inj in H as [_ <-].
    eapply kept_callbacks_replicate; eassumption.
  - run. destruct (nth_error (delayed s) i) as [t |].
    2:{ intros H; apply Ret_pair_inj in H as [_ <-]. exact Hs. }
    rewrite PorcessCallbck_after.
    intros H; apply Ret_pair_inj in H as [_ <-].
    apply kept_callbacks_PorcessCallbck.
    eapply same_callbacks_kept; [| exact Hs]. repeat split.
Qed.

Lemma kept_callbacks_run s s' :
  kept_callbacks s -> run any_action s s' -> kept_callbacks s'.
Proof.
  apply run_preserves.
  - apply kept_callbacks_append.
  - apply kept_callbacks_action.
  - intros st H _. eapply same_callbacks_kept; [| exact H]. repeat split.
  - intros st w H. eapply same_callbacks_kept; [| exact H]. repeat split.
    field_simpl_state. intros k. rewrite fired_app. cbn [fired]. lia.
  - intros st H _. eapply same_callbacks_kept; [| exact H]. repeat split.
  - intros st H. eapply same_callbacks_kept; [| exact H]. repeat split.
Qed.

(** The trace Init leaves holds no completion call. *)
Lemma redo_fired fuel k : forall s s',
  redo fuel s = Ret (tt, s') -> fired k (trace s') = fired k (trace s).
Proof.
  induction fuel as [| fuel IH]; intros s s'; cbn [redo]; run.
  - destruct (applied_offset s <? sync_offset s); [discriminate |].
    intros H; apply Ret_pair_inj in H as [_ <-]. reflexivity.
  - destruct (applied_offset s <? sync_offset s).
    2:{ intros H; apply Ret_pair_inj in H as [_ <-]. reflexivity. }
    destruct (ReadEntry s) as [[[entry |] s1] | |] eqn:R; try discriminate.
    apply ReadEntry_frame in R as [q ->]. field_simpl_state.
    intros H. apply IH in H. field_simpl_state.
    rewrite H, fired_app. cbn [fired]. lia.
Qed.

Lemma Init_fired d s s' k :
  Init d s = Ret (tt, s') -> fired k (trace s') = fired k (trace s).
Proof.
  unfold Init.
  assert (forall s1 : state,
    (let! size := get (fun s => length (sync_log s)) in
     redo (S size) ;;
     let! s := get (fun s => s) in
     assert (applied_offset s =? sync_offset s) ;;
     modify (emit (EvGetStub (slave_addr s))) ;;
     if is_leader s then modify (emit EvStartWorker) else ret tt) s1 = Ret (tt, s') ->
    fired k (trace s') = fired k (trace s1)) as tail.
  { intros s1. run.
    destruct (redo _ s1) as [[[] s2] | |] eqn:R; try discriminate.
    apply (redo_fired _ k) in R.
    destruct (applied_offset s2 =? sync_offset s2); [| discriminate].
    destruct (is_leader s2); intros H; apply Ret_pair_inj in H as [_ <-];
      field_simpl_state; rewrite ?fired_app; cbn [fired]; lia. }
  destruct (disk_sync_log d) as [| | b]; [| intros H; discriminate H |].
  all: destruct (disk_applied_log d) as [| | c]; run; field_simpl_state;
    try (intros H; discriminate H).
  all: try (destruct (str_length (firstn 4 c) =? 4); run; field_simpl_state;
            [ destruct (decode_int (firstn 4 c) <=? _); run; field_simpl_state;
              [ destruct (decode_int (firstn 4 c) <? 0); field_simpl_state |
                intros H; discriminate H ] | ]).
  all: intros H; apply tail in H; field_simpl_state; exact H.
Qed.

Lemma boot_callbacks f d s : boot f d = Ret s -> kept_callbacks s.
Proof.
  intros H. apply boot_Init in H as (s0 & M & I).
  apply MasterSlaveImpl_fresh in M as (_ & _ & C0 & T0 & _).
  intros B.
  assert (forall k, fired k (trace s) = 0%nat) as Z0
    by (intros k; rewrite (Init_fired _ _ _ k I), T0; reflexivity).
  apply Init_post in I as (_ & _ & Hc & _ & _ & _ & Hcb & _).
  pose proof (str_length_nonneg (sync_log s)) as N.
  unfold bounded in B.
  rewrite to_int_id in Hc by (unfold in_int, INT_MIN, INT_MAX in *; lia).
  constructor.
  - exact Hc.
  - intros k c. rewrite Hcb, C0, lookup_empty. discriminate.
  - intros k _. apply Z0.
  - intros k. rewrite Z0. lia.
Qed.

Lemma run_trans allowed s s' s'' :
  run allowed s s' -> run allowed s' s'' -> run allowed s s''.
Proof.
  intros R1 R2. induction R2 as [| s1 s2 s3 o R IH Hall Hop]; [exact R1 |].
  eapply run_step; [exact (IH R1) | exact Hall | exact Hop].
Qed.

(** *** Waiting callbacks and their timeout checks *)

Lemma In_fired k c b tr : In (EvDone k c b) tr -> (1 <= fired k tr)%nat.
Proof.
  induction tr as [| e tr IH]; [intros [] |].
  intros [-> | H]; cbn [fired].
  - rewrite Z.eqb_refl. lia.
  - specialize (IH H). destruct e; try exact IH.
    destruct (offset =? k); lia.
Qed.

Lemma In_remove_nth {A} (x y : A) (l : list A) : forall i,
  In x l -> nth_error l i = Some y -> x <> y ->
  In x (firstn i l ++ skipn (S i) l).
Proof.
  induction l as [| a l IH]; intros i Hin Hn Ne; [destruct Hin |].
  destruct i as [| i]; cbn in Hn |- *.
  - inversion Hn; subst. destruct Hin as [-> | Hin]; [congruence | exact Hin].
  - destruct Hin as [-> | Hin]; [now left | right].
    now apply IH.
Qed.

Lemma quiet_refl s : quiet s s.
Proof. repeat split. exists []. now rewrite app_nil_r. Qed.

Lemma quiet_trans s s' s'' : quiet s s' -> quiet s' s'' -> quiet s s''.
Proof.
  intros (C & D & tr & T) (C' & D' & tr' & T').
  split; [congruence |]. split; [congruence |].
  exists (tr ++ tr'). now rewrite T', T, app_assoc.
Qed.

Lemma checks_scheduled_quiet s s' :
  quiet s s' -> checks_scheduled s -> checks_scheduled s'.
Proof. intros (C & D & _) H k c. rewrite C, D. apply H. Qed.

Lemma waits_or_called_quiet offset c s s' :
  quiet s s' -> waits_or_called offset c s -> waits_or_called offset c s'.
Proof.
  intros (C & _ & tr & T) [H | H]; [left; now rewrite C | right].
  rewrite T. apply in_or_app. now left.
Qed.

(** PorcessCallbck takes callbacks out of the table and no job out of the
    pool; the callback it takes out, it calls with true. *)
Lemma checks_scheduled_PorcessCallbck offset len timeout_check s :
  checks_scheduled s ->
  checks_scheduled (after_PorcessCallbck offset len timeout_check s).
Proof.
  intros H. rewrite after_PorcessCallbck_eq.
  destruct (callbacks s !! offset) as [c |] eqn:Look; [| exact H].
  cbv zeta. intros k c'.
  destruct (to_int (offset + len) >? applied_offset s);
    destruct (timeout_check && negb (master_only s)); field_simpl_state;
    (destruct (decide (k = offset)) as [-> | Ne];
     [rewrite lookup_delete_eq; discriminate
     | rewrite lookup_delete_ne by congruence; apply H]).
Qed.

Lemma waits_or_called_PorcessCallbck k len timeout_check offset c s :
  waits_or_called offset c s ->
  waits_or_called offset c (after_PorcessCallbck k len timeout_check s).
Proof.
  intros H. rewrite after_PorcessCallbck_eq.
  destruct (callbacks s !! k) as [c' |] eqn:Look; [| exact H].
  cbv zeta.
  assert (waits_or_called offset c
            (emit (EvDone k c' true) (set_callbacks (delete k (callbacks s)) s)))
    as W.
  { destruct H as [H | H].
    - destruct (decide (offset = k)) as [-> | Ne].
      + right. field_simpl_state. apply in_or_app. right.
        rewrite H in Look. inversion Look; subst. now left.
      + left. field_simpl_state. now rewrite lookup_delete_ne by congruence.
    - right. field_simpl_state. apply in_or_app. now left. }
  destruct (to_int (k + len) >? applied_offset s);
    destruct (timeout_check && negb (master_only s));
    (eapply waits_or_called_quiet; [| exact W]);
    repeat split; exists []; field_simpl_state; now rewrite app_nil_r.
Qed.

(** A round of ReplicateLog: steps that leave callbacks and jobs alone
    around at most one call of PorcessCallbck. *)
Lemma ReplicateLog_iter_shape r s p s' :
  ReplicateLog_iter r s = Ret (p, s') ->
  exists s1 s2,
    quiet s s1 /\
    (s2 = s1 \/ exists offset len, s2 = after_PorcessCallbck offset len false s1) /\
    quiet s2 s'.
Proof.
  assert (forall a b : state,
            callbacks b = callbacks a -> delayed b = delayed a ->
            trace b = trace a -> quiet a b) as Same.
  { intros a b C D T. repeat split; try assumption.
    exists []. now rewrite app_nil_r. }
  unfold ReplicateLog_iter, ReplicateLog_head. run.
  destruct (_ && _).
  - destruct (ReadEntry s) as [[[entry |] s1] | |] eqn:R; try discriminate.
    + apply ReadEntry_frame in R as [q ->].
      unfold ReplicateLog_reply. run. field_simpl_state.
      set (s1 := emit _ (set_read_log q s)).
      assert (quiet s s1) as Q1 by (repeat split; eexists; reflexivity).
      destruct (negb (resp_success r)).
      * destruct (negb (resp_offset r =? -1)); run; field_simpl_state.
        -- destruct (resp_offset r <? 0); field_simpl_state;
             destruct (_ =? _); try discriminate;
             intros E; apply Ret_pair_inj in E as [_ <-];
             exists s1, s1; (split; [exact Q1 |]); (split; [now left |]);
             apply Same; reflexivity.
        -- intros E; apply Ret_pair_inj in E as [_ <-].
           exists s1, s1. split; [exact Q1 |]. split; [now left |].
           apply quiet_refl.
      * rewrite PorcessCallbck_after. field_simpl_state.
        destruct (_ && _); intros E; apply Ret_pair_inj in E as [_ <-];
          exists s1, (after_PorcessCallbck (sync_offset s)
                        (to_int (str_length entry + 4)) false s1);
          (split; [exact Q1 |]); (split; [right; eauto |]);
          apply Same; reflexivity.
    + apply ReadEntry_frame in R as [q ->].
      intros E; apply Ret_pair_inj in E as [_ <-].
      exists s, s. split; [apply quiet_refl |]. split; [now left |].
      apply Same; reflexivity.
  - intros E; apply Ret_pair_inj in E as [_ <-].
    exists s, s. split; [apply quiet_refl |]. split; [now left |].
    repeat split. eexists. reflexivity.
Qed.

Lemma checks_scheduled_async entry c s s' :
  checks_scheduled s -> Log_async entry c s = Ret (tt, s') -> checks_scheduled s'.
Proof.
  intros H. rewrite Log_async_eq.
  destruct (negb (is_leader s)); [discriminate |].
  destruct (0 <=? to_int (str_length entry)); [| discriminate].
  cbv zeta. intros E. apply Ret_pair_inj in E as [_ <-].
  destruct (master_only s && (sync_offset s <? current_offset s));
    field_simpl_state; [exact H |].
  intros k c'. field_simpl_state. unfold map_insert.
  destruct (callbacks s !! current_offset s) as [c0 |] eqn:Look.
  - intros Hk. destruct (H _ _ Hk) as (t & Ht & Hoff).
    exists t. split; [apply in_or_app; now left | exact Hoff].
  - destruct (decide (k = current_offset s)) as [-> | Ne].
    + intros _. eexists. split; [apply in_or_app; right; now left | reflexivity].
    + rewrite lookup_insert_ne by congruence. intros Hk.
      destruct (H _ _ Hk) as (t & Ht & Hoff).
      exists t. split; [apply in_or_app; now left | exact Hoff].
Qed.

Lemma waits_or_called_async offset c0 entry c s s' :
  waits_or_called offset c0 s -> Log_async entry c s = Ret (tt, s') ->
  waits_or_called offset c0 s'.
Proof.
  intros H. rewrite Log_async_eq.
  destruct (negb (is_leader s)); [discriminate |].
  destruct (0 <=? to_int (str_length entry)); [| discriminate].
  cbv zeta. intros E. apply Ret_pair_inj in E as [_ <-].
  destruct (master_only s && (sync_offset s <? current_offset s));
    field_simpl_state.
  - destruct H as [H | H]; [now left | right].
    field_simpl_state. apply in_or_app. now left.
  - destruct H as [H | H]; [left | right].
    + field_simpl_state. unfold map_insert.
      destruct (callbacks s !! current_offset s) as [c1 |] eqn:Look; [exact H |].
      rewrite lookup_insert_ne; [exact H |]. intros E. rewrite E in Look.
      congruence.
    + field_simpl_state. apply in_or_app. now left.
Qed.

Lemma checks_scheduled_delayed i s s' :
  checks_scheduled s -> run_action (DoDelayed i) s = Ret (tt, s') ->
  checks_scheduled s'.
Proof.
  intros H. cbn [run_action]. run.
  destruct (nth_error (delayed s) i) as [t |] eqn:N.
  2:{ intros E; apply Ret_pair_inj in E as [_ <-]. exact H. }
  rewrite PorcessCallbck_eq. field_simpl_state.
  intros E; apply Ret_pair_inj in E as [_ <-].
  assert (forall k c, k <> task_offset t -> callbacks s !! k = Some c ->
            exists t', In t' (firstn i (delayed s) ++ skipn (S i) (delayed s)) /\
                       task_offset t' = k) as Rest.
  { intros k c Ne Hk. destruct (H _ _ Hk) as (t' & Ht' & Hoff).
    exists t'. split; [| exact Hoff].
    eapply In_remove_nth; [exact Ht' | exact N |]. intros ->. congruence. }
  destruct (callbacks s !! task_offset t) as [c |] eqn:Look.
  - intros k c'.
    destruct (to_int (task_offset t + task_len t) >? applied_offset s);
      destruct (true && negb (master_only s)); field_simpl_state;
      (destruct (decide (k = task_offset t)) as [-> | Ne];
       [rewrite lookup_delete_eq; discriminate
       | rewrite lookup_delete_ne by congruence; now apply Rest]).
  - intros k c'. field_simpl_state. intros Hk. apply (Rest k c'); [| exact Hk].
    intros ->. congruence.
Qed.

(** What holds of the callbacks and jobs at the start of a run holds at
    its end, when every kind of step keeps it. *)
Section Callback_steps.
Variable P : state -> Prop.

Hypothesis P_quiet : forall s s', quiet s s' -> P s -> P s'.
Hypothesis P_async : forall entry c s s',
  P s -> Log_async entry c s = Ret (tt, s') -> P s'.
Hypothesis P_replicate : forall offset len s,
  P s -> P (after_PorcessCallbck offset len false s).
Hypothesis P_delayed : forall i s s',
  P s -> run_action (DoDelayed i) s = Ret (tt, s') -> P s'.

Lemma callback_steps_run s s' : P s -> run any_action s s' -> P s'.
Proof.
  apply run_preserves.
  - intros entry st last st' H. rewrite Log_append_eq.
    destruct (negb (is_leader st)); [discriminate |].
    destruct (0 <=? _); [| discriminate].
    intros E. apply Ret_pair_inj in E as [_ <-].
    eapply P_quiet; [| exact H]. repeat split. eexists. reflexivity.
  - intros a st st' _ H. destruct a as [entry c | r | i]; cbn [run_action].
    + now apply P_async.
    + unfold bind.
      destruct (ReplicateLog_iter r st) as [[p s1] | |] eqn:It; try discriminate.
      unfold ret. intros E; apply Ret_pair_inj in E as [_ <-].
      apply ReplicateLog_iter_shape in It as (s2 & s3 & Q1 & Mid & Q2).
      eapply P_quiet; [exact Q2 |].
      destruct Mid as [-> | (offset & len & ->)].
      * eapply P_quiet; eassumption.
      * apply P_replicate. eapply P_quiet; eassumption.
    + now apply P_delayed.
  - intros st H _. eapply P_quiet; [| exact H]. repeat split.
    exists []. field_simpl_state. now rewrite app_nil_r.
  - intros st w H. eapply P_quiet; [| exact H]. repeat split.
    eexists. reflexivity.
  - intros st H _. eapply P_quiet; [| exact H]. repeat split.
    exists []. field_simpl_state. now rewrite app_nil_r.
  - intros st H. eapply P_quiet; [| exact H]. repeat split.
    exists []. field_simpl_state. now rewrite app_nil_r.
Qed.
End Callback_steps.

Lemma checks_scheduled_run s s' :
  checks_scheduled s -> run any_action s s' -> checks_scheduled s'.
Proof.
  apply callback_steps_run.
  - apply checks_scheduled_quiet.
  - apply checks_scheduled_async.
  - intros offset len st. apply checks_scheduled_PorcessCallbck.
  - apply checks_scheduled_delayed.
Qed.

Lemma waits_or_called_run offset c s s' :
  waits_or_called offset c s -> run any_action s s' -> waits_or_called offset c s'.
Proof.
  apply callback_steps_run.
  - apply waits_or_called_quiet.
  - apply waits_or_called_async.
  - intros k len st. apply waits_or_called_PorcessCallbck.
  - intros i st st' H. cbn [run_action]. run.
    destruct (nth_error (delayed st) i) as [t |].
    2:{ intros E; apply Ret_pair_inj in E as [_ <-]. exact H. }
    rewrite PorcessCallbck_after.
    intros E; apply Ret_pair_inj in E as [_ <-].
    apply waits_or_called_PorcessCallbck.
    destruct H as [H | H]; [left | right]; exact H.
Qed.

(** *** The start of a leader's term *)

Lemma AppendLog_quiet request response s response' s' :
  AppendLog request response s = Ret (response', s') ->
  quiet s s' /\ forall k, fired k (trace s') = fired k (trace s).
Proof.
  unfold AppendLog. run.
  destruct (req_offset request >? _).
  { intros H; apply Ret_pair_inj in H as [_ <-]. split; [apply quiet_refl | auto]. }
  destruct (req_offset request <? _).
  { intros H; apply Ret_pair_inj in H as [_ <-]. split; [apply quiet_refl | auto]. }
  intros H; apply Ret_pair_inj in H as [_ <-]. field_simpl_state. split.
  - repeat split. eexists. reflexivity.
  - intros k. rewrite fired_app. cbn [fired]. lia.
Qed.

Lemma standby_no_callbacks s :
  standby s ->
  callbacks s = ∅ /\ delayed s = [] /\ forall k, fired k (trace s) = 0%nat.
Proof.
  induction 1 as [f d s B L | s request response response' s' S IH A].
  - apply boot_Init in B as (s0 & M & I).
    apply MasterSlaveImpl_fresh in M as (_ & D0 & C0 & T0 & _).
    assert (forall k, fired k (trace s) = 0%nat) as Z0
      by (intros k; rewrite (Init_fired _ _ _ k I), T0; reflexivity).
    apply Init_post in I as (_ & _ & _ & _ & _ & _ & Hcb & Hd).
    split; [congruence |]. split; [congruence | exact Z0].
  - destruct IH as (C & D & F).
    apply AppendLog_quiet in A as ((C' & D' & _) & F').
    split; [congruence |]. split; [congruence |].
    intros k. now rewrite F'.
Qed.

Lemma SwitchToLeader_eq s :
  SwitchToLeader s
  = Ret (tt, emit EvStartWorker
               (emit (EvGetStub (master_addr s))
                  (set_addrs (slave_addr s) (master_addr s)
                     (set_read_log 0 (set_sync_offset 0 (set_is_leader true s)))))).
Proof. reflexivity. Qed.

Lemma leader_start_callbacks s :
  leader_start s -> kept_callbacks s /\ checks_scheduled s.
Proof.
  intros [(f & d & B & _) | (sb & S & Cur & Sw)].
  - split; [eapply boot_callbacks; exact B |].
    apply boot_Init in B as (s0 & M & I).
    apply MasterSlaveImpl_fresh in M as (_ & _ & C0 & _ & _).
    apply Init_post in I as (_ & _ & _ & _ & _ & _ & Hcb & _).
    intros k c. rewrite Hcb, C0, lookup_empty. discriminate.
  - rewrite SwitchToLeader_eq in Sw. apply Ret_pair_inj in Sw as [_ <-].
    destruct (standby_no_callbacks _ S) as (C & D & F).
    split.
    + intros _. constructor; field_simpl_state.
      * exact Cur.
      * intros k c. rewrite C, lookup_empty. discriminate.
      * intros k _. rewrite !fired_app, F. reflexivity.
      * intros k. rewrite !fired_app, F. cbn. lia.
    + intros k c. field_simpl_state. rewrite C, lookup_empty. discriminate.
Qed.

(** The timeout check of a waiting callback, when it runs, calls it. *)
Lemma scheduled_check_calls s offset c :
  callbacks s !! offset = Some c ->
  (exists t, In t (delayed s) /\ task_offset t = offset) ->
  exists i s1,
    run_action (DoDelayed i) s = Ret (tt, s1) /\
    callbacks s1 !! offset = None /\
    trace s1 = trace s ++ [EvDone offset c true].
Proof.
  intros Look (t & Ht & Hoff).
  apply In_nth_error in Ht as [i Hi].
  exists i. cbn [run_action]. unfold bind at 1. unfold get. rewrite Hi.
  unfold bind at 1. unfold modify at 1.
  rewrite PorcessCallbck_eq, Hoff. field_simpl_state. rewrite Look.
  eexists. split; [reflexivity |]. cbv zeta.
  destruct (to_int (offset + task_len t) >? applied_offset s);
    destruct (true && negb (master_only s)); field_simpl_state;
    rewrite lookup_delete_eq; split; reflexivity.
Qed.

(** The asynchronous Log hands the callback over in one of two ways: it
    registers it under the entry's offset, not called, or (in degraded
    mode, the standby behind) it calls it at once and registers
    nothing. *)
Lemma Log_async_registers_or_calls entry c s s1 :
  callbacks_ok s ->
  Log_async entry c s = Ret (tt, s1) ->
  callbacks s1 !! current_offset s = Some c /\
  fired (current_offset s) (trace s1) = 0%nat
  \/
  master_only s = true /\
  callbacks s1 !! current_offset s = None /\
  trace s1 = trace s ++ [EvDone (current_offset s) c true] /\
  fired (current_offset s) (trace s1) = 1%nat.
Proof.
  intros [Kc Kp Kf Ko]. rewrite Log_async_eq.
  destruct (negb (is_leader s)); [discriminate |].
  destruct (0 <=? to_int (str_length entry)); [| discriminate].
  cbv zeta. intros E. apply Ret_pair_inj in E as [_ <-].
  assert (callbacks s !! current_offset s = None) as Free.
  { destruct (callbacks s !! current_offset s) as [c' |] eqn:Look; [| reflexivity].
    destruct (Kp _ _ Look). lia. }
  assert (fired (current_offset s) (trace s) = 0%nat) as Zero by (apply Kf; lia).
  destruct (master_only s && (sync_offset s <? current_offset s)) eqn:F;
    field_simpl_state.
  - right. apply andb_prop in F as [F _].
    split; [exact F |]. split; [exact Free |]. split; [reflexivity |].
    rewrite fired_app, Zero. cbn [fired]. now rewrite Z.eqb_refl.
  - left. unfold map_insert. rewrite Free, lookup_insert_eq.
    split; [reflexivity |]. rewrite fired_app, Zero. reflexivity.
Qed.

(** C6. On a leader (started as one, or promoted) whose log fits an
    [int], in every state it reaches.  The asynchronous Log either
    registers the callback under the entry's offset, not called, or calls
    it at once and registers nothing.  A callback [c] that waits under
    [offset] has not been called, and its timeout check is among the jobs
    of the thread pool: run, that job calls it.  A run of PorcessCallbck
    for that offset, whether the replicator's or the delayed check's,
    takes it out of the table and calls it.  In every later state the
    callback either waits still, not called and with its check still
    scheduled, or it has left the table, and then it has been called with
    true, exactly once; it is never called twice.  So when the check has
    run (no job for the offset is left), the callback has been called
    exactly once; and a further PorcessCallbck for the offset finds
    nothing and calls nothing. *)
Theorem callback_called_once s0 s :
  leader_start s0 ->
  run any_action s0 s ->
  bounded s ->
  (forall entry c s1,
     Log_async entry c s = Ret (tt, s1) ->
     callbacks s1 !! current_offset s = Some c /\
     fired (current_offset s) (trace s1) = 0%nat
     \/
     master_only s = true /\
     callbacks s1 !! current_offset s = None /\
     trace s1 = trace s ++ [EvDone (current_offset s) c true] /\
     fired (current_offset s) (trace s1) = 1%nat) /\
  (forall offset c,
     callbacks s !! offset = Some c ->
     fired offset (trace s) = 0%nat /\
     (exists t, In t (delayed s) /\ task_offset t = offset) /\
     (exists i s1,
        run_action (DoDelayed i) s = Ret (tt, s1) /\
        callbacks s1 !! offset = None /\
        trace s1 = trace s ++ [EvDone offset c true]) /\
     (forall len timeout_check,
        exists s1,
          PorcessCallbck offset len timeout_check s = Ret (tt, s1) /\
          callbacks s1 !! offset = None /\
          trace s1 = trace s ++ [EvDone offset c true] /\
          fired offset (trace s1) = 1%nat) /\
     (forall s',
        run any_action s s' -> bounded s' ->
        (fired offset (trace s') <= 1)%nat /\
        (callbacks s' !! offset = Some c /\
         fired offset (trace s') = 0%nat /\
         (exists t, In t (delayed s') /\ task_offset t = offset) /\
         (exists i s'',
            run_action (DoDelayed i) s' = Ret (tt, s'') /\
            callbacks s'' !! offset = None /\
            trace s'' = trace s' ++ [EvDone offset c true])
         \/
         callbacks s' !! offset = None /\
         fired offset (trace s') = 1%nat /\
         In (EvDone offset c true) (trace s')) /\
        ((forall t, In t (delayed s') -> task_offset t <> offset) ->
         fired offset (trace s') = 1%nat) /\
        (fired offset (trace s') = 1%nat ->
         callbacks s' !! offset = None /\
         forall len timeout_check,
           exists s'',
             PorcessCallbck offset len timeout_check s' = Ret (tt, s'') /\
             trace s'' = trace s' /\
             callbacks s'' = callbacks s'))).
Proof.
  intros Start R B.
  destruct (leader_start_callbacks _ Start) as [Hb Hc].
  pose proof (kept_callbacks_run _ _ Hb R) as K.
  pose proof (checks_scheduled_run _ _ Hc R) as Sch.
  destruct (K B) as [Kc Kp Kf Ko] eqn:E. clear E.
  split.
  { intros entry c s1. apply Log_async_registers_or_calls. exact (K B). }
  intros offset c Look.
  destruct (Kp _ _ Look) as [Hlt Hzero].
  split; [exact Hzero |]. split; [exact (Sch _ _ Look) |].
  split; [exact (scheduled_check_calls _ _ _ Look (Sch _ _ Look)) |]. split.
  - intros len timeout_check.
    exists (after_PorcessCallbck offset len timeout_check s).
    split; [apply PorcessCallbck_after |].
    rewrite after_PorcessCallbck_eq, Look. cbv zeta.
    destruct (to_int (offset + len) >? applied_offset s);
      destruct (timeout_check && negb (master_only s)); field_simpl_state;
      rewrite lookup_delete_eq, fired_app, Hzero; cbn [fired];
      rewrite Z.eqb_refl; repeat split.
  - intros s' R' B'.
    pose proof (kept_callbacks_run _ _ K R' B') as [Kc' Kp' Kf' Ko'].
    pose proof (checks_scheduled_run _ _ Sch R') as Sch'.
    assert (waits_or_called offset c s') as W
      by (eapply waits_or_called_run; [left; exact Look | exact R']).
    assert (callbacks s' !! offset = Some c /\
            fired offset (trace s') = 0%nat /\
            (exists t, In t (delayed s') /\ task_offset t = offset) /\
            (exists i s'',
               run_action (DoDelayed i) s' = Ret (tt, s'') /\
               callbacks s'' !! offset = None /\
               trace s'' = trace s' ++ [EvDone offset c true])
            \/
            callbacks s' !! offset = None /\
            fired offset (trace s') = 1%nat /\
            In (EvDone offset c true) (trace s')) as Cases.
    { destruct (callbacks s' !! offset) as [c' |] eqn:L'.
      - destruct (Kp' _ _ L') as [_ Z'].
        destruct W as [W | W].
        + left. split; [congruence |]. split; [exact Z' |].
          split; [exact (Sch' _ _ L') |].
          apply scheduled_check_calls; [congruence | exact (Sch' _ _ L')].
        + apply In_fired in W. lia.
      - destruct W as [W | W]; [congruence |].
        right. split; [reflexivity |]. split; [| exact W].
        apply In_fired in W. pose proof (Ko' offset). lia. }
    split; [apply Ko' |]. split; [exact Cases |]. split.
    + intros Gone. destruct Cases as [(_ & _ & (t & Ht & Hoff) & _) | (_ & One & _)];
        [destruct (Gone t Ht Hoff) | exact One].
    + intros One.
      assert (callbacks s' !! offset = None) as Gone.
      { destruct (callbacks s' !! offset) as [c' |] eqn:L'; [| reflexivity].
        destruct (Kp' _ _ L') as [_ Z']. lia. }
      split; [exact Gone |].
      intros len timeout_check. exists s'.
      rewrite PorcessCallbck_eq, Gone. repeat split.
Qed.


(** ** The threads of a leader, step by step *)

(** *** The pieces of PorcessCallbck and of ReplicateLog *)

(** The closing test of PorcessCallbck assigns true to a flag that is
    true. *)
Lemma PorcessCallbck_leave_eq offset len s :
  PorcessCallbck_leave offset len s = Ret (tt, s).
Proof.
  unfold PorcessCallbck_leave. run.
  destruct (master_only s) eqn:F; cbn [andb]; [| reflexivity].
  destruct (to_int (offset + len) =? current_offset s); [| reflexivity].
  now rewrite set_master_only_same.
Qed.

Lemma PorcessCallbck_find_eq offset len s :
  PorcessCallbck_find offset len s =
  match callbacks s !! offset with
  | Some c => Ret (Some c, set_callbacks (delete offset (callbacks s)) s)
  | None => Ret (None, s)
  end.
Proof.
  unfold PorcessCallbck_find. unfold bind at 1. unfold get.
  destruct (callbacks s !! offset) as [c |]; [reflexivity |].
  unfold bind. now rewrite PorcessCallbck_leave_eq.
Qed.

Lemma PorcessCallbck_called_eq offset len timeout_check s :
  PorcessCallbck_called offset len timeout_check s =
  Ret (tt,
       let s1 := if to_int (offset + len) >? applied_offset s
                 then set_applied_offset (to_int (offset + len)) s else s in
       if timeout_check && negb (master_only s) then set_master_only true s1 else s1).
Proof.
  unfold PorcessCallbck_called. unfold bind at 1. unfold modify.
  unfold bind at 1. unfold get. cbv zeta.
  destruct (to_int (offset + len) >? applied_offset s); field_simpl_state;
    destruct (timeout_check && negb (master_only s)); try reflexivity;
    now rewrite PorcessCallbck_leave_eq.
Qed.

(** PorcessCallbck is its pieces, one after the other. *)
Lemma PorcessCallbck_in_pieces offset len timeout_check s :
  PorcessCallbck offset len timeout_check s =
  match PorcessCallbck_find offset len s with
  | Ret (Some c, s1) =>
      PorcessCallbck_called offset len timeout_check (emit (EvDone offset c true) s1)
  | Ret (None, s1) => Ret (tt, s1)
  | Abort => Abort
  | Pending => Pending
  end.
Proof.
  rewrite PorcessCallbck_eq, PorcessCallbck_find_eq.
  destruct (callbacks s !! offset) as [c |]; [| reflexivity].
  rewrite PorcessCallbck_called_eq. reflexivity.
Qed.

(** The steps of the worker in closed form. *)
Lemma worker_step_Idle r s :
  worker_step r Idle s
  = Ret (if sync_offset s =? current_offset s then Idle else AtLoop, s).
Proof.
  cbn [worker_step]. run. now destruct (sync_offset s =? current_offset s).
Qed.

Lemma worker_step_AtLoop r s :
  worker_step r AtLoop s
  = Ret (if sync_offset s <? current_offset s then AtLock else AtExit, s).
Proof.
  cbn [worker_step]. run. now destruct (sync_offset s <? current_offset s).
Qed.

Lemma worker_step_AtLock r s :
  worker_step r AtLock s
  = Ret (if sync_offset s =? current_offset s then AtExit else AtRead, s).
Proof.
  cbn [worker_step]. run. now destruct (sync_offset s =? current_offset s).
Qed.

Lemma worker_step_AtRead r s :
  worker_step r AtRead s =
  match ReadEntry s with
  | Ret (Some entry, s') => Ret (InRequest entry, s')
  | Ret (None, s') => Ret (Idle, s')
  | Abort => Abort
  | Pending => Pending
  end.
Proof.
  cbn [worker_step]. unfold bind.
  destruct (ReadEntry s) as [[[entry |] s'] | |]; reflexivity.
Qed.

Lemma worker_step_InRequest r entry s :
  worker_step r (InRequest entry) s =
  let s1 := emit (EvSend {| req_offset := to_uint32 (sync_offset s);
                            req_log_data := entry |}) s in
  if resp_success r then
    match callbacks s !! sync_offset s with
    | Some c =>
        Ret (InCallback entry (sync_offset s) (to_int (str_length entry + 4)),
             emit (EvDone (sync_offset s) c true)
               (set_callbacks (delete (sync_offset s) (callbacks s)) s1))
    | None => Ret (AtAdvance entry, s1)
    end
  else if resp_offset r =? -1 then Ret (AtLoop, s1)
  else if resp_offset r <? 0 then Abort
  else Ret (AtLoop, set_read_log (resp_offset r) (set_sync_offset (resp_offset r) s1)).
Proof.
  cbn [worker_step]. unfold bind at 1. unfold get. unfold bind at 1. unfold modify at 1.
  cbv zeta. destruct (resp_success r); cbn [negb].
  - unfold bind at 1. rewrite PorcessCallbck_find_eq. field_simpl_state.
    destruct (callbacks s !! sync_offset s) as [c |]; reflexivity.
  - destruct (resp_offset r =? -1) eqn:M; cbn [negb]; [reflexivity |].
    run. field_simpl_state.
    destruct (resp_offset r <? 0) eqn:Neg; field_simpl_state.
    + apply Z.eqb_neq in M.
      replace (-1 =? resp_offset r) with false
        by (symmetry; apply Z.eqb_neq; lia).
      reflexivity.
    + now rewrite Z.eqb_refl.
Qed.

Lemma worker_step_InCallback r entry offset len s :
  worker_step r (InCallback entry offset len) s =
  Ret (AtAdvance entry,
       if to_int (offset + len) >? applied_offset s
       then set_applied_offset (to_int (offset + len)) s else s).
Proof.
  cbn [worker_step]. unfold bind. rewrite PorcessCallbck_called_eq.
  cbn [andb]. reflexivity.
Qed.

Lemma worker_step_AtAdvance r entry s :
  worker_step r (AtAdvance entry) s =
  Ret (AtLoop,
       let s1 := set_sync_offset (to_int (sync_offset s + (4 + str_length entry))) s in
       if master_only s1 && (sync_offset s1 =? current_offset s1)
       then set_master_only false s1 else s1).
Proof.
  cbn [worker_step]. run. cbv zeta.
  match goal with
  | |- context [if ?c then _ else _] => destruct c
  end; reflexivity.
Qed.

Lemma worker_step_AtExit r s :
  worker_step r AtExit s
  = Ret (Idle, emit EvSignalLogDone (set_applied_offset (current_offset s) s)).
Proof. reflexivity. Qed.

Lemma worker_round_S fuel r w s :
  worker_round (S fuel) r w s =
  match worker_step r w s with
  | Ret (w', s') =>
      match w' with
      | AtLoop | Idle => Ret (w', s')
      | _ => worker_round fuel r w' s'
      end
  | Abort => Abort
  | Pending => Pending
  end.
Proof.
  cbn [worker_round]. unfold bind.
  destruct (worker_step r w s) as [[w' s'] | |]; [| reflexivity | reflexivity].
  destruct w'; reflexivity.
Qed.

(** One round of ReplicateLog is the worker's steps from one test of the
    loop condition to the next, or to the return. *)
Lemma ReplicateLog_iter_in_steps r s :
  match ReplicateLog_iter r s with
  | Ret (p, s') =>
      worker_round 6 r AtLoop s
      = Ret (match p with Continue => AtLoop | _ => Idle end, s')
  | Abort => worker_round 6 r AtLoop s = Abort
  | Pending => False
  end.
Proof.
  rewrite worker_round_S, worker_step_AtLoop.
  unfold ReplicateLog_iter, ReplicateLog_head.
  unfold bind at 1. unfold bind at 1. unfold get.
  destruct (sync_offset s <? current_offset s) eqn:Lt; cbn [andb].
  2:{ rewrite worker_round_S, worker_step_AtExit. reflexivity. }
  apply Z.ltb_lt in Lt.
  rewrite worker_round_S, worker_step_AtLock.
  replace (sync_offset s =? current_offset s) with false
    by (symmetry; apply Z.eqb_neq; lia).
  cbn [negb].
  rewrite worker_round_S, worker_step_AtRead. unfold bind at 1.
  destruct (ReadEntry s) as [[[entry |] s1] | |] eqn:R.
  4:{ exact (ReadEntry_not_pending s R). }
  3:{ reflexivity. }
  2:{ reflexivity. }
  unfold ret at 1. unfold bind at 1.
  rewrite worker_round_S, worker_step_InRequest. cbv zeta.
  unfold ReplicateLog_reply.
  unfold bind at 1. unfold get. unfold bind at 1. unfold modify at 1.
  destruct (resp_success r); cbn [negb].
  - unfold bind at 1. rewrite PorcessCallbck_eq. field_simpl_state.
    destruct (callbacks s1 !! sync_offset s1) as [c |].
    + rewrite worker_round_S, worker_step_InCallback.
      rewrite worker_round_S, worker_step_AtAdvance.
      run. cbn [andb]. cbv zeta. field_simpl_state.
      destruct (to_int (sync_offset s1 + to_int (str_length entry + 4))
                >? applied_offset s1); field_simpl_state;
        match goal with
        | |- context [if ?c then _ else _] => destruct c
        end; reflexivity.
    + rewrite worker_round_S, worker_step_AtAdvance.
      run. field_simpl_state. cbv zeta.
      match goal with
      | |- context [if ?c then _ else _] => destruct c
      end; reflexivity.
  - destruct (resp_offset r =? -1) eqn:M; cbn [negb]; [reflexivity |].
    run. field_simpl_state.
    destruct (resp_offset r <? 0) eqn:Neg; field_simpl_state.
    + apply Z.eqb_neq in M.
      replace (-1 =? resp_offset r) with false
        by (symmetry; apply Z.eqb_neq; lia).
      reflexivity.
    + now rewrite Z.eqb_refl.
Qed.

(** *** The offsets stay inside the log *)

Lemma job_in_log_mono s s' t :
  current_offset s <= current_offset s' -> job_in_log s t -> job_in_log s' t.
Proof. unfold job_in_log. lia. Qed.

Lemma jobs_in_log_mono s s' l :
  current_offset s <= current_offset s' ->
  Forall (job_in_log s) l -> Forall (job_in_log s') l.
Proof.
  intros H J. eapply List.Forall_impl; [| exact J].
  intros t. now apply job_in_log_mono.
Qed.

Lemma worker_in_log_frame s s' w :
  sync_offset s' = sync_offset s -> read_log s' = read_log s ->
  current_offset s <= current_offset s' ->
  worker_in_log s w -> worker_in_log s' w.
Proof.
  intros S R C. destruct w; cbn [worker_in_log]; rewrite ?S, ?R; try tauto.
  intros [H J]. split; [exact H |]. revert J. now apply job_in_log_mono.
Qed.

(** A step that moves neither the log nor an offset nor a waiting job. *)
Lemma threads_ok_frame t s' callers :
  sync_log s' = sync_log (shared t) -> read_log s' = read_log (shared t) ->
  current_offset s' = current_offset (shared t) ->
  applied_offset s' = applied_offset (shared t) ->
  sync_offset s' = sync_offset (shared t) ->
  delayed s' = delayed (shared t) ->
  threads_ok t ->
  threads_ok {| shared := s'; worker_at := worker_at t; in_pool := in_pool t;
                in_log := callers |}.
Proof.
  intros L R C A S D [[Hc Ha Hs Hr Hj] Hp Hw].
  constructor; cbn [shared worker_at in_pool].
  - constructor; rewrite ?L, ?R, ?C, ?A, ?S, ?D; try assumption.
    eapply jobs_in_log_mono; [| exact Hj]. lia.
  - eapply jobs_in_log_mono; [| exact Hp]. lia.
  - eapply worker_in_log_frame; [exact S | exact R | lia | exact Hw].
Qed.

(** A step that sets [applied_offset_] to a value inside the log and
    moves nothing else. *)
Lemma threads_ok_applied t s' w pool callers :
  sync_log s' = sync_log (shared t) -> read_log s' = read_log (shared t) ->
  current_offset s' = current_offset (shared t) ->
  0 <= applied_offset s' <= current_offset (shared t) ->
  sync_offset s' = sync_offset (shared t) ->
  delayed s' = delayed (shared t) ->
  Forall (job_in_log (shared t)) pool ->
  worker_in_log (shared t) w ->
  threads_ok t ->
  threads_ok {| shared := s'; worker_at := w; in_pool := pool; in_log := callers |}.
Proof.
  intros L R C A S D Hp' Hw' [[Hc Ha Hs Hr Hj] Hp Hw].
  constructor; cbn [shared worker_at in_pool].
  - constructor; rewrite ?L, ?R, ?C, ?S, ?D; try assumption; try lia.
    eapply jobs_in_log_mono; [| exact Hj]. lia.
  - eapply jobs_in_log_mono; [| exact Hp']. lia.
  - eapply worker_in_log_frame; [exact S | exact R | lia | exact Hw'].
Qed.

Lemma kept_CallLog entry timeout_ms t t' :
  kept_threads t -> step (CallLog entry timeout_ms) t = Ret t' -> kept_threads t'.
Proof.
  intros K. cbn [step]. unfold on_shared. rewrite Log_append_eq.
  destruct (negb (is_leader (shared t))); [discriminate |].
  destruct (0 <=? to_int (str_length entry)) eqn:W; [| discriminate].
  intros H. apply Ret_inj in H as <-.
  intros B. unfold bounded in B. cbn [shared] in B. field_simpl_state.
  pose proof (bounded_app (shared t) _ B) as Bs.
  destruct (K Bs) as [[Hc Ha Hs Hr Hj] Hp Hw].
  rewrite !str_length_app, str_length_encode in B.
  pose proof (str_length_nonneg entry) as Ne.
  pose proof (str_length_nonneg (sync_log (shared t))) as Nl.
  assert (to_int (str_length entry) = str_length entry) as T1
    by (apply to_int_id; unfold in_int, INT_MIN, INT_MAX in *; lia).
  rewrite T1.
  rewrite (to_int_id (str_length entry + 4))
    by (unfold in_int, INT_MIN, INT_MAX in *; lia).
  rewrite (to_int_id (current_offset (shared t) + _))
    by (unfold in_int, INT_MIN, INT_MAX in *; lia).
  constructor; cbn [shared worker_at in_pool].
  - constructor; field_simpl_state;
      rewrite ?str_length_app, ?str_length_encode; try lia.
    eapply jobs_in_log_mono; [| exact Hj]. field_simpl_state. lia.
  - eapply jobs_in_log_mono; [| exact Hp]. field_simpl_state. lia.
  - eapply worker_in_log_frame; [| | | exact Hw]; field_simpl_state;
      try reflexivity; lia.
Qed.

Lemma kept_CallLogAsync entry c t t' :
  kept_threads t -> step (CallLogAsync entry c) t = Ret t' -> kept_threads t'.
Proof.
  intros K. cbn [step]. unfold on_shared. rewrite Log_async_eq.
  set (s := shared t) in *.
  destruct (negb (is_leader s)); [discriminate |].
  destruct (0 <=? to_int (str_length entry)) eqn:W; [| discriminate].
  cbv zeta. intros H. apply Ret_inj in H as <-.
  intros B. unfold bounded in B. cbn [shared] in B.
  assert (forall x y : state,
            sync_log x = sync_log y ->
            sync_log (set_current_offset
                        (to_int (current_offset s + to_int (to_int (str_length entry) + 4)))
                        (if master_only s && (sync_offset s <? current_offset s)
                         then x else y)) = sync_log y) as L
    by (intros x y E; destruct (master_only s && _); [exact E | reflexivity]).
  rewrite L in B by reflexivity. field_simpl_state.
  pose proof (bounded_app s _ B) as Bs.
  destruct (K Bs) as [[Hc Ha Hs Hr Hj] Hp Hw]. fold s in Hc, Ha, Hs, Hr, Hj, Hp, Hw.
  rewrite !str_length_app, str_length_encode in B.
  pose proof (str_length_nonneg entry) as Ne.
  pose proof (str_length_nonneg (sync_log s)) as Nl.
  assert (to_int (str_length entry) = str_length entry) as T1
    by (apply to_int_id; unfold in_int, INT_MIN, INT_MAX in *; lia).
  rewrite !T1 in *.
  rewrite !(to_int_id (str_length entry + 4)) in *
    by (unfold in_int, INT_MIN, INT_MAX in *; lia).
  rewrite !(to_int_id (current_offset s + _)) in *
    by (unfold in_int, INT_MIN, INT_MAX in *; lia).
  destruct (master_only s && (sync_offset s <? current_offset s)).
  - constructor; cbn [shared worker_at in_pool].
    + constructor; field_simpl_state;
        rewrite ?str_length_app, ?str_length_encode; try lia.
      eapply jobs_in_log_mono; [| exact Hj]. field_simpl_state. lia.
    + eapply jobs_in_log_mono; [| exact Hp]. field_simpl_state. lia.
    + eapply worker_in_log_frame; [| | | exact Hw]; field_simpl_state;
        try reflexivity; lia.
  - constructor; cbn [shared worker_at in_pool].
    + constructor; field_simpl_state;
        rewrite ?str_length_app, ?str_length_encode; try lia.
      apply Forall_app. split.
      * eapply jobs_in_log_mono; [| exact Hj]. field_simpl_state. lia.
      * constructor; [| constructor]. unfold job_in_log.
        cbn [task_offset task_len]. field_simpl_state. lia.
    + eapply jobs_in_log_mono; [| exact Hp]. field_simpl_state. lia.
    + eapply worker_in_log_frame; [| | | exact Hw]; field_simpl_state;
        try reflexivity; lia.
Qed.

Lemma kept_StepLog i clock signalled t t' :
  kept_threads t -> step (StepLog i clock signalled) t = Ret t' -> kept_threads t'.
Proof.
  intros K. cbn [step].
  destruct (nth_error (in_log t) i) as [c |];
    [| intros H; apply Ret_inj in H as <-; exact K].
  unfold on_shared.
  destruct c as [last_offset timeout_ms | | stop_point | stop_point | stop_point |];
    cbn [caller_step]; run.
  - destruct (master_only (shared t) && _);
      intros H; apply Ret_inj in H as <-; intros B;
      apply (threads_ok_frame t); try reflexivity; exact (K B).
  - intros H; apply Ret_inj in H as <-. intros B.
    destruct (K B) as [[Hc Ha Hs Hr Hj] Hp Hw] eqn:E. clear E.
    apply (threads_ok_applied t); field_simpl_state; try reflexivity;
      try assumption; [lia | exact (K B)].
  - destruct (negb _ && _);
      intros H; apply Ret_inj in H as <-; intros B;
      apply (threads_ok_frame t); try reflexivity; exact (K B).
  - intros H; apply Ret_inj in H as <-. intros B.
    apply (threads_ok_frame t); try reflexivity. exact (K B).
  - destruct signalled.
    + destruct (negb (sync_offset (shared t) =? current_offset (shared t))).
      * intros H; apply Ret_inj in H as <-. intros B.
        apply (threads_ok_frame t); try reflexivity. exact (K B).
      * destruct (master_only (shared t));
          intros H; apply Ret_inj in H as <-; intros B;
          apply (threads_ok_frame t); try reflexivity; exact (K B).
    + intros H; apply Ret_inj in H as <-. intros B.
      apply (threads_ok_frame t); try reflexivity. exact (K B).
  - intros H; apply Ret_inj in H as <-. intros B.
    apply (threads_ok_frame t); try reflexivity. exact (K B).
Qed.

Lemma kept_StepWorker r t t' :
  resync_in_log t (StepWorker r) = true ->
  kept_threads t -> step (StepWorker r) t = Ret t' -> kept_threads t'.
Proof.
  intros Allowed K. cbn [step]. unfold on_shared.
  set (s := shared t) in *.
  destruct (worker_at t) as [| | | | entry | entry offset len | entry |] eqn:W.
  - rewrite worker_step_Idle. intros H; apply Ret_inj in H as <-. intros B.
    destruct (K B) as [[Hc Ha Hs Hr Hj] Hp Hw] eqn:E; clear E.
    apply (threads_ok_applied t); try reflexivity; try assumption;
      try exact (K B).
    now destruct (sync_offset s =? current_offset s).
  - rewrite worker_step_AtLoop. intros H; apply Ret_inj in H as <-. intros B.
    destruct (K B) as [[Hc Ha Hs Hr Hj] Hp Hw] eqn:E; clear E.
    apply (threads_ok_applied t); try reflexivity; try assumption;
      try exact (K B).
    now destruct (sync_offset s <? current_offset s).
  - rewrite worker_step_AtLock. intros H; apply Ret_inj in H as <-. intros B.
    destruct (K B) as [[Hc Ha Hs Hr Hj] Hp Hw] eqn:E; clear E.
    apply (threads_ok_applied t); try reflexivity; try assumption;
      try exact (K B).
    now destruct (sync_offset s =? current_offset s).
  - rewrite worker_step_AtRead.
    destruct (ReadEntry s) as [[[entry |] s1] | |] eqn:R; try discriminate.
    + intros H; apply Ret_inj in H as <-. intros B. cbn [shared] in B.
      pose proof (ReadEntry_frame _ _ _ R) as [q E].
      assert (bounded s) as Bs by (unfold bounded in *; now rewrite E in B).
      destruct (K Bs) as [[Hc Ha Hs Hr Hj] Hp Hw].
      fold s in Hc, Ha, Hs, Hr, Hj, Hp, Hw.
      apply ReadEntry_some in R as [-> Hlen]; [| lia].
      pose proof (str_length_nonneg entry) as Ne.
      constructor; cbn [shared worker_at in_pool].
      * constructor; field_simpl_state; try assumption; try lia.
      * exact Hp.
      * cbn [worker_in_log]. field_simpl_state. lia.
    + intros H; apply Ret_inj in H as <-. intros B. cbn [shared] in B.
      pose proof (ReadEntry_frame _ _ _ R) as [q E].
      assert (bounded s) as Bs by (unfold bounded in *; now rewrite E in B).
      destruct (K Bs) as [[Hc Ha Hs Hr Hj] Hp Hw].
      fold s in Hc, Ha, Hs, Hr, Hj, Hp, Hw.
      apply ReadEntry_none in R as (p & -> & Hp'); [| lia].
      constructor; cbn [shared worker_at in_pool].
      * constructor; field_simpl_state; try assumption; try lia.
      * exact Hp.
      * exact I.
  - rewrite worker_step_InRequest. cbv zeta.
    unfold resync_in_log in Allowed. fold s in Allowed.
    destruct (resp_success r).
    + destruct (callbacks s !! sync_offset s) as [c |];
        intros H; apply Ret_inj in H as <-; intros B;
        destruct (K B) as [[Hc Ha Hs Hr Hj] Hp Hw] eqn:E; clear E;
        rewrite W in Hw; cbn [worker_in_log] in Hw;
        fold s in Hc, Ha, Hs, Hr, Hj, Hp, Hw;
        (apply (threads_ok_applied t); field_simpl_state; try reflexivity;
         try assumption; try exact (K B)).
      cbn [worker_in_log]. fold s. split; [exact Hw |].
      pose proof (str_length_nonneg entry) as Ne.
      unfold bounded in B. cbn [shared] in B. field_simpl_state. fold s in B.
      rewrite (to_int_id (str_length entry + 4))
        by (unfold in_int, INT_MIN, INT_MAX in *; lia).
      unfold job_in_log. cbn [task_offset task_len]. fold s. lia.
    + cbn [orb] in Allowed.
      destruct (resp_offset r =? -1) eqn:M.
      * intros H; apply Ret_inj in H as <-. intros B.
        destruct (K B) as [[Hc Ha Hs Hr Hj] Hp Hw] eqn:E; clear E.
        apply (threads_ok_applied t); field_simpl_state; try reflexivity;
          try assumption; try exact (K B); try exact I.
      * cbn [orb] in Allowed. apply andb_prop in Allowed as [Lo Hi].
        apply Z.leb_le in Lo, Hi.
        replace (resp_offset r <? 0) with false by (symmetry; apply Z.ltb_ge; lia).
        intros H; apply Ret_inj in H as <-. intros B.
        destruct (K B) as [[Hc Ha Hs Hr Hj] Hp Hw].
        fold s in Hc, Ha, Hs, Hr, Hj, Hp, Hw.
        constructor; cbn [shared worker_at in_pool].
        -- constructor; field_simpl_state; try assumption; try lia.
        -- exact Hp.
        -- exact I.
  - rewrite worker_step_InCallback.
    intros H; apply Ret_inj in H as <-. intros B. cbn [shared] in B.
    assert (bounded s) as Bs
      by (unfold bounded in *; destruct (_ >? _); exact B).
    destruct (K Bs) as [[Hc Ha Hs Hr Hj] Hp Hw] eqn:E. clear E.
    rewrite W in Hw. cbn [worker_in_log] in Hw. destruct Hw as [Hw Hjob].
    fold s in Hc, Ha, Hs, Hr, Hj, Hp, Hw, Hjob.
    unfold job_in_log in Hjob. cbn [task_offset task_len] in Hjob.
    unfold bounded in Bs.
    rewrite (to_int_id (offset + len))
      by (unfold in_int, INT_MIN, INT_MAX in *; lia).
    destruct (offset + len >? applied_offset s) eqn:G;
      (apply (threads_ok_applied t); field_simpl_state; try reflexivity;
       try assumption; try exact (K Bs); try exact Hw; fold s; lia).
  - rewrite worker_step_AtAdvance. cbv zeta.
    intros H; apply Ret_inj in H as <-. intros B. cbn [shared] in B.
    assert (bounded s) as Bs
      by (unfold bounded in *; destruct (_ && _); exact B).
    destruct (K Bs) as [[Hc Ha Hs Hr Hj] Hp Hw] eqn:E. clear E.
    rewrite W in Hw. cbn [worker_in_log] in Hw.
    fold s in Hc, Ha, Hs, Hr, Hj, Hp, Hw.
    pose proof (str_length_nonneg entry) as Ne.
    unfold bounded in Bs.
    rewrite (to_int_id (sync_offset s + _))
      by (unfold in_int, INT_MIN, INT_MAX in *; lia).
    field_simpl_state.
    destruct (master_only s &&
              (sync_offset s + (4 + str_length entry) =? current_offset s));
      (constructor; cbn [shared worker_at in_pool];
       [ constructor; field_simpl_state; try lia;
         eapply jobs_in_log_mono; [| exact Hj]; field_simpl_state; lia
       | eapply jobs_in_log_mono; [| exact Hp]; field_simpl_state; lia
       | exact I ]).
  - rewrite worker_step_AtExit.
    intros H; apply Ret_inj in H as <-. intros B.
    destruct (K B) as [[Hc Ha Hs Hr Hj] Hp Hw] eqn:E. clear E.
    fold s in Hc, Ha, Hs, Hr, Hj, Hp, Hw.
    apply (threads_ok_applied t); field_simpl_state; try reflexivity;
      try assumption; try exact (K B); try exact I; fold s; lia.
Qed.

Lemma kept_StartJob i t t' :
  kept_threads t -> step (StartJob i) t = Ret t' -> kept_threads t'.
Proof.
  intros K. cbn [step]. set (s := shared t) in *.
  destruct (nth_error (delayed s) i) as [job |] eqn:N;
    [| intros H; apply Ret_inj in H as <-; exact K].
  unfold on_shared. fold s. unfold bind at 1. unfold modify at 1.
  unfold bind at 1. rewrite PorcessCallbck_find_eq. field_simpl_state.
  assert (forall st callers calling,
            sync_log st = sync_log s -> read_log st = read_log s ->
            current_offset st = current_offset s ->
            applied_offset st = applied_offset s ->
            sync_offset st = sync_offset s ->
            delayed st = remove_nth i (delayed s) ->
            kept_threads
              {| shared := st; worker_at := worker_at t;
                 in_pool := if calling : bool then in_pool t ++ [job] else in_pool t;
                 in_log := callers |}) as Go.
  { intros st callers calling L R C A S D B. cbn [shared] in B.
    assert (bounded s) as Bs by (unfold bounded in *; now rewrite L in B).
    destruct (K Bs) as [[Hc Ha Hs Hr Hj] Hp Hw].
    fold s in Hc, Ha, Hs, Hr, Hj, Hp, Hw.
    assert (job_in_log s job) as Hjob.
    { apply nth_error_In in N. rewrite List.Forall_forall in Hj. now apply Hj. }
    constructor; cbn [shared worker_at in_pool].
    - constructor; rewrite ?L, ?R, ?C, ?A, ?S, ?D; try assumption.
      eapply jobs_in_log_mono; [| apply Forall_remove_nth; exact Hj]. lia.
    - destruct calling.
      + apply Forall_app. split.
        * eapply jobs_in_log_mono; [| exact Hp]. lia.
        * constructor; [| constructor].
          eapply job_in_log_mono; [| exact Hjob]. lia.
      + eapply jobs_in_log_mono; [| exact Hp]. lia.
    - eapply worker_in_log_frame; [exact S | exact R | lia | exact Hw]. }
  destruct (callbacks s !! task_offset job) as [c |];
    run; intros H; apply Ret_inj in H as <-;
    [apply (Go _ _ true) | apply (Go _ _ false)]; reflexivity.
Qed.

Lemma kept_ResumeJob j t t' :
  kept_threads t -> step (ResumeJob j) t = Ret t' -> kept_threads t'.
Proof.
  intros K. cbn [step]. set (s := shared t) in *.
  destruct (nth_error (in_pool t) j) as [job |] eqn:N;
    [| intros H; apply Ret_inj in H as <-; exact K].
  unfold on_shared. fold s. rewrite PorcessCallbck_called_eq. cbv zeta.
  intros H; apply Ret_inj in H as <-. intros B. cbn [shared] in B.
  assert (bounded s) as Bs
    by (unfold bounded in *; destruct (_ >? _), (_ && _); exact B).
  destruct (K Bs) as [[Hc Ha Hs Hr Hj] Hp Hw] eqn:E. clear E.
  fold s in Hc, Ha, Hs, Hr, Hj, Hp, Hw.
  assert (job_in_log s job) as Hjob.
  { apply nth_error_In in N. rewrite List.Forall_forall in Hp. now apply Hp. }
  unfold job_in_log in Hjob. unfold bounded in Bs.
  rewrite (to_int_id (task_offset job + task_len job))
    by (unfold in_int, INT_MIN, INT_MAX in *; lia).
  destruct (task_offset job + task_len job >? applied_offset s) eqn:G;
    destruct (true && negb (master_only s));
    (apply (threads_ok_applied t); field_simpl_state; try reflexivity;
     try assumption; try exact (K Bs); try (now apply Forall_remove_nth);
     fold s; lia).
Qed.

(** Every step keeps the offsets inside the log, when the worker is given
    no resync offset from outside the log. *)
Lemma kept_step m t t' :
  resync_in_log t m = true ->
  kept_threads t -> step m t = Ret t' -> kept_threads t'.
Proof.
  intros Allowed K.
  destruct m as [entry timeout_ms | i clock signalled | entry c | r | i | j].
  - now apply kept_CallLog.
  - now apply kept_StepLog.
  - now apply kept_CallLogAsync.
  - now apply kept_StepWorker.
  - now apply kept_StartJob.
  - now apply kept_ResumeJob.
Qed.

Lemma kept_reaches t t' :
  kept_threads t -> reaches resync_in_log t t' -> kept_threads t'.
Proof.
  intros K R. induction R as [t | t t1 t2 m R IH Allowed Step]; [exact K |].
  eapply kept_step; [exact Allowed | exact (IH K) | exact Step].
Qed.

Lemma accepting_resync_in_log t t' :
  reaches accepting t t' -> reaches resync_in_log t t'.
Proof.
  induction 1 as [t | t t1 t2 m R IH Allowed Step]; [apply reaches_refl |].
  eapply reaches_step; [exact IH | | exact Step].
  destruct m; try reflexivity. cbn [accepting resync_in_log] in *.
  now rewrite Allowed.
Qed.

(** A leader at the start of its term has its offsets inside the log. *)
Lemma leader_start_in_log s :
  leader_start s -> kept_threads (start s).
Proof.
  intros Start B. cbn [start shared] in B.
  assert (offsets_in_log s) as O.
  { destruct Start as [(f & d & Hb & _) | (sb & Sb & Cur & Sw)].
    - eapply boot_in_log; eassumption.
    - rewrite SwitchToLeader_eq in Sw. apply Ret_pair_inj in Sw as [_ <-].
      pose proof (standby_applied _ Sb) as A.
      destruct (standby_no_callbacks _ Sb) as (_ & D & _).
      pose proof (str_length_nonneg (sync_log sb)) as N.
      constructor; field_simpl_state; try lia.
      rewrite D. constructor. }
  constructor; cbn [start shared worker_at in_pool];
    [exact O | constructor | exact I].
Qed.

Lemma reaches_front allowed m t t1 t' :
  allowed t m = true -> step m t = Ret t1 ->
  reaches allowed t1 t' -> reaches allowed t t'.
Proof.
  intros A S R. induction R as [t1 | t1 t2 t3 m' R IH A' S'].
  - eapply reaches_step; [apply reaches_refl | exact A | exact S].
  - eapply reaches_step; [exact (IH S) | exact A' | exact S'].
Qed.

Lemma play_reaches allowed ms : forall t t',
  play allowed ms t = Some t' -> reaches allowed t t'.
Proof.
  induction ms as [| m ms IH]; intros t t'; cbn [play].
  - intros H. inversion H. apply reaches_refl.
  - destruct (allowed t m) eqn:A; [| discriminate].
    destruct (step m t) as [t1 | |] eqn:S; try discriminate.
    intros H. eapply reaches_front; [exact A | exact S | now apply IH].
Qed.

(** *** C3: the order of the three offsets *)

(** C3 as the spec states it, "applied <= sync <= current whenever the
    flag is off", does not survive a rewind.  A leader comes up on a log holding "abc"
    (offsets 7, 7, 7), "hello" is logged asynchronously, and the standby,
    whose own log is empty, answers the request for offset 7 with the
    resync offset 0, exactly what AppendLog answers there: the round sets
    [sync_offset_] to 0 while [applied_offset_] stays 7 and the flag is
    off. *)
Lemma offsets_disordered_after_rewind :
  exists s0 s1 s2 standby0,
    boot (Sample.flags_of "master") Sample.disk_abc = Ret s0 /\
    is_leader s0 = true /\
    run_op (OpOther (DoLogAsync Sample.hello 1%nat)) s0 = Ret (tt, s1) /\
    boot (Sample.flags_of "slave") Sample.empty_disk = Ret standby0 /\
    AppendLog {| req_offset := 7; req_log_data := Sample.abc |} Sample.accepted standby0
      = Ret (Sample.resync_at 0, standby0) /\
    run_op (OpOther (DoReplicate (Sample.resync_at 0))) s1 = Ret (tt, s2) /\
    run any_action s0 s2 /\
    bounded s2 /\
    master_only s2 = false /\
    applied_offset s2 = 7 /\ sync_offset s2 = 0 /\ current_offset s2 = 16 /\
    ~ (applied_offset s2 <= sync_offset s2 <= current_offset s2).
Proof.
  do 4 eexists.
  split; [vm_compute; reflexivity |].
  split; [reflexivity |].
  split; [vm_compute; reflexivity |].
  split; [vm_compute; reflexivity |].
  split; [vm_compute; reflexivity |].
  split; [vm_compute; reflexivity |].
  split.
  { eapply run_step with (o := OpOther (DoReplicate (Sample.resync_at 0)));
      [eapply run_step with (o := OpOther (DoLogAsync Sample.hello 1%nat));
         [apply run_refl | reflexivity | vm_compute; reflexivity]
      | reflexivity | vm_compute; reflexivity]. }
  vm_compute. repeat split; try congruence.
  intros [H _]. now apply H.
Qed.

(** C3.  The order the spec gives, applied <= sync <= current whenever
    the flag is off, is not kept by the code (see the lemma above for a
    rewind).  What the code keeps, on a leader (started as one, or
    promoted) whose log fits an [int], in every state its threads reach
    step by step, the blocking Log, the asynchronous Log, the worker with
    ReplicateLog and the PorcessCallbck jobs interleaved in any way, as
    long as the worker is given no resync offset from outside its log:
    [applied_offset_] and [sync_offset_] lie between 0 and
    [current_offset_].  With the flag on, applied may equal current while
    sync lags: two blocking Logs the standby does not answer lead there.
    With the flag off, applied may lie above sync even when every reply
    accepts and all threads are back at rest: ReplicateLog's closing
    [applied_offset_ = current_offset_] (line 283) runs without the mutex
    and after the loop condition, so an entry logged in between is
    counted as applied before it was sent. *)
Theorem offsets_within_log :
  (forall s0 t,
     leader_start s0 ->
     reaches resync_in_log (start s0) t ->
     bounded (shared t) ->
     0 <= applied_offset (shared t) <= current_offset (shared t) /\
     0 <= sync_offset (shared t) <= current_offset (shared t)) /\
  (exists s0 t,
     leader_boot s0 /\ reaches accepting (start s0) t /\ bounded (shared t) /\
     master_only (shared t) = true /\
     applied_offset (shared t) = current_offset (shared t) /\
     sync_offset (shared t) < current_offset (shared t)) /\
  (exists s0 t,
     leader_boot s0 /\ reaches accepting (start s0) t /\ bounded (shared t) /\
     worker_at t = Idle /\ in_pool t = [] /\ in_log t = [] /\
     master_only (shared t) = false /\
     sync_offset (shared t) < applied_offset (shared t)).
Proof.
  split; [| split].
  - intros s0 t Start R B.
    destruct (kept_reaches _ _ (leader_start_in_log _ Start) R B)
      as [[Hc Ha Hs Hr Hj] Hp Hw].
    split; [exact Ha | lia].
  - exists Sample.leader_empty, Steps.degraded.
    split; [| split].
    + exists (Sample.flags_of "master"), Sample.empty_disk.
      split; vm_compute; reflexivity.
    + apply play_reaches with (ms := Steps.unanswered). vm_compute. reflexivity.
    + vm_compute. repeat split; congruence.
  - exists Sample.leader_abc, Steps.raced.
    split; [| split].
    + exists (Sample.flags_of "master"), Sample.disk_abc.
      split; vm_compute; reflexivity.
    + apply play_reaches with (ms := Steps.late_entry). vm_compute. reflexivity.
    + vm_compute. repeat split; congruence.
Qed.

(** ** The theorems at sample inputs *)

Lemma AppendLog_standby_witness :
  standby Sample.standby_abc /\
  0 <= current_offset Sample.standby_abc /\
  0 <= 7 < 2 ^ 32 /\
  exists s',
    AppendLog {| req_offset := 7; req_log_data := Sample.hello |} Sample.accepted
      Sample.standby_abc
    = Ret ({| resp_success := true; resp_offset := 0 |}, s') /\
    current_offset s' = 16 /\ applied_offset s' = 16.
Proof.
  assert (standby Sample.standby_abc) as S.
  { apply (standby_boot (Sample.flags_of "slave") Sample.disk_abc);
      vm_compute; reflexivity. }
  assert (0 <= current_offset Sample.standby_abc) as C by (vm_compute; congruence).
  assert (0 <= 7 < 2 ^ 32) as O by lia.
  split; [exact S |]. split; [exact C |]. split; [exact O |].
  destruct (AppendLog_standby Sample.standby_abc
              {| req_offset := 7; req_log_data := Sample.hello |} Sample.accepted S C O)
    as (_ & _ & H).
  destruct H as (s' & H1 & _ & _ & H2 & H3 & _).
  - reflexivity.
  - vm_compute. congruence.
  - exists s'. split; [exact H1 |]. split; [exact H2 | exact H3].
Defined.

Lemma offsets_within_log_witness :
  leader_start Sample.leader_abc /\
  reaches resync_in_log (start Sample.leader_abc) Steps.raced /\
  bounded (shared Steps.raced) /\
  master_only (shared Steps.raced) = false /\
  0 <= applied_offset (shared Steps.raced) <= current_offset (shared Steps.raced) /\
  0 <= sync_offset (shared Steps.raced) <= current_offset (shared Steps.raced).
Proof.
  assert (leader_start Sample.leader_abc) as L.
  { left. exists (Sample.flags_of "master"), Sample.disk_abc.
    split; vm_compute; reflexivity. }
  assert (reaches resync_in_log (start Sample.leader_abc) Steps.raced) as R.
  { apply accepting_resync_in_log.
    apply play_reaches with (ms := Steps.late_entry). vm_compute. reflexivity. }
  assert (bounded (shared Steps.raced)) as B by (vm_compute; congruence).
  split; [exact L |]. split; [exact R |]. split; [exact B |].
  split; [reflexivity |].
  exact (proj1 offsets_within_log _ _ L R B).
Defined.

(** A promoted leader: the standby that came up on the log holding "abc",
    after SwitchToLeader. *)
Lemma promoted_sample : promoted (Sample.after SwitchToLeader Sample.standby_abc).
Proof.
  exists Sample.standby_abc. split; [| split; reflexivity].
  apply (standby_boot (Sample.flags_of "slave") Sample.disk_abc);
    vm_compute; reflexivity.
Qed.

Lemma Log_returns_true_witness :
  exists s', Log Sample.hello 100 Sample.late Sample.leader_empty = Ret (true, s').
Proof.
  apply (proj2 (Log_returns_true Sample.hello 100 Sample.late Sample.leader_empty)).
  - vm_compute. congruence.
  - constructor. right. reflexivity.
Defined.

Lemma partial_record_replicator_and_init_witness :
  Init Sample.disk_abc_torn Sample.blank = Abort.
Proof.
  apply (proj2 (proj2 partial_record_replicator_and_init)
           Sample.disk_abc_torn Sample.blank (encode_int 3 ++ Sample.abc) 5 Sample.abc).
  - reflexivity.
  - reflexivity.
  - unfold INT_MAX. lia.
  - vm_compute. reflexivity.
  - vm_compute. congruence.
Defined.

Lemma callback_called_once_witness :
  leader_start Sample.leader_empty /\
  run any_action Sample.leader_empty Sample.leader_pending /\
  bounded Sample.leader_pending /\
  callbacks Sample.leader_pending !! 0 = Some 1%nat /\
  fired 0 (trace Sample.leader_pending) = 0%nat /\
  exists t, In t (delayed Sample.leader_pending) /\ task_offset t = 0.
Proof.
  assert (leader_start Sample.leader_empty) as L.
  { left. exists (Sample.flags_of "master"), Sample.empty_disk.
    split; vm_compute; reflexivity. }
  assert (run any_action Sample.leader_empty Sample.leader_pending) as R.
  { eapply run_step with (o := OpOther (DoLogAsync Sample.hello 1%nat));
      [apply run_refl | reflexivity | vm_compute; reflexivity]. }
  assert (bounded Sample.leader_pending) as B by (vm_compute; congruence).
  assert (callbacks Sample.leader_pending !! 0 = Some 1%nat) as C
    by (vm_compute; reflexivity).
  split; [exact L |]. split; [exact R |]. split; [exact B |]. split; [exact C |].
  destruct (proj2 (callback_called_once _ _ L R B) 0 1%nat C) as (H1 & H2 & _).
  split; [exact H1 | exact H2].
Defined.

Lemma Log_master_only_no_wait_witness :
  master_only Sample.leader_degraded = true /\
  sync_offset Sample.leader_degraded < current_offset Sample.leader_degraded /\
  Log Sample.abc 100 Sample.late Sample.leader_degraded
  = Ret (true, Sample.after (Log Sample.abc 100 Sample.late) Sample.leader_degraded) /\
  applied_offset (Sample.after (Log Sample.abc 100 Sample.late) Sample.leader_degraded)
  = 16.
Proof.
  split; [reflexivity |]. split; [vm_compute; reflexivity |].
  destruct (Log_master_only_no_wait Sample.leader_degraded Sample.abc 100 Sample.late
              9 (Sample.after (Log_append Sample.abc) Sample.leader_degraded)
              (Sample.after (Log_append Sample.abc) Sample.leader_degraded))
    as (_ & H & _).
  - vm_compute. reflexivity.
  - vm_compute. reflexivity.
  - vm_compute. reflexivity.
  - vm_compute. reflexivity.
  - split; [rewrite H; vm_compute; reflexivity | vm_compute; reflexivity].
Defined.

Lemma ReplicateLog_rewind_witness :
  exists s',
    ReplicateLog_iter (Sample.resync_at 0) Sample.leader_abc_pending
    = Ret (Continue, s') /\
    sync_offset s' = 0 /\ read_log s' = 0.
Proof.
  destruct (ReplicateLog_rewind Sample.leader_abc_pending Sample.hello
              (Sample.after ReadEntry Sample.leader_abc_pending) (Sample.resync_at 0))
    as (s' & H1 & H2 & H3 & _).
  - vm_compute. reflexivity.
  - vm_compute. reflexivity.
  - reflexivity.
  - cbn. lia.
  - cbn. lia.
  - exists s'. split; [exact H1 |]. split; [exact H2 | exact H3].
Defined.

Lemma Init_checkpoint_beyond_log_witness :
  Init Sample.disk_beyond Sample.blank = Abort.
Proof.
  apply (Init_checkpoint_beyond_log Sample.disk_beyond Sample.blank (encode_int 8)).
  - reflexivity.
  - vm_compute. lia.
  - vm_compute. reflexivity.
Defined.

(** ** Records written and read back *)

Lemma str_length_record entry : str_length (record entry) = 4 + str_length entry.
Proof. unfold record. now rewrite str_length_app, str_length_encode. Qed.

Lemma str_length_records_nonneg entries : 0 <= str_length (records entries).
Proof. apply str_length_nonneg. Qed.

Lemma records_cons entry entries :
  records (entry :: entries) = record entry ++ records entries.
Proof. reflexivity. Qed.

Lemma records_app es es' : records (es ++ es') = records es ++ records es'.
Proof. unfold records. apply flat_map_app. Qed.

Lemma skipn_prefix (prefix tail : bytes) :
  skipn (Z.to_nat (str_length prefix)) (prefix ++ tail) = tail.
Proof.
  unfold str_length. rewrite Nat2Z.id, skipn_app, skipn_all, Nat.sub_diag.
  reflexivity.
Qed.

(** ReadEntry in front of a whole record returns the entry and stops
    behind the record. *)
Lemma ReadEntry_record s prefix entry tail :
  read_log s = str_length prefix ->
  sync_log s = prefix ++ record entry ++ tail ->
  str_length entry <= INT_MAX ->
  ReadEntry s = Ret (Some entry, set_read_log (read_log s + 4 + str_length entry) s).
Proof.
  intros Hpos Hlog Hfit.
  pose proof (str_length_nonneg entry) as Ne.
  pose proof (str_length_nonneg prefix) as Np.
  unfold ReadEntry. run. field_simpl_state.
  rewrite Hpos, Hlog, skipn_prefix. unfold record. rewrite <- app_assoc.
  assert (firstn (Z.to_nat 4) (encode_int (str_length entry) ++ entry ++ tail)
          = encode_int (str_length entry)) as F.
  { change (Z.to_nat 4) with (length (encode_int (str_length entry)) + 0)%nat.
    rewrite firstn_app_2. cbn [firstn]. apply app_nil_r. }
  rewrite F, str_length_encode. cbn [Z.eqb Pos.eqb].
  rewrite decode_encode by (unfold in_int, INT_MIN, INT_MAX in *; lia).
  replace (str_length entry <? 0) with false by (symmetry; apply Z.ltb_ge; lia).
  field_simpl_state.
  assert (skipn (Z.to_nat (str_length prefix + 4))
            (prefix ++ encode_int (str_length entry) ++ entry ++ tail)
          = entry ++ tail) as K.
  { replace (Z.to_nat (str_length prefix + 4))
      with (4 + Z.to_nat (str_length prefix))%nat by lia.
    rewrite <- skipn_skipn, skipn_prefix.
    change 4%nat with (length (encode_int (str_length entry))).
    rewrite skipn_app, skipn_all, Nat.sub_diag. reflexivity. }
  rewrite Hlog. unfold record. rewrite <- app_assoc, K.
  assert (firstn (Z.to_nat (str_length entry)) (entry ++ tail) = entry) as G.
  { unfold str_length. rewrite Nat2Z.id.
    replace (length entry) with (length entry + 0)%nat at 1 by lia.
    rewrite firstn_app_2. cbn [firstn]. apply app_nil_r. }
  rewrite G, Z.eqb_refl.
  unfold set_read_log. field_simpl_state. reflexivity.
Qed.

Lemma LogLocal_eq entry s :
  is_leader s = true ->
  str_length entry <= INT_MAX ->
  LogLocal entry s
  = Ret (to_int (str_length entry + 4), set_sync_log (sync_log s ++ record entry) s).
Proof.
  intros L Hfit. pose proof (str_length_nonneg entry) as Ne.
  unfold LogLocal. run. rewrite L. cbn [negb]. field_simpl_state.
  rewrite (to_int_id (str_length entry))
    by (unfold in_int, INT_MIN, INT_MAX in *; lia).
  replace (0 <=? str_length entry) with true by (symmetry; apply Z.leb_le; lia).
  unfold record. now rewrite <- app_assoc.
Qed.

(** The redo loop in front of whole records hands every entry to the
    apply callback, in the order of the file, and stops at its end. *)
Lemma redo_replays es : forall prefix s fuel,
  sync_log s = prefix ++ records es ->
  read_log s = str_length prefix ->
  applied_offset s = str_length prefix ->
  sync_offset s = str_length (sync_log s) ->
  bounded s ->
  (length es <= fuel)%nat ->
  exists s',
    redo fuel s = Ret (tt, s') /\
    applied_offset s' = str_length (sync_log s) /\
    read_log s' = str_length (sync_log s) /\
    trace s' = trace s ++ map EvApply es.
Proof.
  induction es as [| e es IH]; intros prefix s fuel Hlog Hpos Happ Hsync B Hfuel.
  - exists s. cbn [records flat_map] in Hlog. rewrite app_nil_r in Hlog.
    assert ((applied_offset s <? sync_offset s) = false) as E
      by (apply Z.ltb_ge; rewrite Happ, Hsync, Hlog; lia).
    split.
    + destruct fuel; cbn [redo]; run; rewrite E; reflexivity.
    + rewrite Happ, Hpos, Hlog. cbn [map]. rewrite app_nil_r. auto.
  - destruct fuel as [| fuel]; [cbn [length] in Hfuel; lia |].
    cbn [length] in Hfuel.
    rewrite records_cons in Hlog.
    pose proof (str_length_nonneg e) as Ne.
    pose proof (str_length_nonneg prefix) as Np.
    pose proof (str_length_records_nonneg es) as Nr.
    assert (str_length (sync_log s)
            = str_length prefix + (4 + str_length e) + str_length (records es)) as Len
      by (rewrite Hlog, !str_length_app, str_length_record; lia).
    unfold bounded in B.
    assert (str_length e <= INT_MAX) as Hfit by lia.
    cbn [redo]. run.
    replace (applied_offset s <? sync_offset s) with true
      by (symmetry; apply Z.ltb_lt; lia).
    rewrite (ReadEntry_record s prefix e (records es) Hpos Hlog Hfit).
    field_simpl_state.
    rewrite (to_int_id (applied_offset s + _))
      by (unfold in_int, INT_MIN, INT_MAX in *; lia).
    match goal with
    | |- exists s', redo fuel ?st = _ /\ _ =>
        destruct (IH (prefix ++ record e) st fuel) as (s' & R & A & P & T)
    end; field_simpl_state.
    + rewrite Hlog. now rewrite <- app_assoc.
    + rewrite Hpos, str_length_app, str_length_record. lia.
    + rewrite Happ, str_length_app, str_length_record. lia.
    + exact Hsync.
    + exact B.
    + lia.
    + exists s'. split; [exact R |]. split; [exact A |]. split; [exact P |].
      rewrite T. cbn [map]. now rewrite <- app_assoc.
Qed.

Lemma length_records_ge es : (length es <= length (records es))%nat.
Proof.
  induction es as [| e es IH]; [cbn; lia |].
  rewrite records_cons, length_app. unfold record.
  rewrite length_app. unfold encode_int. rewrite length_le_split.
  cbn [length]. lia.
Qed.

Lemma redo_slave_addr fuel : forall s s',
  redo fuel s = Ret (tt, s') -> slave_addr s' = slave_addr s.
Proof.
  induction fuel as [| fuel IH]; intros s s'; cbn [redo]; run.
  - destruct (_ <? _); [discriminate |].
    intros H; apply Ret_pair_inj in H as [_ <-]; reflexivity.
  - destruct (_ <? _).
    2:{ intros H; apply Ret_pair_inj in H as [_ <-]; reflexivity. }
    destruct (ReadEntry s) as [[[entry |] s1] | |] eqn:Rd; try discriminate.
    apply ReadEntry_frame in Rd as [q ->]. intros H. apply IH in H. exact H.
Qed.

(** Init on a log of whole records behind the checkpointed offset: the
    entries behind the checkpoint are replayed, in order, and the node
    comes up with every offset at the end of the log. *)
Lemma Init_replays d s prefix es :
  disk_sync_log d = Content (prefix ++ records es) ->
  (disk_applied_log d = Absent /\ applied_offset s = 0 /\ prefix = [] \/
   exists b, disk_applied_log d = Content b /\
             firstn 4 b = encode_int (str_length prefix)) ->
  str_length (prefix ++ records es) <= INT_MAX ->
  exists s',
    Init d s = Ret (tt, s') /\
    sync_log s' = prefix ++ records es /\
    applied_offset s' = str_length (sync_log s') /\
    sync_offset s' = str_length (sync_log s') /\
    current_offset s' = str_length (sync_log s') /\
    read_log s' = str_length (sync_log s') /\
    trace s' = trace s ++ map EvApply es
               ++ EvGetStub (slave_addr s)
                  :: (if is_leader s then [EvStartWorker] else []).
Proof.
  intros Hlog Hck B.
  pose proof (str_length_nonneg (prefix ++ records es)) as Nl.
  pose proof (str_length_nonneg prefix) as Np.
  assert (str_length prefix <= str_length (prefix ++ records es)) as Hle
    by (rewrite str_length_app; pose proof (str_length_records_nonneg es); lia).
  assert (forall s1 : state,
    sync_log s1 = prefix ++ records es ->
    read_log s1 = str_length prefix ->
    applied_offset s1 = str_length prefix ->
    sync_offset s1 = str_length (sync_log s1) ->
    current_offset s1 = str_length (sync_log s1) ->
    exists s',
      (let! size := get (fun s => length (sync_log s)) in
       redo (S size) ;;
       let! s := get (fun s => s) in
       assert (applied_offset s =? sync_offset s) ;;
       modify (emit (EvGetStub (slave_addr s))) ;;
       if is_leader s then modify (emit EvStartWorker) else ret tt) s1 = Ret (tt, s') /\
      sync_log s' = prefix ++ records es /\
      applied_offset s' = str_length (sync_log s') /\
      sync_offset s' = str_length (sync_log s') /\
      current_offset s' = str_length (sync_log s') /\
      read_log s' = str_length (sync_log s') /\
      trace s' = trace s1 ++ map EvApply es
                 ++ EvGetStub (slave_addr s1)
                    :: (if is_leader s1 then [EvStartWorker] else [])) as tail.
  { intros s1 L P A Sy C.
    destruct (redo_replays es prefix s1 (S (length (sync_log s1))) L P A Sy)
      as (s2 & R & A2 & P2 & T2).
    { unfold bounded. now rewrite L. }
    { rewrite L, length_app. pose proof (length_records_ge es). lia. }
    pose proof (redo_frame _ _ _ R) as (F1 & F2 & F3 & F4 & F5 & F6 & F7 & _).
    pose proof (redo_slave_addr _ _ _ R) as F8.
    run. rewrite R.
    replace (applied_offset s2 =? sync_offset s2) with true
      by (symmetry; apply Z.eqb_eq; congruence).
    rewrite F3, F8.
    destruct (is_leader s1); eexists; (split; [reflexivity |]);
      field_simpl_state; rewrite T2, <- ?app_assoc; cbn [app];
      repeat split; congruence. }
  unfold Init. rewrite Hlog.
  destruct Hck as [(Hab & A0 & ->) | (b & Hb & Hfirst)].
  - rewrite Hab. run. field_simpl_state.
    cbn [app] in *.
    rewrite to_int_id by (unfold in_int, INT_MIN, INT_MAX in *; lia).
    match goal with
    | |- context [redo _ ?st] =>
        destruct (tail st) as (s' & H & Rest)
    end; field_simpl_state; try reflexivity; try assumption.
    run. field_simpl_state.
    exists s'. split; [exact H | exact Rest].
  - rewrite Hb. rewrite Hfirst. run. field_simpl_state.
    rewrite str_length_encode. cbn [Z.eqb Pos.eqb]. run. field_simpl_state.
    rewrite decode_encode by (unfold in_int, INT_MIN, INT_MAX in *; lia).
    rewrite to_int_id by (unfold in_int, INT_MIN, INT_MAX in *; lia).
    replace (str_length prefix <=? _) with true by (symmetry; apply Z.leb_le; lia).
    replace (str_length prefix <? 0) with false by (symmetry; apply Z.ltb_ge; lia).
    field_simpl_state.
    match goal with
    | |- context [redo _ ?st] =>
        destruct (tail st) as (s' & H & Rest)
    end; field_simpl_state; try reflexivity.
    run. field_simpl_state.
    exists s'. split; [exact H | exact Rest].
Qed.

(** ** Start-up and restart *)

(** X1. What LogLocal writes, ReadEntry reads back: on a leader whose read
    position is at the end of the log, LogLocal appends the record of the
    entry and returns its size, and ReadEntry then returns the very entry
    and stops at the new end of the log. *)
Theorem LogLocal_then_ReadEntry s entry :
  is_leader s = true ->
  read_log s = str_length (sync_log s) ->
  str_length entry <= INT_MAX ->
  exists s1,
    LogLocal entry s = Ret (to_int (str_length entry + 4), s1) /\
    sync_log s1 = sync_log s ++ record entry /\
    ReadEntry s1 = Ret (Some entry, set_read_log (str_length (sync_log s1)) s1).
Proof.
  intros L P Hfit. eexists. split; [now apply LogLocal_eq |].
  split; [reflexivity |].
  rewrite (ReadEntry_record _ (sync_log s) entry []); field_simpl_state.
  - rewrite P, str_length_app, str_length_record.
    now rewrite Z.add_assoc.
  - exact P.
  - now rewrite app_nil_r.
  - exact Hfit.
Qed.

(** X2. Start-up without a usable checkpoint (applied.log missing, or
    shorter than four bytes) on a log of whole records replays all of it:
    the apply callback gets every entry once, in the order of the file,
    before the stub is fetched and the worker started, and the node comes
    up with the three offsets and the read position at the end of the
    log. *)
Theorem boot_replays_whole_log f d s0 es :
  MasterSlaveImpl f = Ret s0 ->
  disk_sync_log d = Content (records es) ->
  (disk_applied_log d = Absent \/
   exists b, disk_applied_log d = Content b /\ (length b < 4)%nat) ->
  str_length (records es) <= INT_MAX ->
  exists s,
    boot f d = Ret s /\
    trace s = map EvApply es
              ++ EvGetStub (slave_addr s0)
                 :: (if is_leader s0 then [EvStartWorker] else []) /\
    sync_log s = records es /\
    applied_offset s = str_length (records es) /\
    sync_offset s = str_length (records es) /\
    current_offset s = str_length (records es) /\
    read_log s = str_length (records es).
Proof.
  intros M Hlog Hck B.
  pose proof (MasterSlaveImpl_fresh _ _ M) as (A0 & _ & _ & T0 & _).
  set (d' := {| disk_sync_log := disk_sync_log d; disk_applied_log := Absent |}).
  assert (Init d s0 = Init d' s0) as Same.
  { destruct Hck as [Hab | (b & Hb & Hshort)].
    - destruct d as [l a]. cbn in Hab. subst a. reflexivity.
    - unfold Init. subst d'. cbn [disk_sync_log disk_applied_log]. rewrite Hb.
      replace (str_length (firstn 4 b) =? 4) with false; [reflexivity |].
      symmetry. apply Z.eqb_neq. unfold str_length. rewrite length_firstn. lia. }
  destruct (Init_replays d' s0 [] es) as (s & I & L & A & Sy & C & P & T).
  - exact Hlog.
  - left. auto.
  - exact B.
  - exists s. unfold boot. rewrite M, Same, I. cbn [app] in L.
    rewrite L in *. rewrite T, T0. cbn [app]. auto 10.
Qed.

(** X3. A checkpoint written by LogStatus is what Init reads back.  Take
    the checkpoint LogStatus writes in a state whose [applied_offset_] is
    the length of [prefix]; restart on a log that holds [prefix] and then
    whole records: Init replays exactly the entries behind the checkpoint,
    once each and in order, and comes up with every offset at the end of
    the log. *)
Theorem restart_replays_since_checkpoint d s checkpointed applied_tmp prefix es :
  applied_tmp <> Unreadable ->
  applied_offset checkpointed = str_length prefix ->
  disk_applied_log d = LogStatus applied_tmp checkpointed ->
  disk_sync_log d = Content (prefix ++ records es) ->
  str_length (prefix ++ records es) <= INT_MAX ->
  exists s',
    Init d s = Ret (tt, s') /\
    trace s' = trace s ++ map EvApply es
               ++ EvGetStub (slave_addr s)
                  :: (if is_leader s then [EvStartWorker] else []) /\
    sync_log s' = prefix ++ records es /\
    applied_offset s' = str_length (prefix ++ records es) /\
    sync_offset s' = str_length (prefix ++ records es) /\
    current_offset s' = str_length (prefix ++ records es) /\
    read_log s' = str_length (prefix ++ records es).
Proof.
  intros Htmp Happ Hck Hlog B.
  assert (forall tail, firstn 4 (encode_int (str_length prefix) ++ tail)
                       = encode_int (str_length prefix)) as F.
  { intros tail.
    change 4%nat with (length (encode_int (str_length prefix)) + 0)%nat.
    rewrite firstn_app_2. cbn [firstn]. apply app_nil_r. }
  destruct (Init_replays d s prefix es) as (s' & I & L & A & Sy & C & P & T).
  - exact Hlog.
  - right. unfold LogStatus in Hck. rewrite Happ in Hck.
    destruct applied_tmp as [| | old]; [| congruence |].
    + exists (encode_int (str_length prefix)). split; [exact Hck |].
      rewrite <- (app_nil_r (encode_int _)). apply F.
    + eexists. split; [exact Hck | apply F].
  - exact B.
  - exists s'. rewrite L in *. auto 10.
Qed.

(** X4. Whatever the two files hold, a node that gets through start-up on
    a log that fits an [int] has [applied_offset_], [sync_offset_],
    [current_offset_] and the read position at the end of the log, is not
    in degraded mode, and has no completion callback waiting. *)
Theorem boot_comes_up_level f d s :
  boot f d = Ret s ->
  bounded s ->
  applied_offset s = str_length (sync_log s) /\
  sync_offset s = str_length (sync_log s) /\
  current_offset s = str_length (sync_log s) /\
  read_log s = str_length (sync_log s) /\
  master_only s = false /\
  callbacks s = ∅.
Proof.
  intros H B. apply boot_Init in H as (s0 & M & I).
  apply MasterSlaveImpl_fresh in M as (A0 & D0 & C0 & _ & F0).
  pose proof (Init_read _ _ _ I A0 B) as Hr.
  apply Init_post in I as (Ha & Hs & Hc & _ & _ & Hf & Hcb & Hd).
  pose proof (str_length_nonneg (sync_log s)) as N.
  unfold bounded in B.
  rewrite to_int_id in Hc by (unfold in_int, INT_MIN, INT_MAX in *; lia).
  repeat split; try lia; congruence.
Qed.

Lemma LogLocal_then_ReadEntry_witness :
  exists s1,
    LogLocal Sample.hello Sample.leader_empty = Ret (9, s1) /\
    ReadEntry s1 = Ret (Some Sample.hello, set_read_log 9 s1).
Proof.
  destruct (LogLocal_then_ReadEntry Sample.leader_empty Sample.hello)
    as (s1 & H1 & H2 & H3).
  - reflexivity.
  - reflexivity.
  - vm_compute. congruence.
  - exists s1. split; [exact H1 |].
    rewrite H3, H2. reflexivity.
Defined.

Lemma boot_replays_whole_log_witness :
  exists s,
    boot (Sample.flags_of "slave") Demo.disk_two = Ret s /\
    trace s = [EvApply Sample.abc; EvApply Sample.hello; EvGetStub Sample.node_a] /\
    current_offset s = 16.
Proof.
  destruct (boot_replays_whole_log (Sample.flags_of "slave") Demo.disk_two
              (Sample.booted (MasterSlaveImpl (Sample.flags_of "slave"))) Demo.entries)
    as (s & H1 & H2 & _ & _ & _ & H3 & _).
  - vm_compute. reflexivity.
  - reflexivity.
  - left. reflexivity.
  - vm_compute. congruence.
  - exists s. split; [exact H1 |]. split; [exact H2 | exact H3].
Defined.

Lemma restart_replays_since_checkpoint_witness :
  exists s',
    Init Demo.disk_two_checkpointed Sample.blank = Ret (tt, s') /\
    trace s' = [EvApply Sample.hello; EvGetStub ""] /\
    applied_offset s' = 16.
Proof.
  destruct (restart_replays_since_checkpoint Demo.disk_two_checkpointed Sample.blank
              Sample.standby_abc Absent (record Sample.abc) [Sample.hello])
    as (s' & H1 & H2 & _ & H3 & _).
  - discriminate.
  - reflexivity.
  - reflexivity.
  - reflexivity.
  - vm_compute. congruence.
  - exists s'. split; [exact H1 |]. split; [exact H2 | exact H3].
Defined.

Lemma boot_comes_up_level_witness :
  applied_offset Sample.leader_abc = 7 /\ read_log Sample.leader_abc = 7.
Proof.
  destruct (boot_comes_up_level (Sample.flags_of "master") Sample.disk_abc
              Sample.leader_abc) as (H1 & _ & _ & H4 & _).
  - vm_compute. reflexivity.
  - vm_compute. congruence.
  - split; [exact H1 | exact H4].
Defined.

(** ** Shipping the log *)

Lemma sent_app tr tr' : sent (tr ++ tr') = sent tr ++ sent tr'.
Proof.
  induction tr as [| e tr IH]; [reflexivity |].
  cbn [app sent]. destruct e; try exact IH. cbn [app]. now rewrite IH.
Qed.

Lemma sent_after_PorcessCallbck offset len timeout_check s :
  sent (trace (after_PorcessCallbck offset len timeout_check s)) = sent (trace s).
Proof.
  rewrite after_PorcessCallbck_eq.
  destruct (callbacks s !! offset) as [c |]; [| reflexivity].
  cbv zeta.
  destruct (to_int (offset + len) >? applied_offset s);
    destruct (timeout_check && negb (master_only s)); field_simpl_state;
    rewrite sent_app; cbn [sent]; apply app_nil_r.
Qed.

(** One round of ReplicateLog in front of a whole record, the standby
    accepting: the entry goes out under [sync_offset_], which then moves
    behind the record, and the flag is cleared if that is the end. *)
Lemma accepted_round prefix e es s r :
  ships_from prefix (e :: es) s ->
  resp_success r = true ->
  exists s1 s2,
    ReplicateLog_head s = Ret (inr e, s1) /\
    sync_offset s1 = str_length prefix /\
    ReplicateLog_reply e r s1 = Ret (tt, s2) /\
    ships_from (prefix ++ record e) es s2 /\
    sent (trace s2)
    = sent (trace s) ++ [{| req_offset := to_uint32 (str_length prefix);
                           req_log_data := e |}] /\
    master_only s2 = match es with [] => false | _ :: _ => master_only s end /\
    is_leader s2 = is_leader s /\
    delayed s2 = delayed s.
Proof.
  intros [Hlog Hpos Hsync Hcur B] Hok.
  rewrite records_cons in Hlog.
  pose proof (str_length_nonneg e) as Ne.
  pose proof (str_length_nonneg prefix) as Np.
  pose proof (str_length_records_nonneg es) as Nr.
  assert (str_length (sync_log s)
          = str_length prefix + (4 + str_length e) + str_length (records es)) as Len
    by (rewrite Hlog, !str_length_app, str_length_record; lia).
  unfold bounded in B.
  assert (str_length e <= INT_MAX) as Hfit by lia.
  assert (ReplicateLog_head s
          = Ret (inr e, set_read_log (read_log s + 4 + str_length e) s)) as Hhead.
  { unfold ReplicateLog_head. run.
    replace (sync_offset s <? current_offset s) with true
      by (symmetry; apply Z.ltb_lt; lia).
    replace (sync_offset s =? current_offset s) with false
      by (symmetry; apply Z.eqb_neq; lia).
    cbn [andb negb].
    now rewrite (ReadEntry_record s prefix e (records es) Hpos Hlog Hfit). }
  set (s1 := set_read_log (read_log s + 4 + str_length e) s) in *.
  set (s1' := emit (EvSend {| req_offset := to_uint32 (sync_offset s1);
                              req_log_data := e |}) s1).
  pose proof (after_PorcessCallbck_frame (sync_offset s1)
                (to_int (str_length e + 4)) false s1') as F.
  cbv zeta in F.
  pose proof (sent_after_PorcessCallbck (sync_offset s1)
                (to_int (str_length e + 4)) false s1') as St.
  set (s2 := after_PorcessCallbck _ _ _ s1') in *.
  destruct F as (F1 & F2 & F3 & F4 & F5 & F6 & _ & F8 & _).
  destruct F8 as [F8 | [F8 _]]; [| discriminate].
  set (s3 := set_sync_offset (to_int (sync_offset s2 + (4 + str_length e))) s2).
  exists s1, (if master_only s3 && (sync_offset s3 =? current_offset s3)
              then set_master_only false s3 else s3).
  split; [exact Hhead |]. split; [subst s1; exact Hsync |].
  split.
  { unfold ReplicateLog_reply. run. fold s1'. rewrite Hok. cbn [negb].
    rewrite PorcessCallbck_after. fold s2. unfold s3. field_simpl_state.
    destruct (master_only s2 && _); reflexivity. }
  assert (sync_offset s3 = str_length prefix + (4 + str_length e)) as S3.
  { subst s3. field_simpl_state. rewrite F4. subst s1' s1. field_simpl_state.
    rewrite Hsync. apply to_int_id. unfold in_int, INT_MIN, INT_MAX in *. lia. }
  assert (sync_log s3 = sync_log s /\ read_log s3 = read_log s + 4 + str_length e /\
          current_offset s3 = current_offset s /\ master_only s3 = master_only s /\
          sent (trace s3) = sent (trace s) ++ [{| req_offset := to_uint32 (str_length prefix);
                                                 req_log_data := e |}] /\
          is_leader s3 = is_leader s /\ delayed s3 = delayed s)
    as (L3 & R3 & C3 & M3 & T3 & I3 & D3).
  { subst s3. field_simpl_state. rewrite F1, F2, F3, F5, F6, F8, St.
    subst s1' s1. field_simpl_state. rewrite sent_app, Hsync. cbn [sent].
    repeat split. }
  assert ((sync_offset s3 =? current_offset s3)
          = match es with [] => true | _ :: _ => false end) as End.
  { rewrite S3, C3, Hcur, Len. destruct es as [| e' es'].
    - apply Z.eqb_eq. change (str_length (records [])) with 0. lia.
    - apply Z.eqb_neq. rewrite records_cons, str_length_app, str_length_record.
      pose proof (str_length_nonneg e'). pose proof (str_length_records_nonneg es'). lia. }
  rewrite End, M3.
  destruct es as [| e' es']; destruct (master_only s) eqn:Fl; cbn [andb];
    (split; [constructor; field_simpl_state;
               rewrite ?L3, ?R3, ?C3, ?S3, ?Hlog, ?Hpos, ?Hcur, ?str_length_app,
                 ?str_length_record;
               try (unfold bounded; field_simpl_state; rewrite ?L3); try lia;
               try (rewrite <- app_assoc; reflexivity)
            | field_simpl_state; rewrite ?T3, ?M3, ?I3, ?D3; auto]).
Qed.

(** X5. ReplicateLog in front of whole records, every request accepted:
    the entries go out one by one, each under the offset its record starts
    at, in the order of the log; the function returns with [sync_offset_]
    and [applied_offset_] at [current_offset_], the read position at the
    end of the log, the degraded flag cleared if anything was shipped, and
    the answers it did not need left over. *)
Theorem ReplicateLog_drains es : forall prefix s rs net,
  ships_from prefix es s ->
  length rs = length es ->
  Forall (fun r => resp_success r = true) rs ->
  exists s',
    ReplicateLog (map Reply rs ++ net) s = Ret (net, s') /\
    sent (trace s') = sent (trace s) ++ requests_from (str_length prefix) es /\
    sync_offset s' = current_offset s /\
    applied_offset s' = current_offset s /\
    read_log s' = current_offset s /\
    current_offset s' = current_offset s /\
    sync_log s' = sync_log s /\
    master_only s' = match es with [] => master_only s | _ :: _ => false end.
Proof.
  induction es as [| e es IH]; intros prefix s rs net Sh Hlen Hok.
  - destruct rs; [| discriminate]. cbn [map app].
    destruct Sh as [Hlog Hpos Hsync Hcur B].
    cbn [records flat_map] in Hlog. rewrite app_nil_r in Hlog.
    assert (sync_offset s = current_offset s) as E by (rewrite Hsync, Hcur, Hlog; reflexivity).
    unfold ReplicateLog. cbn [ReplicateLog_loop]. unfold bind, ReplicateLog_head. run.
    replace (sync_offset s <? current_offset s) with false
      by (symmetry; apply Z.ltb_ge; lia).
    cbn [andb]. eexists. split; [reflexivity |]. field_simpl_state.
    rewrite sent_app. cbn [sent requests_from]. rewrite !app_nil_r.
    repeat split; congruence.
  - destruct rs as [| r rs]; [discriminate |].
    cbn [length] in Hlen. inversion Hok as [| ? ? Hr Hrs]; subst.
    destruct (accepted_round prefix e es s r Sh Hr)
      as (s1 & s2 & Hhead & _ & Hreply & Sh2 & T2 & M2 & _).
    destruct (IH (prefix ++ record e) s2 rs net Sh2) as (s' & R & T & Rest);
      [lia | exact Hrs |].
    exists s'. split.
    { cbn [map app]. unfold ReplicateLog in *.
      cbn [length ReplicateLog_loop SendRequest_retry]. unfold bind.
      rewrite Hhead, Hreply. exact R. }
    destruct Sh as [Hlog Hpos Hsync Hcur B].
    destruct Sh2 as [Hlog2 Hpos2 Hsync2 Hcur2 B2].
    assert (current_offset s2 = current_offset s /\ sync_log s2 = sync_log s) as [C2 L2].
    { rewrite Hcur2, Hcur, Hlog2, Hlog, records_cons, <- app_assoc. auto. }
    rewrite C2, L2 in Rest.
    destruct Rest as (R1 & R2 & R3 & R4 & R5 & R6).
    split.
    { rewrite T, T2, <- app_assoc. cbn [requests_from app].
      rewrite str_length_app, str_length_record. reflexivity. }
    repeat split; try assumption.
    rewrite R6, M2. destruct es; reflexivity.
Qed.

Lemma ReadEntry_eof s :
  0 <= read_log s ->
  str_length (sync_log s) <= read_log s ->
  ReadEntry s = Abort.
Proof.
  intros Hpos Hend. unfold ReadEntry. run. field_simpl_state.
  rewrite skipn_all2 by (unfold str_length in Hend; lia).
  reflexivity.
Qed.

(** One round of ReplicateLog in front of a whole record, refused with
    -1: the request went out, and nothing moved but the read position. *)
Lemma stale_round s prefix e tail r :
  sync_log s = prefix ++ record e ++ tail ->
  read_log s = str_length prefix ->
  sync_offset s < current_offset s ->
  bounded s ->
  resp_success r = false ->
  resp_offset r = -1 ->
  exists s1,
    ReplicateLog_head s = Ret (inr e, s1) /\
    sync_offset s1 = sync_offset s /\
    ReplicateLog_reply e r s1
    = Ret (tt, emit (EvSend {| req_offset := to_uint32 (sync_offset s);
                               req_log_data := e |})
                 (set_read_log (str_length prefix + (4 + str_length e)) s)).
Proof.
  intros Hlog Hpos Hlt B Hfail Hoff.
  pose proof (str_length_nonneg e) as Ne.
  pose proof (str_length_nonneg prefix) as Np.
  pose proof (str_length_nonneg tail) as Nt.
  unfold bounded in B.
  assert (str_length e <= INT_MAX) as Hfit
    by (rewrite Hlog, !str_length_app, str_length_record in B; lia).
  exists (set_read_log (read_log s + 4 + str_length e) s).
  split; [| split; [reflexivity |]].
  - unfold ReplicateLog_head. run.
    replace (sync_offset s <? current_offset s) with true
      by (symmetry; apply Z.ltb_lt; lia).
    replace (sync_offset s =? current_offset s) with false
      by (symmetry; apply Z.eqb_neq; lia).
    cbn [andb negb].
    now rewrite (ReadEntry_record s prefix e tail Hpos Hlog Hfit).
  - unfold ReplicateLog_reply. run. field_simpl_state.
    rewrite Hfail, Hoff, Hpos. cbn [negb Z.eqb]. unfold ret.
    now rewrite <- Z.add_assoc.
Qed.

(** X6. The standby refusing every request with -1 is fatal for the
    leader.  In front of whole records, with unacknowledged bytes left and
    every answer success=false, offset=-1, ReplicateLog sends the entries
    one after the other, all under the same unchanged [sync_offset_], and
    when the read position reaches the end of the log the next ReadEntry
    fails assert(ret == 4): the process aborts. *)
Theorem ReplicateLog_stale_aborts es : forall prefix s rs net,
  sync_log s = prefix ++ records es ->
  read_log s = str_length prefix ->
  current_offset s = str_length (sync_log s) ->
  sync_offset s < current_offset s ->
  bounded s ->
  length rs = length es ->
  Forall (fun r => resp_success r = false /\ resp_offset r = -1) rs ->
  ReplicateLog (map Reply rs ++ net) s = Abort.
Proof.
  induction es as [| e es IH]; intros prefix s rs net Hlog Hpos Hcur Hlt B Hlen Hst.
  - cbn [records flat_map] in Hlog. rewrite app_nil_r in Hlog.
    unfold ReplicateLog. cbn [ReplicateLog_loop]. unfold bind, ReplicateLog_head. run.
    replace (sync_offset s <? current_offset s) with true
      by (symmetry; apply Z.ltb_lt; lia).
    replace (sync_offset s =? current_offset s) with false
      by (symmetry; apply Z.eqb_neq; lia).
    cbn [andb negb].
    rewrite ReadEntry_eof; [reflexivity | |];
      rewrite Hpos; [apply str_length_nonneg | rewrite Hlog; lia].
  - destruct rs as [| r rs]; [discriminate |].
    cbn [length] in Hlen. inversion Hst as [| ? ? [Hf Ho] Hrs]; subst.
    rewrite records_cons in Hlog.
    destruct (stale_round s prefix e (records es) r Hlog Hpos Hlt B Hf Ho)
      as (s1 & Hhead & _ & Hreply).
    cbn [map app]. unfold ReplicateLog in *.
    cbn [length ReplicateLog_loop SendRequest_retry]. unfold bind.
    rewrite Hhead, Hreply.
    apply (IH (prefix ++ record e)); field_simpl_state.
    + rewrite Hlog. now rewrite <- app_assoc.
    + now rewrite str_length_app, str_length_record.
    + exact Hcur.
    + exact Hlt.
    + exact B.
    + lia.
    + exact Hrs.
Qed.

(** ** The two nodes together *)

Lemma AppendLog_accepts sb e fresh :
  0 <= current_offset sb ->
  current_offset sb + (4 + str_length e) <= INT_MAX ->
  AppendLog {| req_offset := to_uint32 (current_offset sb); req_log_data := e |} fresh sb
  = Ret ({| resp_success := true; resp_offset := resp_offset fresh |},
         set_applied_offset (current_offset sb + (4 + str_length e))
           (set_current_offset (current_offset sb + (4 + str_length e))
              (emit (EvApply e) (set_sync_log (sync_log sb ++ record e) sb)))).
Proof.
  intros Hpos Hfit. pose proof (str_length_nonneg e) as Ne.
  unfold AppendLog. run. cbn [req_offset req_log_data].
  rewrite Z.gtb_ltb, Z.ltb_irrefl. field_simpl_state.
  rewrite (to_int_id (str_length e)) by (unfold in_int, INT_MIN, INT_MAX in *; lia).
  rewrite (to_int_id (str_length e + 4)) by (unfold in_int, INT_MIN, INT_MAX in *; lia).
  rewrite (to_int_id (current_offset sb + _))
    by (unfold in_int, INT_MIN, INT_MAX in *; lia).
  assert (Z.to_nat (str_length e) = length e) as N by (unfold str_length; lia).
  rewrite N, firstn_all. unfold record.
  rewrite <- app_assoc. replace (str_length e + 4) with (4 + str_length e) by lia.
  reflexivity.
Qed.

Lemma AppendLog_refuses sb request fresh :
  0 <= current_offset sb <= INT_MAX ->
  0 <= req_offset request < 2 ^ 32 ->
  req_offset request <> current_offset sb ->
  AppendLog request fresh sb
  = Ret ({| resp_success := false;
            resp_offset := if req_offset request >? current_offset sb
                           then current_offset sb else -1 |}, sb).
Proof.
  intros Hcur Hreq Hne. unfold AppendLog. run.
  rewrite (to_uint32_id (current_offset sb)) by (unfold INT_MAX in *; lia).
  destruct (req_offset request >? current_offset sb) eqn:G; [reflexivity |].
  replace (req_offset request <? current_offset sb) with true; [reflexivity |].
  symmetry. apply Z.ltb_lt.
  rewrite Z.gtb_ltb in G. apply Z.ltb_ge in G. lia.
Qed.

(** Shipping to a standby that stands where the leader's [sync_offset_]
    is: every entry is accepted, appended and applied. *)
Lemma replicate_to_ships es : forall prefix leader sb fuel fresh,
  ships_from prefix es leader ->
  current_offset sb = str_length prefix ->
  applied_offset sb = current_offset sb ->
  (length es < fuel)%nat ->
  exists leader' sb',
    replicate_to fuel fresh leader sb = Ret (leader', sb') /\
    sync_log sb' = sync_log sb ++ records es /\
    trace sb' = trace sb ++ map EvApply es /\
    current_offset sb' = current_offset leader /\
    applied_offset sb' = current_offset leader /\
    sync_log leader' = sync_log leader /\
    current_offset leader' = current_offset leader /\
    sync_offset leader' = current_offset leader /\
    applied_offset leader' = current_offset leader /\
    master_only leader' = match es with [] => master_only leader | _ :: _ => false end.
Proof.
  induction es as [| e es IH]; intros prefix leader sb fuel fresh Sh Hsb Hap Hfuel.
  - destruct fuel as [| fuel]; [cbn [length] in Hfuel; lia |].
    destruct Sh as [Hlog Hpos Hsync Hcur B].
    cbn [records flat_map] in Hlog. rewrite app_nil_r in Hlog.
    assert (sync_offset leader = current_offset leader) as E
      by (rewrite Hsync, Hcur, Hlog; reflexivity).
    cbn [replicate_to]. unfold ReplicateLog_head. run.
    replace (sync_offset leader <? current_offset leader) with false
      by (symmetry; apply Z.ltb_ge; lia).
    cbn [andb]. do 2 eexists. split; [reflexivity |]. field_simpl_state.
    cbn [records flat_map map]. rewrite !app_nil_r.
    repeat split; congruence.
  - destruct fuel as [| fuel]; [cbn [length] in Hfuel; lia |].
    cbn [length] in Hfuel.
    pose proof (str_length_nonneg e) as Ne.
    pose proof (str_length_nonneg prefix) as Np.
    pose proof (str_length_records_nonneg es) as Nr.
    assert (current_offset sb + (4 + str_length e) <= INT_MAX) as Hfit.
    { destruct Sh as [Hlog _ _ _ B]. unfold bounded in B.
      rewrite Hlog, records_cons, !str_length_app, str_length_record in B. lia. }
    destruct (accepted_round prefix e es leader
                {| resp_success := true; resp_offset := resp_offset fresh |} Sh eq_refl)
      as (s1 & s2 & Hhead & Hs1 & Hreply & Sh2 & _ & M2 & _).
    cbn [replicate_to]. rewrite Hhead, Hs1, <- Hsb.
    rewrite AppendLog_accepts by lia.
    rewrite Hreply.
    match goal with
    | |- context [replicate_to fuel fresh s2 ?st] =>
        destruct (IH (prefix ++ record e) s2 st fuel fresh Sh2)
          as (leader' & sb' & R & L & T & C & A & Rest)
    end; field_simpl_state.
    + rewrite Hsb, str_length_app, str_length_record. reflexivity.
    + reflexivity.
    + lia.
    + exists leader', sb'. split; [exact R |].
      destruct Sh as [Hlog Hpos Hsync Hcur B].
      destruct Sh2 as [Hlog2 Hpos2 Hsync2 Hcur2 B2].
      assert (current_offset s2 = current_offset leader /\ sync_log s2 = sync_log leader)
        as [C2 L2].
      { rewrite Hcur2, Hcur, Hlog2, Hlog, records_cons, <- app_assoc. auto. }
      rewrite C2, L2 in *.
      destruct Rest as (R1 & R2 & R3 & R4 & R5).
      rewrite records_cons. cbn [map].
      rewrite L, T, <- !app_assoc. cbn [app].
      repeat split; try assumption.
      rewrite R5, M2. destruct es; reflexivity.
Qed.

(** X7. A standby that holds the log up to the leader's [sync_offset_] is
    brought level by one call of ReplicateLog: every entry behind it is
    accepted, appended and applied once, in the order of the leader's
    log; afterwards the two logs are equal, the standby's
    [current_offset_] and [applied_offset_] and the leader's
    [sync_offset_] and [applied_offset_] all stand at the leader's
    [current_offset_], and the leader is out of degraded mode if anything
    was shipped. *)
Theorem standby_brought_level prefix es leader sb fuel fresh :
  ships_from prefix es leader ->
  sync_log sb = prefix ->
  current_offset sb = str_length prefix ->
  applied_offset sb = current_offset sb ->
  (length es < fuel)%nat ->
  exists leader' sb',
    replicate_to fuel fresh leader sb = Ret (leader', sb') /\
    sync_log sb' = sync_log leader' /\
    sync_log leader' = sync_log leader /\
    trace sb' = trace sb ++ map EvApply es /\
    current_offset sb' = current_offset leader /\
    applied_offset sb' = current_offset leader /\
    sync_offset leader' = current_offset leader /\
    applied_offset leader' = current_offset leader /\
    current_offset leader' = current_offset leader /\
    master_only leader' = match es with [] => master_only leader | _ :: _ => false end.
Proof.
  intros Sh Hlog Hcur Happ Hfuel.
  destruct (replicate_to_ships es prefix leader sb fuel fresh Sh Hcur Happ Hfuel)
    as (leader' & sb' & R & L & T & C & A & L' & C' & S' & A' & M').
  exists leader', sb'. destruct Sh as [Hl _ _ _ _].
  repeat split; try assumption.
  rewrite L, L', Hl, Hlog. reflexivity.
Qed.

(** One round of ReplicateLog in front of a whole record, refused with a
    resync offset: [sync_offset_] and the read position go there. *)
Lemma rewind_round s prefix e tail r :
  sync_log s = prefix ++ record e ++ tail ->
  read_log s = str_length prefix ->
  sync_offset s < current_offset s ->
  bounded s ->
  resp_success r = false ->
  0 <= resp_offset r ->
  exists s1,
    ReplicateLog_head s = Ret (inr e, s1) /\
    sync_offset s1 = sync_offset s /\
    ReplicateLog_reply e r s1
    = Ret (tt, set_read_log (resp_offset r)
                 (set_sync_offset (resp_offset r)
                    (emit (EvSend {| req_offset := to_uint32 (sync_offset s);
                                     req_log_data := e |})
                       (set_read_log (str_length prefix + (4 + str_length e)) s)))).
Proof.
  intros Hlog Hpos Hlt B Hfail Hoff.
  pose proof (str_length_nonneg e) as Ne.
  pose proof (str_length_nonneg prefix) as Np.
  pose proof (str_length_nonneg tail) as Nt.
  unfold bounded in B.
  assert (str_length e <= INT_MAX) as Hfit
    by (rewrite Hlog, !str_length_app, str_length_record in B; lia).
  exists (set_read_log (read_log s + 4 + str_length e) s).
  split; [| split; [reflexivity |]].
  - unfold ReplicateLog_head. run.
    replace (sync_offset s <? current_offset s) with true
      by (symmetry; apply Z.ltb_lt; lia).
    replace (sync_offset s =? current_offset s) with false
      by (symmetry; apply Z.eqb_neq; lia).
    cbn [andb negb].
    now rewrite (ReadEntry_record s prefix e tail Hpos Hlog Hfit).
  - unfold ReplicateLog_reply. run. field_simpl_state.
    rewrite Hfail, Hpos. cbn [negb].
    replace (resp_offset r =? -1) with false by (symmetry; apply Z.eqb_neq; lia).
    cbn [negb]. run. field_simpl_state.
    replace (resp_offset r <? 0) with false by (symmetry; apply Z.ltb_ge; lia).
    rewrite Z.eqb_refl. now rewrite <- Z.add_assoc.
Qed.

(** X8. A standby that fell behind is brought level too.  The leader
    believes the standby holds the log up to [sync_offset_], the standby
    holds less (the log up to an earlier record boundary), and there is
    something left to ship.  The first request is refused with the
    standby's [current_offset_]; the leader goes back there and ships
    everything from that point on.  Afterwards the two logs are equal and
    the standby has applied, once and in order, exactly the entries it
    was missing. *)
Theorem standby_behind_brought_level held missed ahead leader sb fuel fresh :
  ships_from (held ++ records missed) ahead leader ->
  missed <> [] ->
  ahead <> [] ->
  sync_log sb = held ->
  current_offset sb = str_length held ->
  applied_offset sb = current_offset sb ->
  (S (length (missed ++ ahead)) < fuel)%nat ->
  exists leader' sb',
    replicate_to fuel fresh leader sb = Ret (leader', sb') /\
    sync_log sb' = sync_log leader' /\
    sync_log leader' = sync_log leader /\
    trace sb' = trace sb ++ map EvApply (missed ++ ahead) /\
    current_offset sb' = current_offset leader /\
    sync_offset leader' = current_offset leader /\
    master_only leader' = false.
Proof.
  intros [Hlog Hpos Hsync Hcur B] Hmissed Hahead Hsb Hsbcur Hsbapp Hfuel.
  destruct ahead as [| e ahead]; [congruence |]. clear Hahead.
  destruct fuel as [| fuel]; [lia |].
  rewrite records_cons in Hlog.
  pose proof (str_length_nonneg e) as Ne.
  pose proof (str_length_nonneg held) as Nh.
  pose proof (str_length_records_nonneg ahead) as Na.
  assert (4 <= str_length (records missed)) as Nm.
  { destruct missed as [| m missed]; [congruence |].
    rewrite records_cons, str_length_app, str_length_record.
    pose proof (str_length_nonneg m). pose proof (str_length_records_nonneg missed). lia. }
  assert (str_length (sync_log leader)
          = str_length held + str_length (records missed)
            + (4 + str_length e) + str_length (records ahead)) as Len
    by (rewrite Hlog, !str_length_app, str_length_record; lia).
  pose proof B as B'. unfold bounded in B'.
  rewrite str_length_app in Hpos, Hsync.
  destruct (rewind_round leader (held ++ records missed) e (records ahead)
              {| resp_success := false; resp_offset := current_offset sb |})
    as (s1 & Hhead & Hs1 & Hreply); try assumption; try reflexivity.
  { now rewrite str_length_app. }
  { lia. }
  { cbn [resp_offset]. lia. }
  cbn [replicate_to]. rewrite Hhead, Hs1.
  rewrite AppendLog_refuses; cbn [req_offset];
    rewrite ?(to_uint32_id (sync_offset leader)) by (unfold INT_MAX in *; lia);
    try (unfold INT_MAX in *; lia).
  replace (sync_offset leader >? current_offset sb) with true
    by (symmetry; apply Z.gtb_lt; lia).
  rewrite Hreply. cbn [resp_offset].
  match goal with
  | |- context [replicate_to fuel fresh ?st sb] =>
      destruct (replicate_to_ships (missed ++ e :: ahead) held st sb fuel fresh)
        as (leader' & sb' & R & L & T & C & A & L' & C' & S' & A' & M')
  end; try assumption.
  - constructor; field_simpl_state; try assumption; try lia.
    rewrite Hlog, records_app, records_cons, <- !app_assoc. reflexivity.
  - lia.
  - exists leader', sb'. field_simpl_state.
    split; [exact R |].
    repeat split; try assumption.
    + rewrite L, L', Hsb, Hlog, records_app, records_cons, <- !app_assoc. reflexivity.
    + rewrite M'. destruct missed; [congruence | reflexivity].
Qed.

Lemma replicate_to_stale es : forall prefix leader sb fuel fresh,
  sync_log leader = prefix ++ records es ->
  read_log leader = str_length prefix ->
  current_offset leader = str_length (sync_log leader) ->
  0 <= sync_offset leader < current_offset leader ->
  sync_offset leader < current_offset sb <= INT_MAX ->
  bounded leader ->
  (length es < fuel)%nat ->
  replicate_to fuel fresh leader sb = Abort.
Proof.
  induction es as [| e es IH];
    intros prefix leader sb fuel fresh Hlog Hpos Hcur Hsync Hsb B Hfuel;
    (destruct fuel as [| fuel]; [cbn [length] in Hfuel; lia |]);
    cbn [length] in Hfuel.
  - cbn [records flat_map] in Hlog. rewrite app_nil_r in Hlog.
    cbn [replicate_to]. unfold ReplicateLog_head. run.
    replace (sync_offset leader <? current_offset leader) with true
      by (symmetry; apply Z.ltb_lt; lia).
    replace (sync_offset leader =? current_offset leader) with false
      by (symmetry; apply Z.eqb_neq; lia).
    cbn [andb negb].
    rewrite ReadEntry_eof; [reflexivity | |];
      rewrite Hpos; [apply str_length_nonneg | rewrite Hlog; lia].
  - rewrite records_cons in Hlog.
    destruct (stale_round leader prefix e (records es)
                {| resp_success := false; resp_offset := -1 |})
      as (s1 & Hhead & Hs1 & Hreply); try assumption; try reflexivity; try lia.
    cbn [replicate_to]. rewrite Hhead, Hs1.
    unfold bounded in B.
    rewrite AppendLog_refuses; cbn [req_offset];
      rewrite ?(to_uint32_id (sync_offset leader)) by (unfold INT_MAX in *; lia);
      try (unfold INT_MAX in *; lia).
    replace (sync_offset leader >? current_offset sb) with false
      by (symmetry; rewrite Z.gtb_ltb; apply Z.ltb_ge; lia).
    rewrite Hreply.
    apply (IH (prefix ++ record e)); field_simpl_state; try assumption; try lia.
    + rewrite Hlog. now rewrite <- app_assoc.
    + now rewrite str_length_app, str_length_record.
Qed.

(** X9. Promotion against a peer that kept its log ends in an abort.
    SwitchToLeader puts [sync_offset_] and the read position at 0; a peer
    whose [current_offset_] is above 0 refuses every request as stale, so
    the new leader offers entry after entry under offset 0, reaches the
    end of its log with [sync_offset_] still 0, and fails
    assert(ret == 4) in ReadEntry. *)
Theorem promoted_leader_aborts_on_peer_with_log s es peer fuel fresh :
  sync_log s = records es ->
  es <> [] ->
  current_offset s = str_length (sync_log s) ->
  bounded s ->
  0 < current_offset peer <= INT_MAX ->
  (length es < fuel)%nat ->
  exists s1,
    SwitchToLeader s = Ret (tt, s1) /\
    is_leader s1 = true /\
    replicate_to fuel fresh s1 peer = Abort.
Proof.
  intros Hlog Hes Hcur B Hpeer Hfuel.
  eexists. split; [reflexivity |]. split; [reflexivity |].
  assert (4 <= str_length (records es)) as Nm.
  { destruct es as [| m es]; [congruence |].
    rewrite records_cons, str_length_app, str_length_record.
    pose proof (str_length_nonneg m). pose proof (str_length_records_nonneg es). lia. }
  apply (replicate_to_stale es []); field_simpl_state; try assumption;
    try reflexivity; rewrite ?Hcur, ?Hlog; lia.
Qed.

(** Reading a record that was cut short uses up the file. *)
Lemma ReadEntry_partial_end s :
  partial_record s ->
  ReadEntry s = Ret (None, set_read_log (str_length (sync_log s)) s).
Proof.
  intros (Hpos & n & rest & Hskip & Hn & Hshort).
  assert (str_length (sync_log s) = read_log s + 4 + str_length rest) as Len.
  { pose proof (length_skipn (Z.to_nat (read_log s)) (sync_log s)) as L.
    rewrite Hskip, length_app in L. unfold encode_int in L.
    rewrite length_le_split in L. unfold str_length. lia. }
  unfold ReadEntry. run. field_simpl_state.
  rewrite Hskip.
  assert (firstn (Z.to_nat 4) (encode_int n ++ rest) = encode_int n) as F.
  { change (Z.to_nat 4) with (length (encode_int n) + 0)%nat.
    rewrite firstn_app_2. cbn [firstn]. apply app_nil_r. }
  rewrite F, str_length_encode. cbn [Z.eqb Pos.eqb].
  rewrite decode_encode by (unfold in_int, INT_MIN; lia).
  replace (n <? 0) with false by (symmetry; apply Z.ltb_ge; lia).
  field_simpl_state.
  assert (skipn (Z.to_nat (read_log s + 4)) (sync_log s) = rest) as K.
  { replace (Z.to_nat (read_log s + 4)) with (4 + Z.to_nat (read_log s))%nat by lia.
    rewrite <- skipn_skipn, Hskip.
    change 4%nat with (length (encode_int n)). rewrite skipn_app.
    rewrite skipn_all, Nat.sub_diag. reflexivity. }
  rewrite K.
  rewrite firstn_all2 by (unfold str_length in Hshort; lia).
  replace (str_length rest =? n) with false by (symmetry; apply Z.eqb_neq; lia).
  rewrite Len. unfold set_read_log. field_simpl_state. reflexivity.
Qed.

(** X10. The pass that runs after a record cut short aborts.  ReplicateLog
    returns from the incomplete record with the read position at the end
    of the file and [sync_offset_] still below [current_offset_]; called
    again, as BackgroundLog does at once, it finds nothing to read and
    fails assert(ret == 4) in ReadEntry, whatever the standby would have
    answered. *)
Theorem pass_after_partial_record_aborts s net :
  partial_record s ->
  sync_offset s < current_offset s ->
  exists s1,
    ReplicateLog net s = Ret (net, s1) /\
    sync_offset s1 = sync_offset s /\
    current_offset s1 = current_offset s /\
    read_log s1 = str_length (sync_log s1) /\
    forall net', ReplicateLog net' s1 = Abort.
Proof.
  intros P Hlt.
  pose proof (ReadEntry_partial_end s P) as R.
  exists (set_read_log (str_length (sync_log s)) s).
  assert (forall st, sync_offset st < current_offset st ->
            ReplicateLog_head st
            = match ReadEntry st with
              | Ret (Some entry, st') => Ret (inr entry, st')
              | Ret (None, st') => Ret (inl Incomplete, st')
              | Abort => Abort
              | Pending => Pending
              end) as Head.
  { intros st H. unfold ReplicateLog_head. run.
    replace (sync_offset st <? current_offset st) with true
      by (symmetry; apply Z.ltb_lt; lia).
    replace (sync_offset st =? current_offset st) with false
      by (symmetry; apply Z.eqb_neq; lia).
    cbn [andb negb]. destruct (ReadEntry st) as [[[e |] st'] | |]; reflexivity. }
  split; [| repeat split].
  - unfold ReplicateLog. cbn [ReplicateLog_loop]. unfold bind.
    rewrite (Head s Hlt), R. reflexivity.
  - intros net'. unfold ReplicateLog. cbn [ReplicateLog_loop]. unfold bind.
    rewrite Head by exact Hlt.
    rewrite ReadEntry_eof; [reflexivity | |]; field_simpl_state;
      [apply str_length_nonneg | lia].
Qed.

(** ** The commit calls, start to end *)

Lemma remove_last_job (jobs : list task) (t : task) :
  nth_error (jobs ++ [t]) (length jobs) = Some t /\
  firstn (length jobs) (jobs ++ [t]) ++ skipn (S (length jobs)) (jobs ++ [t]) = jobs.
Proof.
  split.
  - rewrite nth_error_app2 by lia. now rewrite Nat.sub_diag.
  - rewrite firstn_app, firstn_all, Nat.sub_diag. cbn [firstn].
    rewrite skipn_all2 by (rewrite length_app; cbn [length]; lia).
    now rewrite !app_nil_r.
Qed.

(** The asynchronous Log on a level leader outside degraded mode. *)
Lemma Log_async_level entry c s :
  level (4 + str_length entry) s ->
  master_only s = false ->
  Log_async entry c s
  = Ret (tt, set_current_offset (current_offset s + (4 + str_length entry))
               (emit EvSignalCond
                  (set_delayed
                     (delayed s ++ [{| task_offset := current_offset s;
                                       task_len := 4 + str_length entry |}])
                     (set_callbacks (<[current_offset s := c]> (callbacks s))
                        (set_sync_log (sync_log s ++ record entry) s))))).
Proof.
  intros [L C S R A F Room] Fl.
  pose proof (str_length_nonneg entry) as Ne.
  pose proof (str_length_nonneg (sync_log s)) as Nl.
  rewrite Log_async_eq, L, Fl. cbn [negb andb].
  rewrite (to_int_id (str_length entry))
    by (unfold in_int, INT_MIN, INT_MAX in *; lia).
  rewrite (to_int_id (str_length entry + 4))
    by (unfold in_int, INT_MIN, INT_MAX in *; lia).
  rewrite (to_int_id (current_offset s + _))
    by (unfold in_int, INT_MIN, INT_MAX in *; lia).
  replace (0 <=? str_length entry) with true by (symmetry; apply Z.leb_le; lia).
  cbv zeta. unfold map_insert. rewrite F.
  replace (str_length entry + 4) with (4 + str_length entry) by lia.
  reflexivity.
Qed.

(** X11. An asynchronous commit nobody acknowledges.  On a level leader
    outside degraded mode the asynchronous Log writes the record,
    registers the callback under the entry's offset and schedules the
    check; when that check runs with the callback still waiting, it calls
    the callback with true, once, takes it out of the table, raises
    [applied_offset_] to the end of the entry and puts the node into
    degraded mode, with [sync_offset_] where it was. *)
Theorem async_commit_times_out entry c s :
  level (4 + str_length entry) s ->
  master_only s = false ->
  exists s2,
    run_actions [DoLogAsync entry c; DoDelayed (length (delayed s))] s = Ret (tt, s2) /\
    trace s2 = trace s ++ [EvSignalCond; EvDone (current_offset s) c true] /\
    sync_log s2 = sync_log s ++ record entry /\
    master_only s2 = true /\
    current_offset s2 = current_offset s + (4 + str_length entry) /\
    applied_offset s2 = current_offset s2 /\
    sync_offset s2 = sync_offset s /\
    callbacks s2 = callbacks s /\
    delayed s2 = delayed s.
Proof.
  intros Lv Fl. pose proof Lv as [L C S R A F Room].
  pose proof (str_length_nonneg entry) as Ne.
  pose proof (str_length_nonneg (sync_log s)) as Nl.
  cbn [run_actions run_action]. unfold bind at 1.
  rewrite (Log_async_level entry c s Lv Fl).
  destruct (remove_last_job (delayed s)
              {| task_offset := current_offset s; task_len := 4 + str_length entry |})
    as [Nth Rem].
  run. field_simpl_state. rewrite Nth, Rem. cbn [task_offset task_len].
  rewrite PorcessCallbck_eq. field_simpl_state.
  rewrite lookup_insert_eq. cbv zeta. field_simpl_state.
  rewrite (to_int_id (current_offset s + _))
    by (unfold in_int, INT_MIN, INT_MAX in *; lia).
  replace (current_offset s + (4 + str_length entry) >? applied_offset s) with true
    by (symmetry; apply Z.gtb_lt; lia).
  rewrite Fl. cbn [andb negb].
  eexists. split; [reflexivity |]. field_simpl_state.
  rewrite <- app_assoc, delete_insert_id by exact F.
  repeat split.
Qed.

(** The round of ReplicateLog that ships the last record of the log. *)
Lemma last_record_round prefix e st r :
  ships_from prefix [e] st ->
  resp_success r = true ->
  ReplicateLog_iter r st
  = Ret (Continue,
         let s1 := emit (EvSend {| req_offset := to_uint32 (str_length prefix);
                                   req_log_data := e |})
                     (set_read_log (current_offset st) st) in
         let s2 := after_PorcessCallbck (str_length prefix) (4 + str_length e) false s1 in
         let s3 := set_sync_offset (current_offset st) s2 in
         if master_only st then set_master_only false s3 else s3).
Proof.
  intros [Hlog Hpos Hsync Hcur B] Hok.
  cbn [records flat_map] in Hlog. rewrite app_nil_r in Hlog.
  pose proof (str_length_nonneg e) as Ne.
  pose proof (str_length_nonneg prefix) as Np.
  assert (str_length (sync_log st) = str_length prefix + (4 + str_length e)) as Len
    by (rewrite Hlog, str_length_app, str_length_record; lia).
  unfold bounded in B.
  assert (str_length e <= INT_MAX) as Hfit by lia.
  unfold ReplicateLog_iter, ReplicateLog_head. run.
  replace (sync_offset st <? current_offset st) with true
    by (symmetry; apply Z.ltb_lt; lia).
  replace (sync_offset st =? current_offset st) with false
    by (symmetry; apply Z.eqb_neq; lia).
  cbn [andb negb].
  rewrite (ReadEntry_record st prefix e [] Hpos)
    by (rewrite ?app_nil_r; assumption).
  unfold ReplicateLog_reply. run. field_simpl_state.
  rewrite Hok. cbn [negb]. rewrite PorcessCallbck_after. field_simpl_state.
  rewrite (to_int_id (str_length e + 4))
    by (unfold in_int, INT_MIN, INT_MAX in *; lia).
  replace (str_length e + 4) with (4 + str_length e) by lia.
  replace (read_log st + 4 + str_length e) with (current_offset st) by lia.
  rewrite Hsync.
  match goal with
  | |- context [after_PorcessCallbck ?o ?l ?t ?x] =>
      pose proof (after_PorcessCallbck_frame o l t x) as F; cbv zeta in F;
      set (s2 := after_PorcessCallbck o l t x) in *
  end.
  destruct F as (_ & _ & F3 & F4 & _ & _ & _ & F8 & _).
  destruct F8 as [F8 | [F8 _]]; [| discriminate].
  field_simpl_state. rewrite F3, F4, F8. field_simpl_state. rewrite Hsync.
  rewrite (to_int_id (str_length prefix + _))
    by (unfold in_int, INT_MIN, INT_MAX in *; lia).
  replace (str_length prefix + (4 + str_length e)) with (current_offset st) by lia.
  rewrite Z.eqb_refl, andb_true_r.
  destruct (master_only st); reflexivity.
Qed.

(** X12. An asynchronous commit acknowledged in time.  On a level leader
    outside degraded mode: the asynchronous Log, then the round of
    ReplicateLog in which the standby accepts the entry, then the delayed
    check.  The callback is called with true exactly once, by the
    replicator; the check finds nothing and changes nothing; the node
    stays out of degraded mode and [sync_offset_] and [applied_offset_]
    reach the new [current_offset_]. *)
Theorem async_commit_acknowledged entry c s r :
  level (4 + str_length entry) s ->
  master_only s = false ->
  resp_success r = true ->
  exists s3,
    run_actions [DoLogAsync entry c; DoReplicate r; DoDelayed (length (delayed s))] s
    = Ret (tt, s3) /\
    trace s3 = trace s ++ [EvSignalCond;
                           EvSend {| req_offset := to_uint32 (current_offset s);
                                     req_log_data := entry |};
                           EvDone (current_offset s) c true] /\
    master_only s3 = false /\
    current_offset s3 = current_offset s + (4 + str_length entry) /\
    sync_offset s3 = current_offset s3 /\
    applied_offset s3 = current_offset s3 /\
    callbacks s3 = callbacks s /\
    delayed s3 = delayed s.
Proof.
  intros Lv Fl Hok. pose proof Lv as [L C S R A F Room].
  pose proof (str_length_nonneg entry) as Ne.
  pose proof (str_length_nonneg (sync_log s)) as Nl.
  cbn [run_actions run_action]. unfold bind at 1.
  rewrite (Log_async_level entry c s Lv Fl).
  unfold bind at 1. unfold bind at 1.
  rewrite (last_record_round (sync_log s) entry _ r); [| | exact Hok].
  2:{ constructor; field_simpl_state.
      - cbn [records flat_map]. now rewrite app_nil_r.
      - congruence.
      - congruence.
      - rewrite str_length_app, str_length_record. lia.
      - unfold bounded. field_simpl_state.
        rewrite str_length_app, str_length_record. lia. }
  cbv zeta. field_simpl_state. rewrite Fl.
  rewrite after_PorcessCallbck_eq. field_simpl_state.
  rewrite <- C, lookup_insert_eq. cbv zeta. field_simpl_state.
  rewrite (to_int_id (current_offset s + _))
    by (unfold in_int, INT_MIN, INT_MAX in *; lia).
  replace (current_offset s + (4 + str_length entry) >? applied_offset s) with true
    by (symmetry; apply Z.gtb_lt; lia).
  cbn [andb]. unfold ret at 1. run. field_simpl_state.
  destruct (remove_last_job (delayed s)
              {| task_offset := current_offset s; task_len := 4 + str_length entry |})
    as [Nth Rem].
  rewrite Nth, Rem. cbn [task_offset task_len].
  rewrite PorcessCallbck_eq. field_simpl_state.
  rewrite lookup_delete_eq.
  eexists. split; [reflexivity |]. field_simpl_state.
  rewrite <- !app_assoc, delete_insert_id by exact F.
  repeat split; try reflexivity; try assumption.
Qed.

(** The locked part of the blocking Log on a level leader. *)
Lemma Log_append_level entry s :
  level (4 + str_length entry) s ->
  Log_append entry s
  = Ret (current_offset s,
         emit EvSignalCond
           (set_current_offset (current_offset s + (4 + str_length entry))
              (set_sync_log (sync_log s ++ record entry) s))).
Proof.
  intros [L C S R A F Room].
  pose proof (str_length_nonneg entry) as Ne.
  pose proof (str_length_nonneg (sync_log s)) as Nl.
  rewrite Log_append_eq, L. cbn [negb].
  rewrite (to_int_id (str_length entry))
    by (unfold in_int, INT_MIN, INT_MAX in *; lia).
  rewrite (to_int_id (str_length entry + 4))
    by (unfold in_int, INT_MIN, INT_MAX in *; lia).
  rewrite (to_int_id (current_offset s + _))
    by (unfold in_int, INT_MIN, INT_MAX in *; lia).
  replace (0 <=? str_length entry) with true by (symmetry; apply Z.leb_le; lia).
  replace (str_length entry + 4) with (4 + str_length entry) by lia.
  reflexivity.
Qed.

(** The pass of ReplicateLog that finds nothing left to ship: the loop is
    left, [applied_offset_] set and [log_done_] signalled. *)
Lemma finishing_round r s :
  sync_offset s = current_offset s ->
  ReplicateLog_iter r s
  = Ret (Finished, emit EvSignalLogDone (set_applied_offset (current_offset s) s)).
Proof.
  intros E. unfold ReplicateLog_iter, ReplicateLog_head. run.
  rewrite E, Z.ltb_irrefl. reflexivity.
Qed.

(** X13. A blocking commit acknowledged while it waits.  On a level
    leader, degraded or not, with nothing happening before the first test:
    during the first TimeWait the standby accepts the entry and
    ReplicateLog, finding nothing left to ship, leaves its loop, sets
    [applied_offset_] and signals [log_done_]; the wait is over before the
    deadline.  Log returns true after that one wait, the node is out of
    degraded mode, and [sync_offset_] and [applied_offset_] have reached
    [current_offset_]. *)
Theorem blocking_commit_acknowledged entry timeout_ms sch s w rest r r' :
  level (4 + str_length entry) s ->
  before_check sch = [] ->
  rounds sch = w :: rest ->
  at_check w < stop_point timeout_ms sch ->
  signalled w = true ->
  meanwhile w = [DoReplicate r; DoReplicate r'] ->
  resp_success r = true ->
  exists s',
    Log entry timeout_ms sch s = Ret (true, s') /\
    trace s' = trace s ++
      [EvSignalCond;
       EvTimeWait (to_int (Z.quot (stop_point timeout_ms sch - at_wait w) 1000));
       EvSend {| req_offset := to_uint32 (current_offset s);
                 req_log_data := entry |};
       EvSignalLogDone] /\
    sync_log s' = sync_log s ++ record entry /\
    master_only s' = false /\
    current_offset s' = current_offset s + (4 + str_length entry) /\
    sync_offset s' = current_offset s' /\
    applied_offset s' = current_offset s' /\
    callbacks s' = callbacks s /\
    delayed s' = delayed s.
Proof.
  intros Lv Hb Hr Hdl Hsig Hmean Hok. pose proof Lv as [L C S R A F Room].
  pose proof (str_length_nonneg entry) as Ne.
  pose proof (str_length_nonneg (sync_log s)) as Nl.
  rewrite Log_unfold, (Log_append_level entry s Lv), Hb.
  cbn [run_actions]. unfold ret at 1. field_simpl_state.
  replace (sync_offset s <? current_offset s) with false
    by (symmetry; apply Z.ltb_ge; lia).
  rewrite andb_false_r, Hr. cbn [Log_wait]. run. field_simpl_state.
  replace (sync_offset s =? current_offset s + (4 + str_length entry)) with false
    by (symmetry; apply Z.eqb_neq; lia).
  replace (at_check w <? stop_point timeout_ms sch) with true
    by (symmetry; apply Z.ltb_lt; lia).
  rewrite Hmean, Hsig. cbn [run_actions run_action]. run.
  rewrite (last_record_round (sync_log s) entry _ r); [| | exact Hok].
  2:{ constructor; field_simpl_state.
      - cbn [records flat_map]. now rewrite app_nil_r.
      - congruence.
      - congruence.
      - rewrite str_length_app, str_length_record. lia.
      - unfold bounded. field_simpl_state.
        rewrite str_length_app, str_length_record. lia. }
  cbv zeta. field_simpl_state.
  rewrite after_PorcessCallbck_eq. field_simpl_state.
  rewrite <- C, F.
  destruct (master_only s) eqn:Fl;
    (rewrite finishing_round by reflexivity);
    field_simpl_state; rewrite ?Fl, ?Z.eqb_refl; cbn [negb];
    (eexists; split; [reflexivity |]); field_simpl_state;
    rewrite <- ?app_assoc; repeat split; try reflexivity; try assumption.
Qed.

(** X14. A request delivered twice is applied once.  A standby that has
    accepted a request refuses the same request when it arrives again:
    the answer is success=false with offset -1, and neither the log, nor
    the offsets, nor the applied entries change. *)
Theorem AppendLog_resent sb e fresh fresh' :
  0 <= current_offset sb ->
  current_offset sb + (4 + str_length e) <= INT_MAX ->
  let request := {| req_offset := to_uint32 (current_offset sb); req_log_data := e |} in
  exists sb',
    AppendLog request fresh sb
    = Ret ({| resp_success := true; resp_offset := resp_offset fresh |}, sb') /\
    trace sb' = trace sb ++ [EvApply e] /\
    AppendLog request fresh' sb'
    = Ret ({| resp_success := false; resp_offset := -1 |}, sb').
Proof.
  intros Hcur Hroom request.
  pose proof (str_length_nonneg e) as Ne.
  assert (to_uint32 (current_offset sb) = current_offset sb) as U
    by (apply to_uint32_id; unfold INT_MAX in *; lia).
  eexists. split; [apply (AppendLog_accepts sb e fresh Hcur Hroom) |].
  split; [reflexivity |].
  rewrite AppendLog_refuses; field_simpl_state; cbn [req_offset request].
  - replace (to_uint32 (current_offset sb) >? _) with false
      by (symmetry; rewrite U, Z.gtb_ltb; apply Z.ltb_ge; lia).
    reflexivity.
  - lia.
  - rewrite U. unfold INT_MAX in *. lia.
  - rewrite U. lia.
Qed.

(** ** The properties above on sample nodes *)

Lemma ReplicateLog_drains_witness :
  exists s',
    ReplicateLog [Reply Sample.accepted] Sample.leader_abc_pending = Ret ([], s') /\
    sent (trace s') = [{| req_offset := 7; req_log_data := Sample.hello |}] /\
    sync_offset s' = 16.
Proof.
  destruct (ReplicateLog_drains [Sample.hello] (record Sample.abc)
              Sample.leader_abc_pending [Sample.accepted] [])
    as (s' & H1 & H2 & H3 & _).
  - constructor; try reflexivity. vm_compute. congruence.
  - reflexivity.
  - repeat constructor.
  - exists s'. split; [exact H1 |]. split; [exact H2 | exact H3].
Defined.

Lemma ReplicateLog_stale_aborts_witness :
  ReplicateLog [Reply (Sample.resync_at (-1))] Sample.leader_abc_pending = Abort.
Proof.
  apply (ReplicateLog_stale_aborts [Sample.hello] (record Sample.abc)
           Sample.leader_abc_pending [Sample.resync_at (-1)] []).
  - reflexivity.
  - reflexivity.
  - reflexivity.
  - vm_compute. reflexivity.
  - vm_compute. congruence.
  - reflexivity.
  - repeat constructor.
Defined.

Lemma standby_brought_level_witness :
  exists leader' sb',
    replicate_to 2 Sample.accepted Sample.leader_abc_pending Sample.standby_abc
    = Ret (leader', sb') /\
    sync_log sb' = sync_log leader' /\
    current_offset sb' = 16.
Proof.
  destruct (standby_brought_level (record Sample.abc) [Sample.hello]
              Sample.leader_abc_pending Sample.standby_abc 2 Sample.accepted)
    as (leader' & sb' & H1 & H2 & _ & _ & H3 & _).
  - constructor; try reflexivity. vm_compute. congruence.
  - reflexivity.
  - reflexivity.
  - reflexivity.
  - cbn. lia.
  - exists leader', sb'. split; [exact H1 |]. split; [exact H2 | exact H3].
Defined.

Lemma standby_behind_brought_level_witness :
  exists leader' sb',
    replicate_to 4 Sample.accepted Sample.leader_abc_pending
      (Sample.booted (boot (Sample.flags_of "slave") Sample.empty_disk))
    = Ret (leader', sb') /\
    sync_log sb' = sync_log leader' /\
    current_offset sb' = 16.
Proof.
  destruct (standby_behind_brought_level [] [Sample.abc] [Sample.hello]
              Sample.leader_abc_pending
              (Sample.booted (boot (Sample.flags_of "slave") Sample.empty_disk))
              4 Sample.accepted)
    as (leader' & sb' & H1 & H2 & _ & _ & H3 & _).
  - constructor; try reflexivity. vm_compute. congruence.
  - discriminate.
  - discriminate.
  - vm_compute. reflexivity.
  - vm_compute. reflexivity.
  - vm_compute. reflexivity.
  - cbn. lia.
  - exists leader', sb'. split; [exact H1 |]. split; [exact H2 | exact H3].
Defined.

Lemma promoted_leader_aborts_on_peer_with_log_witness :
  exists s1,
    SwitchToLeader Sample.standby_abc = Ret (tt, s1) /\
    replicate_to 2 Sample.accepted s1 Sample.leader_abc = Abort.
Proof.
  destruct (promoted_leader_aborts_on_peer_with_log Sample.standby_abc [Sample.abc]
              Sample.leader_abc 2 Sample.accepted)
    as (s1 & H1 & _ & H2).
  - reflexivity.
  - discriminate.
  - reflexivity.
  - vm_compute. congruence.
  - vm_compute. split; congruence.
  - cbn. lia.
  - exists s1. split; [exact H1 | exact H2].
Defined.

Lemma pass_after_partial_record_aborts_witness :
  exists s1,
    ReplicateLog [] (set_current_offset 8
                       (set_sync_log Sample.encode_torn Sample.leader_empty))
    = Ret ([], s1) /\
    ReplicateLog [] s1 = Abort.
Proof.
  destruct (pass_after_partial_record_aborts
              (set_current_offset 8
                 (set_sync_log Sample.encode_torn Sample.leader_empty)) [])
    as (s1 & H1 & _ & _ & _ & H2).
  - split; [vm_compute; congruence |].
    exists 5, Sample.abc. split; [reflexivity |].
    split; [unfold INT_MAX; lia | vm_compute; reflexivity].
  - vm_compute. reflexivity.
  - exists s1. split; [exact H1 | exact (H2 [])].
Defined.

Lemma level_leader_abc : level 9 Sample.leader_abc.
Proof.
  constructor; try reflexivity; vm_compute; congruence.
Qed.

Lemma async_commit_times_out_witness :
  exists s2,
    run_actions [DoLogAsync Sample.hello 1%nat; DoDelayed 0] Sample.leader_abc
    = Ret (tt, s2) /\
    master_only s2 = true /\ applied_offset s2 = 16 /\ sync_offset s2 = 7.
Proof.
  destruct (async_commit_times_out Sample.hello 1%nat Sample.leader_abc)
    as (s2 & H1 & _ & _ & H2 & H3 & H4 & H5 & _).
  - exact level_leader_abc.
  - reflexivity.
  - exists s2. split; [exact H1 |]. split; [exact H2 |].
    split; [rewrite H4, H3; reflexivity | rewrite H5; reflexivity].
Defined.

Lemma async_commit_acknowledged_witness :
  exists s3,
    run_actions [DoLogAsync Sample.hello 1%nat; DoReplicate Sample.accepted; DoDelayed 0]
      Sample.leader_abc
    = Ret (tt, s3) /\
    master_only s3 = false /\ sync_offset s3 = 16.
Proof.
  destruct (async_commit_acknowledged Sample.hello 1%nat Sample.leader_abc
              Sample.accepted)
    as (s3 & H1 & _ & H2 & H3 & H4 & _).
  - exact level_leader_abc.
  - reflexivity.
  - reflexivity.
  - exists s3. split; [exact H1 |]. split; [exact H2 |].
    rewrite H4, H3. reflexivity.
Defined.

Lemma blocking_commit_acknowledged_witness :
  exists s',
    Log Sample.hello 100
      {| before_check := []; start_point := 0;
         rounds := [{| at_check := 10; at_wait := 20; signalled := true;
                       meanwhile := [DoReplicate Sample.accepted;
                                     DoReplicate Sample.accepted] |}] |}
      Sample.leader_abc
    = Ret (true, s') /\
    sync_offset s' = 16 /\ applied_offset s' = 16.
Proof.
  destruct (blocking_commit_acknowledged Sample.hello 100
              {| before_check := []; start_point := 0;
                 rounds := [{| at_check := 10; at_wait := 20; signalled := true;
                               meanwhile := [DoReplicate Sample.accepted;
                                             DoReplicate Sample.accepted] |}] |}
              Sample.leader_abc
              {| at_check := 10; at_wait := 20; signalled := true;
                 meanwhile := [DoReplicate Sample.accepted;
                               DoReplicate Sample.accepted] |}
              [] Sample.accepted Sample.accepted)
    as (s' & H1 & _ & _ & _ & H2 & H3 & H4 & _).
  - exact level_leader_abc.
  - reflexivity.
  - reflexivity.
  - vm_compute. reflexivity.
  - reflexivity.
  - reflexivity.
  - reflexivity.
  - exists s'. split; [exact H1 |].
    split; [rewrite H3, H2 | rewrite H4, H2]; reflexivity.
Defined.

Lemma AppendLog_resent_witness :
  exists sb',
    AppendLog {| req_offset := 7; req_log_data := Sample.hello |} Sample.accepted
      Sample.standby_abc
    = Ret ({| resp_success := true; resp_offset := 0 |}, sb') /\
    AppendLog {| req_offset := 7; req_log_data := Sample.hello |} Sample.accepted sb'
    = Ret ({| resp_success := false; resp_offset := -1 |}, sb').
Proof.
  destruct (AppendLog_resent Sample.standby_abc Sample.hello Sample.accepted
              Sample.accepted)
    as (sb' & H1 & _ & H2).
  - vm_compute. congruence.
  - vm_compute. congruence.
  - exists sb'. split; [exact H1 | exact H2].
Defined.
